(** * Minisweeper: the board engine, the difficulty presets and the event handlers

    A shallow embedding of [minisweeper.py] (class [Board], its text view
    included), [difficulty.py] and the event handlers of [game.py] (clicks,
    chord, new game and reset), with the properties of the engine and of
    the application proved over it.  The widgets, the status line and the
    command loop of the terminal version are left out.

    Python integers are [Z]; the grid is a list of rows of cells, indexed
    the way Python indexes lists (negative indices count from the end, an
    index out of range raises [IndexError]); exceptions are the [Raise]
    results of a small error monad (a call that raises returns no board:
    what it had already written is not modelled, and the theorems show that
    calls on reachable boards do not raise).  The value returned by
    [random.sample] is an explicit argument of the operations that place
    mines, constrained by [random_sample].  The [while] loop of the flood
    fill runs on an iteration budget, shown never to be exhausted. *)

From Stdlib Require Import ZArith Lia String Ascii.
From stdpp Require Import base tactics option list numbers gmap sets strings
  pretty.

Local Open Scope Z_scope.

(** ** Results of fallible code *)

Inductive exn : Type :=
  | InvalidDimensions   (* ValueError("width and height must be positive") *)
  | InvalidMineCount    (* ValueError("mines must be 1..max_mines") *)
  | SampleError         (* ValueError raised by random.sample *)
  | IndexError          (* list index out of range *)
  | UnknownDifficulty.  (* ValueError("Unknown difficulty: ...") *)

(** [OutOfFuel] is the result of a [while] loop whose iteration budget is
    exhausted; no Python behaviour corresponds to it. *)
Inductive result (A : Type) : Type :=
  | Ok (a : A)
  | Raise (e : exn)
  | OutOfFuel.

Arguments Ok {A} a.
Arguments Raise {A} e.
Arguments OutOfFuel {A}.

Definition bind {A B : Type} (m : result A) (k : A → result B) : result B :=
  match m with
  | Ok a => k a
  | Raise e => Raise e
  | OutOfFuel => OutOfFuel
  end.

Notation "'do' x <- m ; k" := (bind m (λ x, k))
  (at level 10, x name, m at level 100, k at level 200,
   format "'[v' 'do'  x  <-  m ;  '/' k ']'").
Notation "'do' ' p <- m ; k" := (bind m (λ x, match x with p => k end))
  (at level 10, p strict pattern, m at level 100, k at level 200).

(** A [for] loop over a list, threading the loop state; an exception in the
    body leaves the loop. *)
Fixpoint for_each {S A : Type} (body : S → A → result S) (s : S) (l : list A)
  : result S :=
  match l with
  | [] => Ok s
  | a :: l' => do s' <- body s a; for_each body s' l'
  end.

(** ** Python list indexing *)

Definition py_pos {A : Type} (l : list A) (i : Z) : result nat :=
  let n := Z.of_nat (length l) in
  if (0 <=? i) && (i <? n) then Ok (Z.to_nat i)
  else if (- n <=? i) && (i <? 0) then Ok (Z.to_nat (n + i))
  else Raise IndexError.

Definition py_get {A : Type} (l : list A) (i : Z) : result A :=
  do p <- py_pos l i;
  match l !! p with
  | Some a => Ok a
  | None => Raise IndexError
  end.

(** ** Cells and boards *)

Abbreviation coord := (Z * Z)%type.

Record Cell : Type := mkCell {
  mine : bool;
  revealed : bool;
  flagged : bool;
  adj : Z
}.

Definition default_cell : Cell := mkCell false false false 0.

Definition set_mine (v : bool) (c : Cell) : Cell :=
  mkCell v (revealed c) (flagged c) (adj c).
Definition set_revealed (v : bool) (c : Cell) : Cell :=
  mkCell (mine c) v (flagged c) (adj c).
Definition set_flagged (v : bool) (c : Cell) : Cell :=
  mkCell (mine c) (revealed c) v (adj c).
Definition set_adj (v : Z) (c : Cell) : Cell :=
  mkCell (mine c) (revealed c) (flagged c) v.

Record Board : Type := mkBoard {
  w : Z;
  h : Z;
  mine_target : Z;
  grid : list (list Cell);
  mines_placed : bool;
  revealed_count : Z
}.

Definition with_grid (b : Board) (g : list (list Cell)) : Board :=
  mkBoard (w b) (h b) (mine_target b) g (mines_placed b) (revealed_count b).
Definition with_mines_placed (b : Board) (v : bool) : Board :=
  mkBoard (w b) (h b) (mine_target b) (grid b) v (revealed_count b).
Definition with_revealed_count (b : Board) (n : Z) : Board :=
  mkBoard (w b) (h b) (mine_target b) (grid b) (mines_placed b) n.

(** [self.grid[y][x]] *)
Definition get_cell (g : list (list Cell)) (x y : Z) : result Cell :=
  do row <- py_get g y; py_get row x.

(** [self.grid[y][x].field = v]: the cell object at row [y], column [x] is
    changed in place; every cell of the grid is an object of its own. *)
Definition upd_cell (g : list (list Cell)) (x y : Z) (f : Cell → Cell)
  : result (list (list Cell)) :=
  do j <- py_pos g y;
  do row <- py_get g y;
  do i <- py_pos row x;
  Ok (alter (alter f i) j g).

(** [range(n)] *)
Definition range (n : Z) : list Z := seqZ 0 n.

(** [Board.__init__] *)
Definition Board_init (width height mines : Z) : result Board :=
  if (width <=? 0) || (height <=? 0) then Raise InvalidDimensions
  else
    let max_mines := width * height - 1 in
    if negb ((0 <? mines) && (mines <=? max_mines)) then Raise InvalidMineCount
    else
      Ok (mkBoard width height mines
            ((λ _, (λ _, default_cell) <$> range width) <$> range height)
            false 0).

Definition in_bounds (b : Board) (x y : Z) : bool :=
  (0 <=? x) && (x <? w b) && (0 <=? y) && (y <? h b).

(** [Board.neighbors]: the generator only reads [self.w] and [self.h], which
    never change, so it is the list of what it yields, in its order. *)
Definition neighbors (b : Board) (x y : Z) : list coord :=
  dy ← [-1; 0; 1];
  dx ← [-1; 0; 1];
  if (dx =? 0) && (dy =? 0) then []
  else
    let nx := x + dx in
    let ny := y + dy in
    if in_bounds b nx ny then [(nx, ny)] else [].

(** [[(x, y) for y in range(self.h) for x in range(self.w)]] *)
Definition all_coords (b : Board) : list coord :=
  y ← range (h b); x ← range (w b); [(x, y)].

(** ** Mine placement *)

(** What [random.sample(population, k)] may return: [k] elements taken at
    distinct positions of [population], in any order. *)
Definition random_sample {A : Type} (population : list A) (k : Z)
    (out : list A) : Prop :=
  Z.of_nat (length out) = k ∧ out ⊆+ population.

Definition excluded_zone (b : Board) (safe_x safe_y : Z) : gset coord :=
  {[ (safe_x, safe_y) ]} ∪ list_to_set (neighbors b safe_x safe_y).

(** The population handed to [random.sample], fallback included. *)
Definition mine_candidates (b : Board) (safe_x safe_y : Z) : list coord :=
  let all := all_coords b in
  let excluded := excluded_zone b safe_x safe_y in
  let candidates := filter (λ c, c ∉ excluded) all in
  if Z.of_nat (length candidates) <? mine_target b
  then filter (λ c, c ≠ (safe_x, safe_y)) all
  else candidates.

(** [sum(1 for nx, ny in self.neighbors(x, y) if self.grid[ny][nx].mine)] *)
Definition count_mined (g : list (list Cell)) (ns : list coord) : result Z :=
  for_each (λ acc n,
              do c <- get_cell g n.1 n.2;
              Ok (if mine c then acc + 1 else acc)) 0 ns.

Definition place_mine (g : list (list Cell)) (c : coord)
  : result (list (list Cell)) :=
  upd_cell g c.1 c.2 (set_mine true).

Definition compute_adj (b : Board) (y : Z) (g : list (list Cell)) (x : Z)
  : result (list (list Cell)) :=
  do c <- get_cell g x y;
  if mine c then Ok g
  else
    do k <- count_mined g (neighbors b x y);
    upd_cell g x y (set_adj k).

(** [Board.place_mines_excluding]; [rnd] is the list [random.sample]
    returns, and [random.sample] raises when asked for more elements than
    the population has (or for a negative number). *)
Definition place_mines_excluding (b : Board) (safe_x safe_y : Z)
    (rnd : list coord) : result Board :=
  let candidates := mine_candidates b safe_x safe_y in
  do mines <-
    (if (0 <=? mine_target b) && (mine_target b <=? Z.of_nat (length candidates))
     then Ok rnd else Raise SampleError);
  do g1 <- for_each place_mine (grid b) mines;
  do g2 <- for_each (λ g y, for_each (compute_adj b y) g (range (w b)))
             g1 (range (h b));
  Ok (with_mines_placed (with_grid b g2) true).

(** ** Reveal and flood fill *)

(** The state of the flood-fill loop: the board, the work stack (its top is
    the head of the list: [stack.pop()] takes and [stack.append] adds at the
    same end), the [visited] set, and [fl_pushed], a log of every coordinate
    ever put on the stack, which the source does not keep and no branch
    reads. *)
Record Flood : Type := mkFlood {
  fl_board : Board;
  fl_stack : list coord;
  fl_visited : gset coord;
  fl_pushed : list coord
}.

(** The body of [for nx, ny in self.neighbors(cx, cy)]. *)
Definition flood_neighbor (st : Flood) (n : coord) : result Flood :=
  let b := fl_board st in
  do ncell <- get_cell (grid b) n.1 n.2;
  if revealed ncell || flagged ncell then Ok st
  else if mine ncell then Ok st
  else
    do g' <- upd_cell (grid b) n.1 n.2 (set_revealed true);
    let visited' :=
      if decide (n ∈ fl_visited st) then fl_visited st
      else fl_visited st ∪ {[ n ]} in
    let b' := with_revealed_count (with_grid b g') (revealed_count b + 1) in
    if adj ncell =? 0
    then Ok (mkFlood b' (n :: fl_stack st) visited' (n :: fl_pushed st))
    else Ok (mkFlood b' (fl_stack st) visited' (fl_pushed st)).

(** [while stack: ...], run for at most [fuel] iterations. *)
Fixpoint flood_loop (fuel : nat) (st : Flood) : result Flood :=
  match fl_stack st with
  | [] => Ok st
  | c :: rest =>
    match fuel with
    | O => OutOfFuel
    | S fuel' =>
      do st' <- for_each flood_neighbor
                  (mkFlood (fl_board st) rest (fl_visited st) (fl_pushed st))
                  (neighbors (fl_board st) c.1 c.2);
      flood_loop fuel' st'
    end
  end.

(** [stack = [(x, y)]; visited = set(stack); while stack: ...] *)
Definition flood_fill (fuel : nat) (b : Board) (x y : Z) : result Flood :=
  flood_loop fuel (mkFlood b [(x, y)] {[ (x, y) ]} [(x, y)]).

(** [Board.reveal], its loop run for at most [fuel] iterations.  [cell] is a
    reference to the object in the grid: after mine placement its [mine] and
    [adj] are read again from the grid. *)
Definition reveal_fuel (fuel : nat) (b : Board) (x y : Z) (rnd : list coord)
  : result (Board * (bool * bool)) :=
  if negb (in_bounds b x y) then Ok (b, (false, false))
  else
    do cell <- get_cell (grid b) x y;
    if flagged cell then Ok (b, (false, false))
    else if revealed cell then Ok (b, (true, false))
    else
      do b1 <- (if negb (mines_placed b)
                then place_mines_excluding b x y rnd else Ok b);
      do g2 <- upd_cell (grid b1) x y (set_revealed true);
      let b2 := with_revealed_count (with_grid b1 g2) (revealed_count b1 + 1) in
      do cell2 <- get_cell g2 x y;
      if mine cell2 then Ok (b2, (true, true))
      else if adj cell2 =? 0 then
        do st <- flood_fill fuel b2 x y;
        Ok (fl_board st, (true, false))
      else Ok (b2, (true, false)).

(** The loop is given one iteration per cell of the board; the termination
    theorem shows that this budget is never used up and that a larger one
    changes nothing. *)
Definition reveal (b : Board) (x y : Z) (rnd : list coord)
  : result (Board * (bool * bool)) :=
  reveal_fuel (Z.to_nat (w b * h b)) b x y rnd.

(** [Board.toggle_flag] *)
Definition toggle_flag (b : Board) (x y : Z) : result (Board * bool) :=
  if negb (in_bounds b x y) then Ok (b, false)
  else
    do cell <- get_cell (grid b) x y;
    if revealed cell then Ok (b, false)
    else
      do g' <- upd_cell (grid b) x y (λ c, set_flagged (negb (flagged c)) c);
      Ok (with_grid b g', true).

(** [Board.all_safe_revealed] *)
Definition all_safe_revealed (b : Board) : bool :=
  let total_cells := w b * h b in
  revealed_count b =? total_cells - mine_target b.

(** [Board.render].  [str(n)] and the [d] format are stdpp's [pretty] on
    [Z]; a field of width 2 is padded with spaces, on the left for [{x:2d}]
    and on the right for [{ch:2s}]. *)
Definition spaces (n : nat) : string :=
  string_of_list_ascii (replicate n " "%char).

Definition fmt_2d (n : Z) : string :=
  let s := pretty n in spaces (2 - String.length s) +:+ s.

Definition fmt_2s (s : string) : string :=
  s +:+ spaces (2 - String.length s).

Definition newline : string := String (ascii_of_nat 10) EmptyString.

(** The character(s) [ch] shown for a cell. *)
Definition cell_text (reveal_all : bool) (c : Cell) : string :=
  if reveal_all then
    if mine c then "*"
    else if adj c =? 0 then "."
    else pretty (adj c)
  else
    if flagged c && negb (revealed c) then "F"
    else if negb (revealed c) then "#"
    else if mine c then "*"
    else if adj c =? 0 then "."
    else pretty (adj c).

Definition render (b : Board) (reveal_all : bool) : result string :=
  let header := "   " +:+ String.concat " " (fmt_2d <$> range (w b)) in
  do lines <-
    for_each (λ lines y,
                do row <-
                  for_each (λ row x,
                              do c <- get_cell (grid b) x y;
                              Ok (row ++ [" " +:+ fmt_2s (cell_text reveal_all c)]))
                           [fmt_2d y] (range (w b));
                Ok (lines ++ [String.concat " " row]))
             [header] (range (h b));
  Ok (String.concat newline lines).

(** ** The difficulty presets ([difficulty.py]) *)

Record Difficulty : Type := mkDifficulty {
  name : string;
  width : Z;
  height : Z;
  mines : Z
}.

Definition _LEVELS : gmap string Difficulty :=
  {[ "easy"%string := mkDifficulty "easy" 9 9 10;
     "medium"%string := mkDifficulty "medium" 16 16 40;
     "hard"%string := mkDifficulty "hard" 30 16 99;
     "too hard"%string := mkDifficulty "too hard" 30 24 180 ]}.

(** Names are modelled as ASCII strings: [py_isspace] and [py_lower] are
    [str.isspace] and [str.lower] on the ASCII range, where [str.strip],
    [str.lower] and [str.split] use no other character.  Python's versions
    are Unicode-aware, so the model is the code on the names of
    [ascii_name] only, and the theorems about names are stated of those. *)
Definition py_isspace (a : ascii) : bool :=
  let n := nat_of_ascii a in
  ((9 <=? n)%nat && (n <=? 13)%nat) || ((28 <=? n)%nat && (n <=? 32)%nat).

Definition py_lower (a : ascii) : ascii :=
  let n := nat_of_ascii a in
  if (65 <=? n)%nat && (n <=? 90)%nat then ascii_of_nat (n + 32) else a.

Fixpoint lstrip (s : string) : string :=
  match s with
  | EmptyString => EmptyString
  | String a s' => if py_isspace a then lstrip s' else s
  end.

(** [str.strip()] *)
Definition strip (s : string) : string :=
  String.rev (lstrip (String.rev (lstrip s))).

Fixpoint str_map (f : ascii → ascii) (s : string) : string :=
  match s with
  | EmptyString => EmptyString
  | String a s' => String (f a) (str_map f s')
  end.

(** [str.replace(old, new)] for one-character [old] and [new] *)
Definition replace_char (old new : ascii) (s : string) : string :=
  str_map (λ a, if Ascii.eqb a old then new else a) s.

(** [str.split()]: the maximal runs of characters that are not white space *)
Fixpoint split_go (cur : option string) (s : string) : list string :=
  match s with
  | EmptyString => option_list (String.rev <$> cur)
  | String a s' =>
    if py_isspace a
    then option_list (String.rev <$> cur) ++ split_go None s'
    else split_go (Some (String a (default EmptyString cur))) s'
  end.
Definition split (s : string) : list string := split_go None s.

Definition normalize_name (name : string) : string :=
  let key :=
    replace_char "-" " " (replace_char "_" " " (str_map py_lower (strip name))) in
  String.concat " " (filter (λ part, part ≠ EmptyString) (split key)).

Definition get_difficulty (name : string) : result Difficulty :=
  let key := normalize_name name in
  match _LEVELS !! key with
  | None => Raise UnknownDifficulty
  | Some d => Ok d
  end.

Definition list_difficulties : gmap string Difficulty := _LEVELS.


(** ** The chord composite ([MinesweeperApp.on_chord] of [game.py]) *)

(** The part of the application state the chord reads and writes; the
    widgets are left out. *)
Record App : Type := mkApp {
  board : option Board;
  game_over : bool
}.

(** The message box an event handler ends with, if any. *)
Inductive dialog : Type :=
  | MineHitDialog   (* showinfo(GAME_OVER_TITLE, MINE_HIT_MSG) *)
  | WinDialog.      (* showinfo(WIN_TITLE, WIN_MSG) *)

(** [for nx, ny in self.board.neighbors(x, y): ...], which returns from the
    handler at the first hit; the boolean tells whether it did. *)
Fixpoint chord_reveal (b : Board) (ns : list coord) (rnd : list coord)
  : result (Board * bool) :=
  match ns with
  | [] => Ok (b, false)
  | n :: ns' =>
    do ncell <- get_cell (grid b) n.1 n.2;
    if negb (flagged ncell) && negb (revealed ncell) then
      do r <- reveal b n.1 n.2 rnd;
      if r.2.2 then Ok (r.1, true) else chord_reveal r.1 ns' rnd
    else chord_reveal b ns' rnd
  end.

(** [flagged = 0; for nx, ny in ...: if ...flagged: flagged += 1] *)
Definition count_flagged (b : Board) (ns : list coord) : result Z :=
  for_each (λ acc n,
              do c <- get_cell (grid b) n.1 n.2;
              Ok (if flagged c then acc + 1 else acc)) 0 ns.

Definition on_chord (app : App) (x y : Z) (rnd : list coord)
  : result (App * option dialog) :=
  if game_over app then Ok (app, None)
  else match board app with
  | None => Ok (app, None)
  | Some b =>
    do c <- get_cell (grid b) x y;
    if negb (revealed c) || (adj c <=? 0) then Ok (app, None)
    else
      do k <- count_flagged b (neighbors b x y);
      if negb (k =? adj c) then Ok (app, None)
      else
        do r <- chord_reveal b (neighbors b x y) rnd;
        if r.2 then Ok (mkApp (Some r.1) true, Some MineHitDialog)
        else if all_safe_revealed r.1
             then Ok (mkApp (Some r.1) true, Some WinDialog)
             else Ok (mkApp (Some r.1) false, None)
  end.

(** ** The other event handlers of [game.py] *)

(** The error box a handler that starts a game may show. *)
Inductive error_box : Type :=
  | InvalidDifficultyBox   (* showerror("Invalid difficulty", ...) *)
  | InvalidInputBox        (* showerror("Invalid input", ...) *)
  | NewGameErrorBox.       (* showerror("New Game Error", ...) *)

(** [MinesweeperApp.new_game]: when [Board] raises, the error is shown and
    the application is left as it was. *)
Definition new_game (app : App) (width height mines : Z)
  : App * option error_box :=
  match Board_init width height mines with
  | Ok b => (mkApp (Some b) false, None)
  | _ => (app, Some NewGameErrorBox)
  end.

(** [MinesweeperApp.__init__], as far as the board and [game_over] go. *)
Definition App_init (width height mines : Z) : App :=
  (new_game (mkApp None false) width height mines).1.

(** [MinesweeperApp.reset_game] *)
Definition reset_game (app : App) : App * option error_box :=
  match board app with
  | None => (app, None)
  | Some b => new_game app (w b) (h b) (mine_target b)
  end.

(** What the handlers read from the widgets: the text of the difficulty
    box, and for each spin box the integer [int(var.get())] evaluates to,
    or [None] when it raises. *)
Record Inputs : Type := mkInputs {
  diff_var : string;
  width_var : option Z;
  height_var : option Z;
  mines_var : option Z
}.

(** [MinesweeperApp.new_game_from_inputs] *)
Definition new_game_from_inputs (app : App) (inp : Inputs)
  : App * option error_box :=
  let diff_name := str_map py_lower (strip (diff_var inp)) in
  if negb (String.eqb diff_name "custom") then
    match get_difficulty diff_name with
    | Ok diff => new_game app (width diff) (height diff) (mines diff)
    | _ => (app, Some InvalidDifficultyBox)
    end
  else
    match width_var inp with
    | Some wd =>
      match height_var inp with
      | Some ht =>
        match mines_var inp with
        | Some m => new_game app wd ht m
        | None => (app, Some InvalidInputBox)
        end
      | None => (app, Some InvalidInputBox)
      end
    | None => (app, Some InvalidInputBox)
    end.

(** [MinesweeperApp.on_left_click].  [cell] is a reference to the object in
    the grid, read again after [reveal] has run. *)
Definition on_left_click (app : App) (x y : Z) (rnd : list coord)
  : result (App * option dialog) :=
  if game_over app then Ok (app, None)
  else match board app with
  | None => Ok (app, None)
  | Some b =>
    do _cell <- get_cell (grid b) x y;
    do r <- reveal b x y rnd;
    do cell <- get_cell (grid r.1) x y;
    if negb r.2.1 && revealed cell && negb (mine cell)
    then on_chord (mkApp (Some r.1) false) x y rnd
    else if r.2.2 then Ok (mkApp (Some r.1) true, Some MineHitDialog)
    else if all_safe_revealed r.1
         then Ok (mkApp (Some r.1) true, Some WinDialog)
         else Ok (mkApp (Some r.1) false, None)
  end.

(** [MinesweeperApp.on_right_click] *)
Definition on_right_click (app : App) (x y : Z) : result App :=
  if game_over app then Ok app
  else match board app with
  | None => Ok app
  | Some b =>
    do r <- toggle_flag b x y;
    Ok (mkApp (Some r.1) (game_over app))
  end.

(** ** Vocabulary of the statements *)

(** The cell of a grid at a coordinate, for reading in statements. *)
Definition gcell (g : list (list Cell)) (c : coord) : Cell :=
  match get_cell g c.1 c.2 with
  | Ok cell => cell
  | _ => default_cell
  end.

Definition cell_at (b : Board) (c : coord) : Cell := gcell (grid b) c.

(** A grid of [ht] rows of [wd] cells. *)
Definition shaped (wd ht : Z) (g : list (list Cell)) : Prop :=
  length g = Z.to_nat ht ∧ Forall (λ row, length row = Z.to_nat wd) g.

(** The grid has [h] rows of [w] cells, as [Board.__init__] builds it. *)
Definition wf_board (b : Board) : bool :=
  (0 <? w b) && (0 <? h b)
  && (length (grid b) =? Z.to_nat (h b))%nat
  && forallb (λ row, (length row =? Z.to_nat (w b))%nat) (grid b).

(** The constraint [Board.__init__] puts on the number of mines. *)
Definition valid_target (b : Board) : Prop :=
  0 < mine_target b ≤ w b * h b - 1.

(** Number of cells of the board, taken by coordinate, that satisfy [P]. *)
Definition count_cells (P : Cell → bool) (b : Board) : Z :=
  Z.of_nat (length (filter (λ c, P (cell_at b c) = true) (all_coords b))).

(** The in-bounds Moore neighbours of [c] as the specification words
    them: the eight cells around [c], row by row, those of them that lie on
    the board.  The list is written from the geometry and the dimensions,
    not from [Board.neighbors] or [Board.in_bounds]. *)
Definition moore (b : Board) (c : coord) : list coord :=
  filter (λ n, 0 ≤ n.1 < w b ∧ 0 ≤ n.2 < h b)
    [(c.1 - 1, c.2 - 1); (c.1, c.2 - 1); (c.1 + 1, c.2 - 1);
     (c.1 - 1, c.2); (c.1 + 1, c.2);
     (c.1 - 1, c.2 + 1); (c.1, c.2 + 1); (c.1 + 1, c.2 + 1)].

(** Number of in-bounds Moore neighbours of [c] that are mines. *)
Definition mined_neighbors (b : Board) (c : coord) : Z :=
  Z.of_nat (length (filter (λ n, mine (cell_at b n) = true) (moore b c))).

(** Number of in-bounds Moore neighbours of [c] that are flagged. *)
Definition flagged_neighbors (b : Board) (c : coord) : Z :=
  Z.of_nat (length (filter (λ n, flagged (cell_at b n) = true) (moore b c))).

(** Number of cells revealed in [b'] that were not revealed in [b]. *)
Definition newly_revealed (b b' : Board) : Z :=
  Z.of_nat (length (filter (λ c, revealed (cell_at b c) = false
                                 ∧ revealed (cell_at b' c) = true)
                      (all_coords b))).

(** The two boards agree on everything but which cells are revealed and
    the counter of revealed cells. *)
Definition same_but_revealed (b b' : Board) : Prop :=
  w b' = w b ∧ h b' = h b ∧ mine_target b' = mine_target b
  ∧ mines_placed b' = mines_placed b
  ∧ ∀ c, in_bounds b c.1 c.2 = true →
         mine (cell_at b' c) = mine (cell_at b c)
         ∧ flagged (cell_at b' c) = flagged (cell_at b c)
         ∧ adj (cell_at b' c) = adj (cell_at b c).

(** The region the specification lets a flood fill from [(x, y)] reveal:
    the start, and every in-bounds Moore neighbour that is not revealed, not
    flagged and not a mine of a cell of the region whose count is 0. *)
Inductive flood_region (b : Board) (x y : Z) : coord → Prop :=
  | region_start : flood_region b x y (x, y)
  | region_step (c n : coord) :
      flood_region b x y c →
      adj (cell_at b c) = 0 →
      n ∈ moore b c →
      revealed (cell_at b n) = false →
      flagged (cell_at b n) = false →
      mine (cell_at b n) = false →
      flood_region b x y n.

(** The states a game goes through: a constructed board, then reveals and
    flag toggles; a reveal that has to place the mines draws them with
    [random.sample]. *)
Inductive reachable : Board → Prop :=
  | reach_init (width height mines : Z) (b : Board) :
      Board_init width height mines = Ok b → reachable b
  | reach_reveal (b b' : Board) (x y : Z) (rnd : list coord) (r : bool * bool) :
      reachable b →
      (mines_placed b = false →
       random_sample (mine_candidates b x y) (mine_target b) rnd) →
      reveal b x y rnd = Ok (b', r) →
      reachable b'
  | reach_toggle_flag (b b' : Board) (x y : Z) (r : bool) :
      reachable b →
      toggle_flag b x y = Ok (b', r) →
      reachable b'.

(** The chord as the specification words it, on a board and the list of the
    neighbours still to treat: each neighbour that is neither flagged nor
    revealed is revealed with [reveal]; a hit stops the chord. *)
Inductive chord_spec (rnd : list coord)
  : Board → list coord → Board → bool → Prop :=
  | chord_done (b : Board) : chord_spec rnd b [] b false
  | chord_skip (b b' : Board) (n : coord) (ns : list coord) (hit : bool) :
      flagged (cell_at b n) = true ∨ revealed (cell_at b n) = true →
      chord_spec rnd b ns b' hit →
      chord_spec rnd b (n :: ns) b' hit
  | chord_hit (b b' : Board) (n : coord) (ns : list coord) (ok : bool) :
      flagged (cell_at b n) = false → revealed (cell_at b n) = false →
      reveal b n.1 n.2 rnd = Ok (b', (ok, true)) →
      chord_spec rnd b (n :: ns) b' true
  | chord_next (b b1 b' : Board) (n : coord) (ns : list coord) (ok hit : bool) :
      flagged (cell_at b n) = false → revealed (cell_at b n) = false →
      reveal b n.1 n.2 rnd = Ok (b1, (ok, false)) →
      chord_spec rnd b1 ns b' hit →
      chord_spec rnd b (n :: ns) b' hit.

(** What the adjacency pass of [place_mines_excluding] leaves in the cell at
    [c] of a grid [g]. *)
Definition adj_pass (b : Board) (g : list (list Cell)) (c : coord) : Cell :=
  if mine (gcell g c) then gcell g c
  else set_adj (Z.of_nat (length (filter (λ n, mine (gcell g n) = true)
                                    (neighbors b c.1 c.2))))
               (gcell g c).

(** *** Invariants of the flood fill

    [b0] is the board on which [reveal] was called on the cell [(x0, y0)],
    after mine placement and before that cell is marked revealed. *)

(** Number of cells not revealed in [b]. *)
Definition unrevealed (b0 b : Board) : nat :=
  length (filter (λ c, revealed (cell_at b c) = false) (all_coords b0)).

(** A cell the flood fill may reveal. *)
Definition eligible (b0 : Board) (n : coord) : Prop :=
  revealed (cell_at b0 n) = false ∧ flagged (cell_at b0 n) = false
  ∧ mine (cell_at b0 n) = false.

(** Every neighbour of [c] that the flood fill may reveal is revealed. *)
Definition closed_cell (b0 b : Board) (c : coord) : Prop :=
  ∀ n, n ∈ neighbors b0 c.1 c.2 → eligible b0 n →
       revealed (cell_at b n) = true.

(** What holds of the board all along a reveal: only cells of the region
    have been revealed, nothing else changed, and the counter followed. *)
Definition reveal_frame (b0 : Board) (x0 y0 : Z) (b : Board) : Prop :=
  wf_board b = true
  ∧ same_but_revealed b0 b
  ∧ (∀ c, in_bounds b0 c.1 c.2 = true →
          revealed (cell_at b0 c) = true → revealed (cell_at b c) = true)
  ∧ (∀ c, in_bounds b0 c.1 c.2 = true →
          revealed (cell_at b0 c) = false → revealed (cell_at b c) = true →
          flood_region b0 x0 y0 c)
  ∧ revealed_count b = revealed_count b0 + newly_revealed b0 b.

(** The invariant of the [while] loop; inside the [for] loop [pending] is
    the cell that was popped and whose neighbours are being treated. *)
Definition flood_inv (b0 : Board) (x0 y0 : Z) (pending : option coord)
    (st : Flood) : Prop :=
  reveal_frame b0 x0 y0 (fl_board st)
  ∧ revealed (cell_at (fl_board st) (x0, y0)) = true
  ∧ (∀ c, c ∈ fl_stack st →
          in_bounds b0 c.1 c.2 = true ∧ flood_region b0 x0 y0 c
          ∧ adj (cell_at b0 c) = 0)
  ∧ (∀ c, in_bounds b0 c.1 c.2 = true →
          revealed (cell_at b0 c) = false →
          revealed (cell_at (fl_board st) c) = true →
          adj (cell_at b0 c) = 0 →
          c ∈ fl_stack st ∨ closed_cell b0 (fl_board st) c ∨ pending = Some c)
  ∧ NoDup (fl_pushed st)
  ∧ (∀ c, c ∈ fl_pushed st →
          in_bounds b0 c.1 c.2 = true ∧ revealed (cell_at b0 c) = false
          ∧ revealed (cell_at (fl_board st) c) = true).

(** The invariant of the [for] loop over the neighbours of the popped cell
    [c]: [pre] are the neighbours already treated, [bound] bounds the length
    of the stack plus the number of hidden cells. *)
Definition flood_inner (b0 : Board) (x0 y0 : Z) (c : coord) (bound : nat)
    (pre : list coord) (st : Flood) : Prop :=
  flood_inv b0 x0 y0 (Some c) st
  ∧ (∀ m, m ∈ pre → in_bounds b0 m.1 m.2 = true → eligible b0 m →
          revealed (cell_at (fl_board st) m) = true)
  ∧ (length (fl_stack st) + unrevealed b0 (fl_board st) ≤ bound)%nat.

(** One cell is marked revealed and counted. *)
Definition reveal_step (b : Board) (n : coord) (b' : Board) : Prop :=
  wf_board b' = true
  ∧ w b' = w b ∧ h b' = h b ∧ mine_target b' = mine_target b
  ∧ mines_placed b' = mines_placed b
  ∧ revealed_count b' = revealed_count b + 1
  ∧ cell_at b' n = set_revealed true (cell_at b n)
  ∧ ∀ c, in_bounds b c.1 c.2 = true → c ≠ n → cell_at b' c = cell_at b c.

(** The rest of [reveal] once the mines are placed: what it does from
    [cell.revealed = True] on, on the board [b1] that has its mines. *)
Definition reveal_marked (fuel : nat) (b1 : Board) (x y : Z)
  : result (Board * (bool * bool)) :=
  do g2 <- upd_cell (grid b1) x y (set_revealed true);
  let b2 := with_revealed_count (with_grid b1 g2) (revealed_count b1 + 1) in
  do cell2 <- get_cell g2 x y;
  if mine cell2 then Ok (b2, (true, true))
  else if adj cell2 =? 0 then
    do st <- flood_fill fuel b2 x y;
    Ok (fl_board st, (true, false))
  else Ok (b2, (true, false)).

(** The board on which [reveal] marks the cell: [b] itself when it already
    has its mines, else what [place_mines_excluding] returns. *)
Definition placed (b : Board) (x y : Z) (rnd : list coord) (b1 : Board) : Prop :=
  if mines_placed b then b1 = b
  else place_mines_excluding b x y rnd = Ok b1.

(** What every reachable board satisfies. *)
Definition board_inv (b : Board) : Prop :=
  wf_board b = true ∧ valid_target b
  ∧ (mines_placed b = false →
     ∀ c, in_bounds b c.1 c.2 = true →
          mine (cell_at b c) = false ∧ revealed (cell_at b c) = false).

(** *** Example games *)

Definition board_of {A : Type} (r : result (Board * A)) : Board :=
  match r with
  | Ok (b, _) => b
  | _ => mkBoard 0 0 0 [] false 0
  end.

(** A 3x3 board with one mine: fresh, then with a flag on (0, 0), then after
    revealing (2, 2) when the mine was drawn at (0, 0). *)
Definition ex_fresh : Board :=
  Eval vm_compute in
    match Board_init 3 3 1 with Ok b => b | _ => mkBoard 0 0 0 [] false 0 end.
Definition ex_flagged : Board :=
  Eval vm_compute in board_of (toggle_flag ex_fresh 0 0).
Definition ex_played : Board :=
  Eval vm_compute in board_of (reveal ex_flagged 2 2 [(0, 0)]).

(** A 2x2 board with one mine: fresh, then after revealing (0, 0) when the
    mine was drawn at (1, 1), then after revealing (1, 0). *)
Definition ex_small : Board :=
  Eval vm_compute in
    match Board_init 2 2 1 with Ok b => b | _ => mkBoard 0 0 0 [] false 0 end.
Definition ex_small_1 : Board :=
  Eval vm_compute in board_of (reveal ex_small 0 0 [(1, 1)]).
Definition ex_small_2 : Board :=
  Eval vm_compute in board_of (reveal ex_small_1 1 0 []).

(** The 3x3 board after a first reveal of (1, 1) when the mine was drawn at
    (0, 0): the revealed cell shows 1 and nothing else is revealed. *)
Definition ex_mid : Board :=
  Eval vm_compute in board_of (reveal ex_fresh 1 1 [(0, 0)]).

(** [ex_mid] with a flag on the mine, and with a flag on (1, 0) instead. *)
Definition ex_chord : Board :=
  Eval vm_compute in board_of (toggle_flag ex_mid 0 0).
Definition ex_chord_wrong : Board :=
  Eval vm_compute in board_of (toggle_flag ex_mid 1 0).

(** A 4x4 board with two mines, large enough for the safe zone. *)
Definition ex_wide : Board :=
  Eval vm_compute in
    match Board_init 4 4 2 with Ok b => b | _ => mkBoard 0 0 0 [] false 0 end.

(** A 2x2 board with three mines, too small for the safe zone. *)
Definition ex_tiny : Board :=
  Eval vm_compute in
    match Board_init 2 2 3 with Ok b => b | _ => mkBoard 0 0 0 [] false 0 end.

(** The fresh 3x3 board once its mine is placed at (0, 0), nothing being
    revealed yet. *)
Definition ex_mined : Board :=
  Eval vm_compute in
    match place_mines_excluding ex_fresh 2 2 [(0, 0)] with
    | Ok b => b
    | _ => ex_fresh
    end.

(** *** Names of difficulties *)

(** Every character of the string satisfies [P]. *)
Fixpoint str_all (P : ascii → bool) (s : string) : bool :=
  match s with
  | EmptyString => true
  | String a s' => P a && str_all P s'
  end.

(** The names the model of [normalize_name] covers: every character is in
    the ASCII range. *)
Definition is_ascii (a : ascii) : bool := (nat_of_ascii a <? 128)%nat.

Definition ascii_name (s : string) : Prop := str_all is_ascii s = true.

(** A word: a string that is not empty and made of characters of [Q]. *)
Definition word_of (Q : ascii → bool) (wd : string) : Prop :=
  wd ≠ EmptyString ∧ str_all Q wd = true.

(** The characters a normalised name is made of, besides the single spaces
    between its words: no white space, no upper-case letter, no underscore
    and no hyphen. *)
Definition name_char (a : ascii) : bool :=
  negb (py_isspace a) && Ascii.eqb (py_lower a) a
  && negb (Ascii.eqb a "_") && negb (Ascii.eqb a "-").

(** A canonical name: words of such characters joined by single spaces. *)
Definition canonical (s : string) : Prop :=
  ∃ ws, s = String.concat " " ws ∧ Forall (word_of name_char) ws.

(** The string is empty or does not start with white space. *)
Definition starts_ok (s : string) : bool :=
  match s with
  | EmptyString => true
  | String a _ => negb (py_isspace a)
  end.

(** *** The application *)

(** No revealed cell of the board is a mine; some revealed cell is. *)
Definition no_mine_revealed (b : Board) : Prop :=
  ∀ c, in_bounds b c.1 c.2 = true → revealed (cell_at b c) = true →
       mine (cell_at b c) = false.

Definition mine_revealed (b : Board) : Prop :=
  ∃ c, in_bounds b c.1 c.2 = true ∧ revealed (cell_at b c) = true
       ∧ mine (cell_at b c) = true.

(** The states the application goes through: built by [__init__], then the
    New and Reset buttons and the clicks on the buttons of the grid, which
    [_build_grid] binds to the cells of the current board. *)
Inductive reachable_app : App → Prop :=
  | rapp_init (width height mines : Z) :
      reachable_app (App_init width height mines)
  | rapp_new (app : App) (inp : Inputs) :
      reachable_app app → reachable_app (new_game_from_inputs app inp).1
  | rapp_reset (app : App) :
      reachable_app app → reachable_app (reset_game app).1
  | rapp_left_click (app app' : App) (b : Board) (x y : Z) (rnd : list coord)
        (dlg : option dialog) :
      reachable_app app → board app = Some b → in_bounds b x y = true →
      (mines_placed b = false →
       random_sample (mine_candidates b x y) (mine_target b) rnd) →
      on_left_click app x y rnd = Ok (app', dlg) →
      reachable_app app'
  | rapp_right_click (app app' : App) (b : Board) (x y : Z) :
      reachable_app app → board app = Some b → in_bounds b x y = true →
      on_right_click app x y = Ok app' →
      reachable_app app'
  | rapp_chord (app app' : App) (b : Board) (x y : Z) (rnd : list coord)
        (dlg : option dialog) :
      reachable_app app → board app = Some b → in_bounds b x y = true →
      on_chord app x y rnd = Ok (app', dlg) →
      reachable_app app'.

(** What every state of the application satisfies. *)
Definition app_inv (app : App) : Prop :=
  ∀ b, board app = Some b →
       reachable b
       ∧ (game_over app = false →
          no_mine_revealed b ∧ all_safe_revealed b = false)
       ∧ (game_over app = true →
          mine_revealed b ∨ all_safe_revealed b = true).

(** The application started on a 3x3 board with one mine, then after a
    right click on (0, 0), then after a left click on (2, 2) when the mine
    was drawn at (0, 0). *)
Definition ex_app : App := Eval vm_compute in App_init 3 3 1.
Definition ex_app_flagged : App :=
  Eval vm_compute in
    match on_right_click ex_app 0 0 with Ok app => app | _ => ex_app end.
Definition ex_app_played : App :=
  Eval vm_compute in
    match on_left_click ex_app_flagged 2 2 [(0, 0)] with
    | Ok (app, _) => app
    | _ => ex_app
    end.

(** * Proofs *)

(** ** The error monad and loops *)

Lemma bind_Ok {A B : Type} (m : result A) (k : A → result B) (r : B) :
  bind m k = Ok r ↔ ∃ a, m = Ok a ∧ k a = Ok r.
Proof.
  destruct m; simpl; split; try (intros [? [? ?]]); try discriminate; eauto.
  congruence.
Qed.

Lemma for_each_app {S A : Type} (body : S → A → result S) (s : S) (l k : list A) :
  for_each body s (l ++ k) = do s' <- for_each body s l; for_each body s' k.
Proof.
  revert s; induction l as [|a l IH]; intros s; simpl; [done|].
  destruct (body s a); simpl; auto.
Qed.

(** A nested [for] is a [for] over the pairs. *)
Lemma for_each_bind {S A B : Type} (body : S → B → result S) (f : A → list B)
    (s : S) (l : list A) :
  for_each body s (l ≫= f) = for_each (λ s a, for_each body s (f a)) s l.
Proof.
  revert s; induction l as [|a l IH]; intros s; simpl; [done|].
  rewrite for_each_app. destruct (for_each body s (f a)); simpl; auto.
Qed.

(** Invariant rule for a [for] loop whose body never raises: [J] holds of
    the treated prefix and the state. *)
Lemma for_each_inv {S A : Type} (body : S → A → result S)
    (J : list A → S → Prop) (l : list A) (s0 : S) :
  J [] s0 →
  (∀ pre a post s, l = pre ++ a :: post → J pre s →
     ∃ s', body s a = Ok s' ∧ J (pre ++ [a]) s') →
  ∃ s', for_each body s0 l = Ok s' ∧ J l s'.
Proof.
  intros H0 Hstep.
  assert (Hgen : ∀ post pre s, l = pre ++ post → J pre s →
            ∃ s', for_each body s post = Ok s' ∧ J l s').
  { induction post as [|a post IH]; intros pre s Hl HJ; simpl.
    - rewrite app_nil_r in Hl. subst. eauto.
    - destruct (Hstep pre a post s Hl HJ) as (s1 & Hb & HJ1).
      rewrite Hb. simpl. apply (IH (pre ++ [a])); [|done].
      by rewrite <- app_assoc. }
  by apply (Hgen l []).
Qed.

(** ** Reading and writing cells of a well-shaped grid *)

Lemma in_bounds_spec (b : Board) (x y : Z) :
  in_bounds b x y = true ↔ 0 ≤ x < w b ∧ 0 ≤ y < h b.
Proof. unfold in_bounds. rewrite !andb_true_iff. lia. Qed.

Lemma wf_board_spec (b : Board) :
  wf_board b = true ↔ 0 < w b ∧ 0 < h b ∧ shaped (w b) (h b) (grid b).
Proof.
  unfold wf_board, shaped. rewrite !andb_true_iff, forallb_forall, Forall_forall.
  rewrite Z.ltb_lt, Z.ltb_lt, Nat.eqb_eq.
  setoid_rewrite Nat.eqb_eq. setoid_rewrite <- list_elem_of_In. tauto.
Qed.

Lemma py_pos_nonneg {A : Type} (l : list A) (i : Z) :
  0 ≤ i < Z.of_nat (length l) → py_pos l i = Ok (Z.to_nat i).
Proof.
  intros Hi. unfold py_pos.
  destruct (Z.leb_spec 0 i), (Z.ltb_spec i (Z.of_nat (length l))); simpl;
    first [done | lia].
Qed.

Lemma py_get_nonneg {A : Type} (l : list A) (i : Z) (a : A) :
  0 ≤ i → l !! Z.to_nat i = Some a → py_get l i = Ok a.
Proof.
  intros Hi Hl. unfold py_get.
  rewrite py_pos_nonneg; [simpl; by rewrite Hl|].
  apply lookup_lt_Some in Hl. lia.
Qed.

Lemma shaped_lookup (wd ht : Z) (g : list (list Cell)) (x y : Z) :
  shaped wd ht g → 0 ≤ x < wd → 0 ≤ y < ht →
  ∃ row c, g !! Z.to_nat y = Some row ∧ row !! Z.to_nat x = Some c
           ∧ length row = Z.to_nat wd.
Proof.
  intros [Hlen Hrows] Hx Hy.
  destruct (lookup_lt_is_Some_2 g (Z.to_nat y)) as [row Hrow]; [lia|].
  assert (Hr : length row = Z.to_nat wd).
  { rewrite Forall_forall in Hrows. apply Hrows.
    by eapply list_elem_of_lookup_2. }
  destruct (lookup_lt_is_Some_2 row (Z.to_nat x)) as [c Hc]; [lia|].
  eauto.
Qed.

Lemma get_cell_gcell (wd ht : Z) (g : list (list Cell)) (c : coord) :
  shaped wd ht g → 0 ≤ c.1 < wd → 0 ≤ c.2 < ht →
  get_cell g c.1 c.2 = Ok (gcell g c).
Proof.
  intros Hs Hx Hy.
  destruct (shaped_lookup _ _ _ _ _ Hs Hx Hy) as (row & cl & Hrow & Hcl & _).
  assert (get_cell g c.1 c.2 = Ok cl) as Hget.
  { unfold get_cell. rewrite (py_get_nonneg g c.2 row); [simpl|lia|done].
    apply py_get_nonneg; [lia|done]. }
  unfold gcell. by rewrite Hget.
Qed.

Lemma upd_cell_ok (wd ht : Z) (g : list (list Cell)) (c : coord) (f : Cell → Cell) :
  shaped wd ht g → 0 ≤ c.1 < wd → 0 ≤ c.2 < ht →
  ∃ g', upd_cell g c.1 c.2 f = Ok g' ∧ shaped wd ht g'
        ∧ gcell g' c = f (gcell g c)
        ∧ ∀ c', 0 ≤ c'.1 < wd → 0 ≤ c'.2 < ht → c' ≠ c → gcell g' c' = gcell g c'.
Proof.
  intros Hs Hx Hy.
  destruct (shaped_lookup _ _ _ _ _ Hs Hx Hy) as (row & cl & Hrow & Hcl & Hlr).
  pose proof Hs as [Hlen Hrows].
  set (g' := alter (alter f (Z.to_nat c.1)) (Z.to_nat c.2) g).
  assert (Hs' : shaped wd ht g').
  { subst g'. split; [by rewrite length_alter|].
    apply Forall_alter; [done|]. intros r _ Hr. simpl. by rewrite length_alter. }
  assert (Hupd : upd_cell g c.1 c.2 f = Ok g').
  { unfold upd_cell. rewrite py_pos_nonneg by lia. simpl.
    rewrite (py_get_nonneg g c.2 row) by (lia || done). simpl.
    rewrite py_pos_nonneg by lia. done. }
  assert (Hcell : ∀ c' cl', 0 ≤ c'.1 < wd → 0 ≤ c'.2 < ht →
            (∃ row', g' !! Z.to_nat c'.2 = Some row' ∧ row' !! Z.to_nat c'.1 = Some cl') →
            gcell g' c' = cl').
  { intros c' cl' Hx' Hy' (row' & Hr' & Hc').
    unfold gcell, get_cell. rewrite (py_get_nonneg g' c'.2 row') by (lia || done).
    simpl. rewrite (py_get_nonneg row' c'.1 cl') by (lia || done). done. }
  exists g'. split_and!; [done|done| |].
  - apply Hcell; [done|done|].
    exists (alter f (Z.to_nat c.1) row). split.
    + subst g'. by rewrite list_lookup_alter_eq, Hrow.
    + rewrite list_lookup_alter_eq, Hcl. simpl. f_equal.
      pose proof (get_cell_gcell wd ht g c Hs Hx Hy) as Hg.
      unfold get_cell in Hg. rewrite (py_get_nonneg g c.2 row) in Hg by (lia || done).
      simpl in Hg. rewrite (py_get_nonneg row c.1 cl) in Hg by (lia || done).
      congruence.
  - intros c' Hx' Hy' Hne.
    destruct (shaped_lookup _ _ _ _ _ Hs Hx' Hy') as (row' & cl' & Hrow' & Hcl' & _).
    assert (gcell g c' = cl') as ->.
    { pose proof (get_cell_gcell wd ht g c' Hs Hx' Hy') as Hg.
      unfold get_cell in Hg. rewrite (py_get_nonneg g c'.2 row') in Hg by (lia || done).
      simpl in Hg. rewrite (py_get_nonneg row' c'.1 cl') in Hg by (lia || done).
      congruence. }
    apply Hcell; [done|done|].
    destruct (decide (Z.to_nat c'.2 = Z.to_nat c.2)) as [Heq|Hney].
    + exists (alter f (Z.to_nat c.1) row). split.
      * subst g'. by rewrite Heq, list_lookup_alter_eq, Hrow.
      * rewrite Heq in Hrow'. assert (row' = row) as -> by congruence.
        rewrite list_lookup_alter_ne; [done|].
        intros Hxe. apply Hne. destruct c, c'; simpl in *. f_equal; lia.
    + exists row'. split; [|done]. subst g'. by rewrite list_lookup_alter_ne.
Qed.

(** ** Coordinates and neighbours *)

Lemma elem_of_all_coords (b : Board) (c : coord) :
  c ∈ all_coords b ↔ in_bounds b c.1 c.2 = true.
Proof.
  rewrite in_bounds_spec. unfold all_coords, range.
  rewrite list_elem_of_bind. setoid_rewrite list_elem_of_bind.
  setoid_rewrite elem_of_seqZ. setoid_rewrite list_elem_of_singleton.
  destruct c as [x y]; simpl. split.
  - intros (y' & (x' & Hc & Hx) & Hy). inversion Hc; subst. lia.
  - intros [Hx Hy]. exists y. split; [|lia]. exists x. split; [done|lia].
Qed.

Lemma NoDup_all_coords (b : Board) : NoDup (all_coords b).
Proof.
  unfold all_coords, range. apply NoDup_bind; [| |apply NoDup_seqZ].
  - intros y1 y2 c _ _ H1 H2.
    apply list_elem_of_bind in H1 as (x1 & H1 & _).
    apply list_elem_of_bind in H2 as (x2 & H2 & _).
    apply list_elem_of_singleton in H1, H2. congruence.
  - intros y _. apply NoDup_bind; [| |apply NoDup_seqZ].
    + intros x1 x2 c _ _ H1 H2.
      apply list_elem_of_singleton in H1, H2. congruence.
    + intros x _. apply NoDup_singleton.
Qed.

Lemma length_bind_const {A B : Type} (f : A → list B) (l : list A) (n : nat) :
  (∀ a, length (f a) = n) → length (l ≫= f) = (length l * n)%nat.
Proof.
  intros Hf. induction l as [|a l IH]; [done|].
  rewrite bind_cons, length_app, Hf, IH. simpl. lia.
Qed.

Lemma length_all_coords (b : Board) :
  0 ≤ w b → 0 ≤ h b → Z.of_nat (length (all_coords b)) = w b * h b.
Proof.
  intros Hw Hh. unfold all_coords, range.
  rewrite (length_bind_const _ _ (Z.to_nat (w b))).
  - rewrite length_seqZ. lia.
  - intros y. rewrite (length_bind_const _ _ 1%nat); [|done].
    rewrite length_seqZ. lia.
Qed.

Lemma neighbors_unfold (b : Board) (x y : Z) :
  neighbors b x y =
    (if in_bounds b (x + -1) (y + -1) then [(x + -1, y + -1)] else [])
    ++ (if in_bounds b (x + 0) (y + -1) then [(x + 0, y + -1)] else [])
    ++ (if in_bounds b (x + 1) (y + -1) then [(x + 1, y + -1)] else [])
    ++ (if in_bounds b (x + -1) (y + 0) then [(x + -1, y + 0)] else [])
    ++ (if in_bounds b (x + 1) (y + 0) then [(x + 1, y + 0)] else [])
    ++ (if in_bounds b (x + -1) (y + 1) then [(x + -1, y + 1)] else [])
    ++ (if in_bounds b (x + 0) (y + 1) then [(x + 0, y + 1)] else [])
    ++ (if in_bounds b (x + 1) (y + 1) then [(x + 1, y + 1)] else []).
Proof.
  unfold neighbors. simpl. rewrite !app_nil_r, <- !app_assoc. done.
Qed.

Lemma elem_of_if_singleton {A : Type} (c : bool) (a x : A) :
  x ∈ (if c then [a] else []) ↔ c = true ∧ x = a.
Proof.
  destruct c; [rewrite list_elem_of_singleton|rewrite elem_of_nil];
    intuition congruence.
Qed.

Lemma elem_of_neighbors (b : Board) (x y : Z) (n : coord) :
  n ∈ neighbors b x y ↔
  in_bounds b n.1 n.2 = true ∧ n ≠ (x, y)
  ∧ x - 1 ≤ n.1 ≤ x + 1 ∧ y - 1 ≤ n.2 ≤ y + 1.
Proof.
  rewrite neighbors_unfold. rewrite !elem_of_app, !elem_of_if_singleton.
  destruct n as [nx ny]; simpl. split.
  - intros H.
    repeat (destruct H as [H|H]); destruct H as [Hb [= -> ->]];
      (split_and!; first [done | lia | intros [=]; lia]).
  - intros (Hb & Hne & Hx & Hy).
    assert (Hcase : (nx = x + -1 ∨ nx = x + 0 ∨ nx = x + 1)
                    ∧ (ny = y + -1 ∨ ny = y + 0 ∨ ny = y + 1)) by lia.
    destruct Hcase as [ [ -> | [ -> | -> ] ] [ -> | [ -> | -> ] ] ]; try tauto.
    exfalso. apply Hne. f_equal; lia.
Qed.

Lemma if_singleton_sublist {A : Type} (c : bool) (a : A) :
  (if c then [a] else []) `sublist_of` [a].
Proof. destruct c; [done|]. apply sublist_nil_l. Qed.

Lemma neighbors_sublist (b : Board) (x y : Z) :
  neighbors b x y `sublist_of`
    [(x + -1, y + -1); (x + 0, y + -1); (x + 1, y + -1);
     (x + -1, y + 0); (x + 1, y + 0);
     (x + -1, y + 1); (x + 0, y + 1); (x + 1, y + 1)].
Proof.
  rewrite neighbors_unfold.
  change [(x + -1, y + -1); (x + 0, y + -1); (x + 1, y + -1);
          (x + -1, y + 0); (x + 1, y + 0);
          (x + -1, y + 1); (x + 0, y + 1); (x + 1, y + 1)]
    with ([(x + -1, y + -1)] ++ [(x + 0, y + -1)] ++ [(x + 1, y + -1)]
     ++ [(x + -1, y + 0)] ++ [(x + 1, y + 0)]
     ++ [(x + -1, y + 1)] ++ [(x + 0, y + 1)] ++ [(x + 1, y + 1)]).
  repeat (apply sublist_app; [apply if_singleton_sublist|]).
  apply if_singleton_sublist.
Qed.

Lemma NoDup_neighbors (b : Board) (x y : Z) : NoDup (neighbors b x y).
Proof.
  eapply sublist_NoDup; [|apply neighbors_sublist].
  repeat (apply NoDup_cons; split;
          [rewrite ?elem_of_cons, elem_of_nil; intros H;
           repeat (destruct H as [H|H]); try (inversion H; lia); done|]).
  apply NoDup_nil_2.
Qed.

Lemma length_neighbors (b : Board) (x y : Z) :
  (length (neighbors b x y) ≤ 8)%nat.
Proof. apply (sublist_length _ _ (neighbors_sublist b x y)). Qed.

Lemma neighbors_in_bounds (b : Board) (x y : Z) (n : coord) :
  n ∈ neighbors b x y → in_bounds b n.1 n.2 = true.
Proof. rewrite elem_of_neighbors. tauto. Qed.

(** [Board.neighbors] yields the in-bounds Moore neighbours, in their
    order. *)
Lemma filter_on_board (b : Board) (n : coord) (l : list coord) :
  filter (λ n, 0 ≤ n.1 < w b ∧ 0 ≤ n.2 < h b) (n :: l)
  = (if in_bounds b n.1 n.2 then [n] else [])
    ++ filter (λ n, 0 ≤ n.1 < w b ∧ 0 ≤ n.2 < h b) l.
Proof.
  rewrite filter_cons. destruct (in_bounds b n.1 n.2) eqn:Hb.
  - apply in_bounds_spec in Hb. by case_decide.
  - case_decide as Hd; [|done]. apply in_bounds_spec in Hd. congruence.
Qed.

Lemma neighbors_moore (b : Board) (c : coord) :
  neighbors b c.1 c.2 = moore b c.
Proof.
  rewrite neighbors_unfold, !Z.add_0_r. unfold moore.
  rewrite !filter_on_board, filter_nil, app_nil_r. reflexivity.
Qed.

Lemma neighbors_moore_xy (b : Board) (x y : Z) :
  neighbors b x y = moore b (x, y).
Proof. apply (neighbors_moore b (x, y)). Qed.

Lemma mined_neighbors_unfold (b : Board) (c : coord) :
  mined_neighbors b c
  = Z.of_nat (length (filter (λ n, mine (cell_at b n) = true)
                        (neighbors b c.1 c.2))).
Proof. unfold mined_neighbors. by rewrite neighbors_moore. Qed.

Lemma flagged_neighbors_unfold (b : Board) (c : coord) :
  flagged_neighbors b c
  = Z.of_nat (length (filter (λ n, flagged (cell_at b n) = true)
                        (neighbors b c.1 c.2))).
Proof. unfold flagged_neighbors. by rewrite neighbors_moore. Qed.

Lemma region_step_neighbors (b : Board) (x y : Z) (c n : coord) :
  flood_region b x y c → adj (cell_at b c) = 0 →
  n ∈ neighbors b c.1 c.2 →
  revealed (cell_at b n) = false → flagged (cell_at b n) = false →
  mine (cell_at b n) = false →
  flood_region b x y n.
Proof.
  intros Hc Hz Hn. rewrite neighbors_moore in Hn. by apply (region_step b x y c).
Qed.

Lemma neighbors_same_dims (b b' : Board) (x y : Z) :
  w b' = w b → h b' = h b → neighbors b' x y = neighbors b x y.
Proof.
  intros Hw Hh. unfold neighbors, in_bounds. by rewrite Hw, Hh.
Qed.

Lemma all_coords_same_dims (b b' : Board) :
  w b' = w b → h b' = h b → all_coords b' = all_coords b.
Proof. intros Hw Hh. unfold all_coords. by rewrite Hw, Hh. Qed.

(** ** Reading and writing cells of a well-formed board *)

Lemma wf_board_dims (b : Board) : wf_board b = true → 0 < w b ∧ 0 < h b.
Proof. rewrite wf_board_spec. tauto. Qed.

Lemma get_cell_at (b : Board) (c : coord) :
  wf_board b = true → in_bounds b c.1 c.2 = true →
  get_cell (grid b) c.1 c.2 = Ok (cell_at b c).
Proof.
  rewrite wf_board_spec, in_bounds_spec. intros (_ & _ & Hs) [Hx Hy].
  by apply (get_cell_gcell (w b) (h b)).
Qed.

Lemma upd_cell_at (b : Board) (c : coord) (f : Cell → Cell) :
  wf_board b = true → in_bounds b c.1 c.2 = true →
  ∃ g', upd_cell (grid b) c.1 c.2 f = Ok g'
        ∧ wf_board (with_grid b g') = true
        ∧ cell_at (with_grid b g') c = f (cell_at b c)
        ∧ ∀ c', in_bounds b c'.1 c'.2 = true → c' ≠ c →
                cell_at (with_grid b g') c' = cell_at b c'.
Proof.
  rewrite wf_board_spec, in_bounds_spec. intros (Hw & Hh & Hs) [Hx Hy].
  destruct (upd_cell_ok (w b) (h b) (grid b) c f Hs Hx Hy)
    as (g' & Hupd & Hs' & Hc & Hother).
  exists g'. split_and!; [done| |done|].
  - rewrite wf_board_spec. by simpl.
  - intros c' Hb'. apply in_bounds_spec in Hb' as [? ?]. by apply Hother.
Qed.

(** ** Counting cells *)

Lemma length_filter_iff {A : Type} (P Q : A → Prop)
    `{!∀ x, Decision (P x), !∀ x, Decision (Q x)} (l : list A) :
  (∀ a, a ∈ l → P a ↔ Q a) → length (filter P l) = length (filter Q l).
Proof.
  induction l as [|a l IH]; intros Hpq; [done|].
  rewrite !filter_cons.
  assert (Ha : P a ↔ Q a) by (apply Hpq; left).
  assert (Hl : length (filter P l) = length (filter Q l))
    by (apply IH; intros; apply Hpq; by right).
  destruct (decide (P a)), (decide (Q a)); simpl; tauto || lia.
Qed.

(** Turning on a property at one element of a duplicate-free list adds one
    to the count. *)
Lemma length_filter_flip {A : Type} (P Q : A → Prop)
    `{!∀ x, Decision (P x), !∀ x, Decision (Q x)} (l : list A) (n : A) :
  NoDup l → n ∈ l → ¬ P n → Q n →
  (∀ a, a ∈ l → a ≠ n → P a ↔ Q a) →
  length (filter Q l) = S (length (filter P l)).
Proof.
  intros Hnd Hn HnP HnQ Hother.
  apply list_elem_of_split in Hn as (l1 & l2 & ->).
  apply NoDup_app in Hnd as (_ & Hn1 & [Hn2 _]%NoDup_cons).
  rewrite !filter_app, !filter_cons, !length_app.
  rewrite (decide_True (P:=Q n)), (decide_False (P:=P n)) by done. simpl.
  rewrite (length_filter_iff P Q l1), (length_filter_iff P Q l2); [lia| |].
  - intros a Ha. apply Hother.
    + rewrite elem_of_app, elem_of_cons. auto.
    + intros ->. done.
  - intros a Ha. apply Hother.
    + rewrite elem_of_app. by left.
    + intros ->. apply (Hn1 n Ha). left.
Qed.

Lemma length_filter_elem_of {A : Type} `{EqDecision A} (l k : list A) :
  NoDup l → NoDup k → (∀ a, a ∈ l → a ∈ k) →
  length (filter (λ a, a ∈ l) k) = length l.
Proof.
  intros Hl Hk Hsub. apply Permutation_length, NoDup_Permutation; [|done|].
  - by apply NoDup_filter.
  - intros a. rewrite list_elem_of_filter. intuition.
Qed.

Lemma length_filter_complement {A : Type} (P : A → Prop)
    `{!∀ x, Decision (P x)} (l : list A) :
  (length (filter P l) + length (filter (λ a, ¬ P a) l))%nat = length l.
Proof.
  rewrite <- length_app. apply Permutation_length, filter_app_complement.
Qed.

(** ** Counting by coordinate is counting the cells of the grid *)






(** ** Construction *)

Lemma Board_init_Ok (width height mines : Z) (b : Board) :
  Board_init width height mines = Ok b ↔
  0 < width ∧ 0 < height ∧ 0 < mines ≤ width * height - 1
  ∧ b = mkBoard width height mines
          ((λ _, (λ _, default_cell) <$> range width) <$> range height)
          false 0.
Proof.
  unfold Board_init.
  destruct (Z.leb_spec width 0), (Z.leb_spec height 0); simpl;
    try (split; [discriminate | lia]).
  destruct (Z.ltb_spec 0 mines), (Z.leb_spec mines (width * height - 1)); simpl;
    try (split; [discriminate | lia]).
  split; [intros [= <-]; repeat split; lia | intros (_ & _ & _ & ->); done].
Qed.

Lemma fresh_board_wf (width height mines : Z) (b : Board) :
  Board_init width height mines = Ok b → wf_board b = true.
Proof.
  intros (Hw & Hh & Hm & ->)%Board_init_Ok.
  rewrite wf_board_spec; simpl. split_and!; [done|done|].
  unfold shaped, range. rewrite length_fmap, length_seqZ. split; [done|].
  apply Forall_fmap, Forall_forall. intros y _. simpl.
  by rewrite length_fmap, length_seqZ.
Qed.

Lemma fresh_board_cell (width height mines : Z) (b : Board) (c : coord) :
  Board_init width height mines = Ok b →
  in_bounds b c.1 c.2 = true → cell_at b c = default_cell.
Proof.
  intros Hinit Hb. pose proof (fresh_board_wf _ _ _ _ Hinit) as Hwf.
  pose proof (get_cell_at b c Hwf Hb) as Hget.
  apply Board_init_Ok in Hinit as (Hw & Hh & Hm & ->).
  apply in_bounds_spec in Hb as [Hx Hy]; simpl in *.
  unfold get_cell, py_get in Hget.
  rewrite py_pos_nonneg in Hget
    by (unfold range; rewrite length_fmap, length_seqZ; lia).
  simpl in Hget. rewrite list_lookup_fmap in Hget.
  destruct (range height !! Z.to_nat c.2); simpl in Hget; [|discriminate].
  rewrite py_pos_nonneg in Hget
    by (unfold range; rewrite length_fmap, length_seqZ; lia).
  simpl in Hget. rewrite list_lookup_fmap in Hget.
  destruct (range width !! Z.to_nat c.1); simpl in Hget; [|discriminate].
  congruence.
Qed.

(** C7, as amended. [Board.__init__] raises the dimension error exactly when
    [width <= 0] or [height <= 0]; it raises the mine-count error exactly
    when both dimensions are positive and [mines] is outside
    [(0, width*height - 1]]; otherwise it returns a board of the given
    dimensions and target whose grid has [height] rows of [width] default
    cells (not a mine, not revealed, not flagged, count 0), with
    [mines_placed = False] and [revealed_count = 0]. *)
Theorem Board_init_outcomes (width height mines : Z) :
  (Board_init width height mines = Raise InvalidDimensions
   ↔ width ≤ 0 ∨ height ≤ 0)
  ∧ (Board_init width height mines = Raise InvalidMineCount
     ↔ 0 < width ∧ 0 < height ∧ ¬ (0 < mines ≤ width * height - 1))
  ∧ (0 < width → 0 < height → 0 < mines ≤ width * height - 1 →
     ∃ b, Board_init width height mines = Ok b
          ∧ w b = width ∧ h b = height ∧ mine_target b = mines
          ∧ wf_board b = true
          ∧ Forall (Forall (λ c, c = default_cell)) (grid b)
          ∧ (∀ c, in_bounds b c.1 c.2 = true → cell_at b c = default_cell)
          ∧ mines_placed b = false ∧ revealed_count b = 0).
Proof.
  split_and!.
  - unfold Board_init.
    destruct (Z.leb_spec width 0), (Z.leb_spec height 0); simpl;
      try (split; [intros _; lia | done]).
    destruct (negb _); split; (discriminate || lia).
  - unfold Board_init.
    destruct (Z.leb_spec width 0), (Z.leb_spec height 0); simpl;
      try (split; [discriminate | lia]).
    destruct (Z.ltb_spec 0 mines), (Z.leb_spec mines (width * height - 1)); simpl;
      (split; [try discriminate; intros _; lia | try done; lia]).
  - intros Hw Hh Hm.
    assert (Hinit : Board_init width height mines
              = Ok (mkBoard width height mines
                      ((λ _, (λ _, default_cell) <$> range width) <$> range height)
                      false 0))
      by (apply Board_init_Ok; tauto).
    eexists. split; [exact Hinit|]. simpl. split_and!; try done.
    + by apply (fresh_board_wf _ _ _ _ Hinit).
    + apply Forall_fmap, Forall_forall. intros y _. simpl.
      apply Forall_fmap, Forall_forall. by intros x _.
    + intros c. by apply (fresh_board_cell _ _ _ _ c Hinit).
Qed.

Lemma Board_init_outcomes_witness :
  ∃ b, Board_init 3 3 1 = Ok b
       ∧ w b = 3 ∧ h b = 3 ∧ mine_target b = 1
       ∧ wf_board b = true
       ∧ Forall (Forall (λ c, c = default_cell)) (grid b)
       ∧ (∀ c, in_bounds b c.1 c.2 = true → cell_at b c = default_cell)
       ∧ mines_placed b = false ∧ revealed_count b = 0.
Proof.
  apply (Board_init_outcomes 3 3 1); lia.
Defined.

(** C7 fails as stated: with [width = 0] the mine count 5 is outside
    [(0, width*height - 1]], yet the error raised is the dimension error and
    not the mine-count error. *)
Lemma Board_init_mine_count_not_exact :
  ¬ (0 < 5 ≤ 0 * 1 - 1)
  ∧ Board_init 0 1 5 = Raise InvalidDimensions
  ∧ Board_init 0 1 5 ≠ Raise InvalidMineCount.
Proof. split_and!; [lia | reflexivity | discriminate]. Qed.

(** ** Difficulty presets *)

Lemma _LEVELS_lookup (key : string) (d : Difficulty) :
  _LEVELS !! key = Some d →
  d = mkDifficulty "easy" 9 9 10 ∨ d = mkDifficulty "medium" 16 16 40
  ∨ d = mkDifficulty "hard" 30 16 99 ∨ d = mkDifficulty "too hard" 30 24 180.
Proof.
  unfold _LEVELS. intros H.
  repeat (apply lookup_insert_Some in H as [[_ <-]|[_ H]]; [tauto|]).
  apply lookup_singleton_Some in H as [_ <-]. tauto.
Qed.

(** C10. The preset table holds easy 9x9/10, medium 16x16/40, hard 30x16/99
    and too hard 30x24/180; each entry meets the preconditions of
    [Board.__init__], so a board built from whatever [get_difficulty]
    returns is constructed without error. *)
Theorem presets_construct :
  (_LEVELS !! "easy"%string = Some (mkDifficulty "easy" 9 9 10)
   ∧ _LEVELS !! "medium"%string = Some (mkDifficulty "medium" 16 16 40)
   ∧ _LEVELS !! "hard"%string = Some (mkDifficulty "hard" 30 16 99)
   ∧ _LEVELS !! "too hard"%string = Some (mkDifficulty "too hard" 30 24 180))
  ∧ map_Forall (λ _ d, 0 < width d ∧ 0 < height d
                       ∧ 0 < mines d ≤ width d * height d - 1) _LEVELS
  ∧ ∀ nm d, get_difficulty nm = Ok d →
            ∃ b, Board_init (width d) (height d) (mines d) = Ok b.
Proof.
  split_and!; try reflexivity.
  - intros key d Hl. apply _LEVELS_lookup in Hl.
    destruct Hl as [-> | [-> | [-> | ->]]]; simpl; lia.
  - intros nm d. unfold get_difficulty.
    destruct (_LEVELS !! normalize_name nm) eqn:Hl; [|done].
    intros [= ->]. apply _LEVELS_lookup in Hl.
    destruct Hl as [-> | [-> | [-> | ->]]]; by eexists.
Qed.

Lemma presets_construct_witness :
  get_difficulty "Too-Hard" = Ok (mkDifficulty "too hard" 30 24 180)
  ∧ ∃ b, Board_init 30 24 180 = Ok b.
Proof.
  split; [reflexivity|].
  apply (proj2 (proj2 presets_construct)
           "Too-Hard"%string (mkDifficulty "too hard" 30 24 180)).
  reflexivity.
Defined.

(** ** The population of the sample and the sample *)

Lemma submseteq_NoDup_l {A : Type} (l k : list A) : l ⊆+ k → NoDup k → NoDup l.
Proof.
  intros [l' Hk]%submseteq_Permutation Hnd. rewrite Hk in Hnd.
  by apply NoDup_app in Hnd as [? _].
Qed.

Lemma elem_of_excluded_zone (b : Board) (sx sy : Z) (c : coord) :
  c ∈ excluded_zone b sx sy ↔ c = (sx, sy) ∨ c ∈ neighbors b sx sy.
Proof.
  unfold excluded_zone.
  rewrite elem_of_union, elem_of_singleton, elem_of_list_to_set. done.
Qed.

Lemma start_not_neighbor (b : Board) (x y : Z) : (x, y) ∉ neighbors b x y.
Proof. rewrite elem_of_neighbors. tauto. Qed.

Lemma length_zone_free (b : Board) (sx sy : Z) :
  wf_board b = true → in_bounds b sx sy = true →
  Z.of_nat (length (filter (λ c, c ∉ excluded_zone b sx sy) (all_coords b)))
  = w b * h b - 1 - Z.of_nat (length (neighbors b sx sy)).
Proof.
  intros [Hw Hh]%wf_board_dims Hb.
  pose proof (length_filter_complement
                (λ c, c ∈ excluded_zone b sx sy) (all_coords b)) as Hc.
  rewrite (length_filter_iff _ (λ c, c ∈ (sx, sy) :: neighbors b sx sy)) in Hc.
  2:{ intros c _. rewrite elem_of_excluded_zone, elem_of_cons. done. }
  rewrite length_filter_elem_of in Hc.
  - pose proof (length_all_coords b) as Hl. simpl in Hc. lia.
  - apply NoDup_cons. split; [apply start_not_neighbor|apply NoDup_neighbors].
  - apply NoDup_all_coords.
  - intros c [->|Hc']%elem_of_cons; apply elem_of_all_coords; [done|].
    by eapply neighbors_in_bounds.
Qed.

Lemma length_filter_ne {A : Type} `{EqDecision A} (l : list A) (a : A) :
  NoDup l → a ∈ l → S (length (filter (λ c, c ≠ a) l)) = length l.
Proof.
  intros Hnd Ha.
  rewrite <- (length_filter_flip (λ c, c ≠ a) (λ _, True) l a); try done.
  - clear. induction l as [|x l IH]; [done|]. rewrite filter_cons_True by done.
    simpl. by rewrite IH.
  - by intros [].
Qed.

Lemma length_all_but_one (b : Board) (sx sy : Z) :
  wf_board b = true → in_bounds b sx sy = true →
  Z.of_nat (length (filter (λ c, c ≠ (sx, sy)) (all_coords b))) = w b * h b - 1.
Proof.
  intros [Hw Hh]%wf_board_dims Hb.
  pose proof (length_filter_ne (all_coords b) (sx, sy) (NoDup_all_coords b)) as Hc.
  pose proof (length_all_coords b ltac:(lia) ltac:(lia)) as Hl.
  assert (Hin : (sx, sy) ∈ all_coords b) by by apply elem_of_all_coords.
  specialize (Hc Hin). rewrite <- Hl, <- Hc. lia.
Qed.

(** The population never holds the clicked cell, has no duplicate, lies on
    the board, and is large enough when the target is valid. *)
Lemma mine_candidates_spec (b : Board) (sx sy : Z) :
  wf_board b = true → in_bounds b sx sy = true →
  NoDup (mine_candidates b sx sy)
  ∧ (∀ c, c ∈ mine_candidates b sx sy →
          in_bounds b c.1 c.2 = true ∧ c ≠ (sx, sy))
  ∧ (mine_target b ≤ w b * h b - 1 →
     mine_target b ≤ Z.of_nat (length (mine_candidates b sx sy)))
  ∧ (mine_target b ≤ w b * h b - 9 →
     ∀ c, c ∈ mine_candidates b sx sy → c ∉ neighbors b sx sy).
Proof.
  intros Hwf Hb. unfold mine_candidates.
  pose proof (length_zone_free b sx sy Hwf Hb) as Hfree.
  pose proof (length_all_but_one b sx sy Hwf Hb) as Hone.
  pose proof (length_neighbors b sx sy) as Hn8.
  destruct (Z.ltb_spec
              (Z.of_nat (length (filter (λ c, c ∉ excluded_zone b sx sy)
                                   (all_coords b))))
              (mine_target b)) as [Hsmall|Hfits].
  - split_and!.
    + apply NoDup_filter, NoDup_all_coords.
    + intros c [Hne Hc]%list_elem_of_filter. by apply elem_of_all_coords in Hc.
    + lia.
    + lia.
  - split_and!.
    + apply NoDup_filter, NoDup_all_coords.
    + intros c [Hne Hc]%list_elem_of_filter. apply elem_of_all_coords in Hc.
      split; [done|]. intros ->. apply Hne, elem_of_excluded_zone. by left.
    + lia.
    + intros _ c [Hne Hc]%list_elem_of_filter Hnb.
      apply Hne, elem_of_excluded_zone. by right.
Qed.

Lemma random_sample_spec {A : Type} (population : list A) (k : Z) (out : list A) :
  NoDup population → random_sample population k out →
  NoDup out ∧ (∀ a, a ∈ out → a ∈ population) ∧ Z.of_nat (length out) = k.
Proof.
  intros Hnd [Hlen Hsub]. split_and!; [|intros a Ha|done].
  - by eapply submseteq_NoDup_l.
  - by eapply elem_of_submseteq.
Qed.

(** A sample exists whenever the population is large enough. *)
Lemma random_sample_exists {A : Type} (population : list A) (k : Z) :
  0 ≤ k ≤ Z.of_nat (length population) →
  random_sample population k (take (Z.to_nat k) population).
Proof.
  intros Hk. split.
  - rewrite length_take. lia.
  - apply sublist_submseteq, sublist_take.
Qed.

(** ** The loops of mine placement *)

Lemma place_mines_loop (b : Board) (l : list coord) (g : list (list Cell)) :
  shaped (w b) (h b) g →
  (∀ c, c ∈ l → in_bounds b c.1 c.2 = true) →
  ∃ g', for_each place_mine g l = Ok g' ∧ shaped (w b) (h b) g'
        ∧ ∀ c, in_bounds b c.1 c.2 = true →
               gcell g' c = if decide (c ∈ l) then set_mine true (gcell g c)
                            else gcell g c.
Proof.
  revert g. induction l as [|a l IH]; intros g Hs Hin; simpl.
  - exists g. by split_and!.
  - assert (Ha : in_bounds b a.1 a.2 = true) by (apply Hin; left).
    apply in_bounds_spec in Ha as [Hx Hy].
    destruct (upd_cell_ok _ _ g a (set_mine true) Hs Hx Hy)
      as (g1 & Hupd & Hs1 & Hc1 & Ho1).
    unfold place_mine at 1. rewrite Hupd. simpl.
    destruct (IH g1 Hs1) as (g' & Hloop & Hs' & Hc').
    { intros c Hc. apply Hin. by right. }
    exists g'. split_and!; [done|done|]. intros c Hb.
    rewrite (Hc' c Hb). apply in_bounds_spec in Hb as [Hcx Hcy].
    destruct (decide (c = a)) as [->|Hne].
    + rewrite Hc1.
      repeat case_decide; try done; exfalso;
        match goal with H : ¬ _ |- _ => apply H end; left.
    + rewrite (Ho1 c Hcx Hcy Hne).
      repeat case_decide; try done; exfalso.
      * match goal with H : ¬ _ |- _ => apply H end. by right.
      * match goal with H : _ ∈ _ :: _ |- _ =>
          apply elem_of_cons in H as [?|?] end; done.
Qed.

Lemma count_mined_ok (b : Board) (g : list (list Cell)) (ns : list coord) :
  shaped (w b) (h b) g →
  (∀ n, n ∈ ns → in_bounds b n.1 n.2 = true) →
  count_mined g ns
  = Ok (Z.of_nat (length (filter (λ n, mine (gcell g n) = true) ns))).
Proof.
  intros Hs. unfold count_mined.
  assert (Hgen : ∀ acc,
    (∀ n, n ∈ ns → in_bounds b n.1 n.2 = true) →
    for_each (λ acc n, do c <- get_cell g n.1 n.2;
                       Ok (if mine c then acc + 1 else acc)) acc ns
    = Ok (acc + Z.of_nat (length (filter (λ n, mine (gcell g n) = true) ns)))).
  { induction ns as [|n ns IH]; intros acc Hin; simpl.
    - f_equal. lia.
    - assert (Hn : in_bounds b n.1 n.2 = true) by (apply Hin; left).
      apply in_bounds_spec in Hn as [Hx Hy].
      rewrite (get_cell_gcell _ _ g n Hs Hx Hy). simpl.
      rewrite IH by (intros; apply Hin; by right).
      rewrite filter_cons.
      destruct (mine (gcell g n)); case_decide; try done; simpl; f_equal; lia. }
  intros Hin. by rewrite Hgen.
Qed.

Lemma adj_pass_mine (b : Board) (g : list (list Cell)) (c : coord) :
  mine (adj_pass b g c) = mine (gcell g c)
  ∧ revealed (adj_pass b g c) = revealed (gcell g c)
  ∧ flagged (adj_pass b g c) = flagged (gcell g c).
Proof.
  unfold adj_pass. destruct (mine (gcell g c)) eqn:Hm; simpl; by rewrite ?Hm.
Qed.

Lemma adj_pass_ext (b : Board) (g g' : list (list Cell)) (c : coord) :
  gcell g' c = gcell g c →
  (∀ n, in_bounds b n.1 n.2 = true → mine (gcell g' n) = mine (gcell g n)) →
  adj_pass b g' c = adj_pass b g c.
Proof.
  intros Hc Hm. unfold adj_pass. rewrite Hc.
  destruct (mine (gcell g c)); [done|]. do 2 f_equal.
  apply length_filter_iff. intros n Hn.
  rewrite Hm; [done|]. by eapply neighbors_in_bounds.
Qed.

Lemma compute_adj_ok (b : Board) (g : list (list Cell)) (a : coord) :
  shaped (w b) (h b) g → in_bounds b a.1 a.2 = true →
  ∃ g1, compute_adj b a.2 g a.1 = Ok g1 ∧ shaped (w b) (h b) g1
        ∧ gcell g1 a = adj_pass b g a
        ∧ ∀ c, in_bounds b c.1 c.2 = true → c ≠ a → gcell g1 c = gcell g c.
Proof.
  intros Hs Hb. pose proof Hb as [Hx Hy]%in_bounds_spec.
  unfold compute_adj, adj_pass.
  rewrite (get_cell_gcell _ _ g a Hs Hx Hy). simpl.
  destruct (mine (gcell g a)) eqn:Hm.
  - exists g. by split_and!.
  - rewrite (count_mined_ok b g) by (done || apply neighbors_in_bounds). simpl.
    destruct (upd_cell_ok _ _ g a
                (set_adj (Z.of_nat (length (filter (λ n, mine (gcell g n) = true)
                                              (neighbors b a.1 a.2)))))
                Hs Hx Hy) as (g1 & Hupd & Hs1 & Hc1 & Ho1).
    exists g1. split_and!; [done|done|done|].
    intros c [? ?]%in_bounds_spec Hne. by apply Ho1.
Qed.

Lemma adj_loop (b : Board) (l : list coord) (g : list (list Cell)) :
  shaped (w b) (h b) g → NoDup l →
  (∀ c, c ∈ l → in_bounds b c.1 c.2 = true) →
  ∃ g', for_each (λ g c, compute_adj b c.2 g c.1) g l = Ok g'
        ∧ shaped (w b) (h b) g'
        ∧ ∀ c, in_bounds b c.1 c.2 = true →
               gcell g' c = if decide (c ∈ l) then adj_pass b g c else gcell g c.
Proof.
  revert g. induction l as [|a l IH]; intros g Hs Hnd Hin; simpl.
  - exists g. by split_and!.
  - apply NoDup_cons in Hnd as [Hal Hnd].
    assert (Ha : in_bounds b a.1 a.2 = true) by (apply Hin; left).
    destruct (compute_adj_ok b g a Hs Ha) as (g1 & Hstep & Hs1 & Hc1 & Ho1).
    rewrite Hstep. simpl.
    destruct (IH g1 Hs1 Hnd) as (g' & Hloop & Hs' & Hc').
    { intros c Hc. apply Hin. by right. }
    exists g'. split_and!; [done|done|]. intros c Hb.
    rewrite (Hc' c Hb).
    assert (Hmines : ∀ n, in_bounds b n.1 n.2 = true →
                          mine (gcell g1 n) = mine (gcell g n)).
    { intros n Hn. destruct (decide (n = a)) as [->|Hne].
      - rewrite Hc1. apply adj_pass_mine.
      - by rewrite Ho1. }
    destruct (decide (c = a)) as [->|Hne].
    + repeat case_decide; try done; exfalso;
        match goal with H : ¬ _ |- _ => apply H end; left.
    + rewrite <- (adj_pass_ext b g g1 c) by (by rewrite ?Ho1).
      rewrite (Ho1 c Hb Hne).
      repeat case_decide; try done; exfalso.
      * match goal with H : ¬ _ |- _ => apply H end. by right.
      * match goal with H : _ ∈ _ :: _ |- _ =>
          apply elem_of_cons in H as [?|?] end; done.
Qed.

Lemma for_each_ext {S A : Type} (body1 body2 : S → A → result S) (s : S)
    (l : list A) :
  (∀ s a, body1 s a = body2 s a) → for_each body1 s l = for_each body2 s l.
Proof.
  intros Hb. revert s. induction l as [|a l IH]; intros s; simpl; [done|].
  rewrite Hb. destruct (body2 s a); simpl; auto.
Qed.

Lemma bind_ret {A : Type} (m : result A) : (do a <- m; Ok a) = m.
Proof. by destruct m. Qed.

(** The two nested [for] loops of the adjacency pass visit [all_coords]. *)
Lemma adj_nested_loop (b : Board) (g : list (list Cell)) :
  for_each (λ g y, for_each (compute_adj b y) g (range (w b))) g (range (h b))
  = for_each (λ g c, compute_adj b c.2 g c.1) g (all_coords b).
Proof.
  unfold all_coords. rewrite for_each_bind. apply for_each_ext.
  intros s y. rewrite for_each_bind. apply for_each_ext.
  intros s' x. simpl. by rewrite bind_ret.
Qed.

Lemma place_mines_excluding_ok (b : Board) (sx sy : Z) (rnd : list coord) :
  wf_board b = true → in_bounds b sx sy = true → valid_target b →
  random_sample (mine_candidates b sx sy) (mine_target b) rnd →
  ∃ b', place_mines_excluding b sx sy rnd = Ok b'
        ∧ wf_board b' = true
        ∧ w b' = w b ∧ h b' = h b ∧ mine_target b' = mine_target b
        ∧ mines_placed b' = true ∧ revealed_count b' = revealed_count b
        ∧ ∀ c, in_bounds b c.1 c.2 = true →
               mine (cell_at b' c)
                 = (if decide (c ∈ rnd) then true else mine (cell_at b c))
               ∧ revealed (cell_at b' c) = revealed (cell_at b c)
               ∧ flagged (cell_at b' c) = flagged (cell_at b c)
               ∧ (mine (cell_at b' c) = false →
                  adj (cell_at b' c) = mined_neighbors b' c).
Proof.
  intros Hwf Hb Hvalid Hsample.
  destruct (mine_candidates_spec b sx sy Hwf Hb) as (Hnd & Hcand & Hlen & _).
  destruct (random_sample_spec _ _ _ Hnd Hsample) as (Hrnd & Hsub & Hk).
  pose proof Hwf as (Hw & Hh & Hs)%wf_board_spec.
  unfold place_mines_excluding.
  destruct Hvalid as [Hpos Hmax]. specialize (Hlen Hmax).
  destruct (Z.leb_spec 0 (mine_target b)); [|lia].
  destruct (Z.leb_spec (mine_target b)
              (Z.of_nat (length (mine_candidates b sx sy)))); [|lia].
  simpl.
  destruct (place_mines_loop b rnd (grid b) Hs) as (g1 & Hl1 & Hs1 & Hc1).
  { intros c Hc. by apply Hcand, Hsub. }
  rewrite Hl1. simpl. rewrite adj_nested_loop.
  destruct (adj_loop b (all_coords b) g1 Hs1 (NoDup_all_coords b))
    as (g2 & Hl2 & Hs2 & Hc2).
  { intros c. by rewrite elem_of_all_coords. }
  rewrite Hl2. simpl. eexists. split; [done|]. simpl.
  split_and!; try done.
  { rewrite wf_board_spec. by simpl. }
  intros c Hc. rewrite mined_neighbors_unfold. unfold cell_at. simpl.
  rewrite (Hc2 c Hc), decide_True by (by apply elem_of_all_coords).
  destruct (adj_pass_mine b g1 c) as (Hm & Hr & Hf).
  rewrite Hm, Hr, Hf, (Hc1 c Hc).
  split_and!.
  - by case_decide.
  - by case_decide.
  - by case_decide.
  - rewrite <- (Hc1 c Hc). intros Hnm. unfold adj_pass. rewrite Hnm. simpl.
    f_equal. apply length_filter_iff. intros n Hn.
    assert (Hnb : in_bounds b n.1 n.2 = true) by by eapply neighbors_in_bounds.
    rewrite (Hc2 n Hnb), decide_True by (by apply elem_of_all_coords).
    by rewrite (proj1 (adj_pass_mine b g1 n)).
Qed.

(** ** Marking one cell revealed *)

Lemma mark_revealed (b : Board) (n : coord) :
  wf_board b = true → in_bounds b n.1 n.2 = true →
  ∃ g', upd_cell (grid b) n.1 n.2 (set_revealed true) = Ok g'
        ∧ reveal_step b n
            (with_revealed_count (with_grid b g') (revealed_count b + 1)).
Proof.
  intros Hwf Hn.
  destruct (upd_cell_at b n (set_revealed true) Hwf Hn)
    as (g' & Hupd & Hwf' & Hc & Ho).
  exists g'. split; [done|]. unfold reveal_step. simpl. by split_and!.
Qed.

Section flood.

Variable b0 : Board.
Variables x0 y0 : Z.
Hypothesis Hwf0 : wf_board b0 = true.
Hypothesis Hstart : in_bounds b0 x0 y0 = true.
Hypothesis Hstart_hidden : revealed (cell_at b0 (x0, y0)) = false.
Hypothesis Hstart_zero : adj (cell_at b0 (x0, y0)) = 0.

Lemma reveal_frame_refl : reveal_frame b0 x0 y0 b0.
Proof.
  unfold reveal_frame, same_but_revealed. split_and!; try done.
  - intros c _ H1 H2. congruence.
  - unfold newly_revealed. rewrite (length_filter_iff _ (λ _, False)).
    + assert (Hnil : ∀ l : list coord, filter (λ _, False) l = []).
      { induction l as [|a l IH]; [done|]. rewrite filter_cons_False; tauto. }
      rewrite Hnil. simpl. lia.
    + intros c _. split; [|done]. intros [H1 H2]. congruence.
Qed.

Lemma in_bounds_frame (b : Board) (x y : Z) :
  reveal_frame b0 x0 y0 b → in_bounds b x y = in_bounds b0 x y.
Proof.
  intros (_ & (Hw & Hh & _) & _). unfold in_bounds. by rewrite Hw, Hh.
Qed.

Lemma neighbors_frame (b : Board) (x y : Z) :
  reveal_frame b0 x0 y0 b → neighbors b x y = neighbors b0 x y.
Proof.
  intros (_ & (Hw & Hh & _) & _). by apply neighbors_same_dims.
Qed.

(** Marking a hidden cell of the region keeps the frame, adds one to the
    newly revealed cells and removes one from the hidden ones. *)
Lemma reveal_frame_step (b b' : Board) (n : coord) :
  reveal_frame b0 x0 y0 b → in_bounds b0 n.1 n.2 = true →
  revealed (cell_at b n) = false → flood_region b0 x0 y0 n →
  reveal_step b n b' →
  reveal_frame b0 x0 y0 b'
  ∧ S (unrevealed b0 b') = unrevealed b0 b
  ∧ revealed (cell_at b' n) = true
  ∧ (∀ c, in_bounds b0 c.1 c.2 = true →
          revealed (cell_at b c) = true → revealed (cell_at b' c) = true).
Proof.
  intros Hfr Hn Hhid Hreg (Hwf' & Hw & Hh & Ht & Hp & Hcnt & Hcn & Hco).
  pose proof (in_bounds_frame b) as Hib.
  destruct Hfr as (Hwf & (Hw0 & Hh0 & Ht0 & Hp0 & Hsame) & Hmono & Hin & Hcount).
  assert (Hcell : ∀ c, in_bounds b0 c.1 c.2 = true →
            cell_at b' c = if decide (c = n) then set_revealed true (cell_at b c)
                           else cell_at b c).
  { intros c Hc. case_decide as Hd; [by subst|].
    apply Hco; [|done]. unfold in_bounds. rewrite Hw0, Hh0. exact Hc. }
  assert (Hn0 : revealed (cell_at b0 n) = false).
  { destruct (revealed (cell_at b0 n)) eqn:E; [|done].
    rewrite (Hmono n Hn E) in Hhid. done. }
  assert (Hnin : n ∈ all_coords b0) by by apply elem_of_all_coords.
  split_and!.
  - unfold reveal_frame, same_but_revealed. split_and!; try congruence.
    + intros c Hc. rewrite (Hcell c Hc).
      destruct (Hsame c Hc) as (? & ? & ?). by case_decide.
    + intros c Hc Hr. rewrite (Hcell c Hc). case_decide; [done|]. by apply Hmono.
    + intros c Hc Hr0. rewrite (Hcell c Hc). case_decide; [by subst|].
      by apply Hin.
    + rewrite Hcnt, Hcount. unfold newly_revealed.
      rewrite (length_filter_flip
                 (λ c, revealed (cell_at b0 c) = false
                       ∧ revealed (cell_at b c) = true)
                 (λ c, revealed (cell_at b0 c) = false
                       ∧ revealed (cell_at b' c) = true)
                 (all_coords b0) n); try done.
      * lia.
      * apply NoDup_all_coords.
      * intros [_ H]. congruence.
      * by rewrite Hcn.
      * intros c Hc Hne. apply elem_of_all_coords in Hc.
        rewrite (Hcell c Hc). by rewrite decide_False.
  - unfold unrevealed. symmetry.
    apply (length_filter_flip
             (λ c, revealed (cell_at b' c) = false)
             (λ c, revealed (cell_at b c) = false)
             (all_coords b0) n); try done.
    + apply NoDup_all_coords.
    + by rewrite Hcn.
    + intros c Hc Hne. apply elem_of_all_coords in Hc.
      rewrite (Hcell c Hc). by rewrite decide_False.
  - by rewrite Hcn.
  - intros c Hc Hr. rewrite (Hcell c Hc). by case_decide.
Qed.

Lemma region_hidden (c : coord) :
  flood_region b0 x0 y0 c →
  in_bounds b0 c.1 c.2 = true ∧ revealed (cell_at b0 c) = false.
Proof.
  induction 1 as [|c n _ _ _ Hn Hr _ _]; [done|].
  rewrite <- neighbors_moore in Hn.
  split; [by eapply neighbors_in_bounds|done].
Qed.

Lemma closed_cell_mono (b b' : Board) (c : coord) :
  in_bounds b0 c.1 c.2 = true →
  (∀ m, in_bounds b0 m.1 m.2 = true →
        revealed (cell_at b m) = true → revealed (cell_at b' m) = true) →
  closed_cell b0 b c → closed_cell b0 b' c.
Proof.
  intros Hc Hmono Hcl n Hn He. apply Hmono; [|by apply Hcl].
  by eapply neighbors_in_bounds.
Qed.

(** The body of the [for] loop keeps the inner invariant. *)
Lemma flood_neighbor_step (c : coord) (bound : nat) (pre : list coord)
    (st : Flood) (n : coord) :
  flood_region b0 x0 y0 c → adj (cell_at b0 c) = 0 →
  n ∈ neighbors b0 c.1 c.2 →
  flood_inner b0 x0 y0 c bound pre st →
  ∃ st', flood_neighbor st n = Ok st'
         ∧ flood_inner b0 x0 y0 c bound (pre ++ [n]) st'.
Proof.
  intros Hreg Hzero Hn ((Hfr & Hst & Hstack & Hclosed & Hnd & Hpushed) & Hpre & Hm).
  set (b := fl_board st) in *.
  pose proof (neighbors_in_bounds _ _ _ _ Hn) as Hnb.
  pose proof Hfr as (Hwf & (Hw & Hh & Ht & Hp & Hsame) & Hmono & Hin & Hcount).
  assert (Hnb' : in_bounds b n.1 n.2 = true) by by rewrite (in_bounds_frame b).
  destruct (Hsame n Hnb) as (Hmine & Hflag & Hadj).
  unfold flood_neighbor. fold b. rewrite (get_cell_at b n Hwf Hnb'). simpl.
  destruct (revealed (cell_at b n)) eqn:Hrev; simpl.
  { exists st. split; [done|]. split_and!; try done.
    intros m [Hm'| ->%list_elem_of_singleton]%elem_of_app Hmb He;
      [by apply Hpre|done]. }
  destruct (flagged (cell_at b n)) eqn:Hfl; simpl.
  { exists st. split; [done|]. split_and!; try done.
    intros m [Hm'| ->%list_elem_of_singleton]%elem_of_app Hmb He;
      [by apply Hpre|].
    destruct He as (_ & He & _). congruence. }
  destruct (mine (cell_at b n)) eqn:Hmi; simpl.
  { exists st. split; [done|]. split_and!; try done.
    intros m [Hm'| ->%list_elem_of_singleton]%elem_of_app Hmb He;
      [by apply Hpre|].
    destruct He as (_ & _ & He). congruence. }
  destruct (mark_revealed b n Hwf Hnb') as (g' & Hupd & Hstep).
  rewrite Hupd. simpl.
  set (b' := with_revealed_count (with_grid b g') (revealed_count b + 1)) in *.
  assert (Hn0 : revealed (cell_at b0 n) = false).
  { destruct (revealed (cell_at b0 n)) eqn:E; [|done].
    rewrite (Hmono n Hnb E) in Hrev. done. }
  assert (Hregn : flood_region b0 x0 y0 n).
  { apply (region_step_neighbors b0 x0 y0 c n); try done; congruence. }
  destruct (reveal_frame_step b b' n Hfr Hnb Hrev Hregn Hstep)
    as (Hfr' & Hunrev & Hrevn & Hmono').
  destruct Hstep as (_ & _ & _ & _ & _ & _ & _ & Hother).
  assert (Hback : ∀ m, in_bounds b0 m.1 m.2 = true → m ≠ n →
            revealed (cell_at b' m) = true → revealed (cell_at b m) = true).
  { intros m Hmb Hne. rewrite Hother; [done| |done].
    by rewrite (in_bounds_frame b). }
  assert (Hfresh : n ∉ fl_pushed st).
  { intros Hin'. destruct (Hpushed n Hin') as (_ & _ & Hr). congruence. }
  assert (Hpre' : ∀ m, m ∈ pre ++ [n] → in_bounds b0 m.1 m.2 = true →
                       eligible b0 m → revealed (cell_at b' m) = true).
  { intros m [Hm'| ->%list_elem_of_singleton]%elem_of_app Hmb He; [|done].
    apply Hmono'; [done|by apply Hpre]. }
  assert (Hpush_old : ∀ m, m ∈ fl_pushed st →
            in_bounds b0 m.1 m.2 = true ∧ revealed (cell_at b0 m) = false
            ∧ revealed (cell_at b' m) = true).
  { intros m Hm'. destruct (Hpushed m Hm') as (? & ? & ?).
    split_and!; [done|done|]. by apply Hmono'. }
  destruct (adj (cell_at b n) =? 0) eqn:Hadjn.
  - apply Z.eqb_eq in Hadjn.
    eexists. split; [done|]. unfold flood_inner, flood_inv. simpl.
    split_and!; try done.
    + by apply Hmono'.
    + intros m [->|Hm']%elem_of_cons; [|by apply Hstack].
      split_and!; [done|done|congruence].
    + intros m Hmb Hm0 Hmr Hma.
      destruct (decide (m = n)) as [->|Hne]; [left; left|].
      destruct (Hclosed m Hmb Hm0 (Hback m Hmb Hne Hmr) Hma) as [?|[?|?]].
      * left. by right.
      * right. left. by apply (closed_cell_mono b b').
      * right. by right.
    + apply NoDup_cons. by split.
    + intros m [->|Hm']%elem_of_cons; [done|by apply Hpush_old].
    + lia.
  - apply Z.eqb_neq in Hadjn.
    eexists. split; [done|]. unfold flood_inner, flood_inv. simpl.
    split_and!; try done.
    + by apply Hmono'.
    + intros m Hmb Hm0 Hmr Hma.
      destruct (decide (m = n)) as [->|Hne]; [congruence|].
      destruct (Hclosed m Hmb Hm0 (Hback m Hmb Hne Hmr) Hma) as [?|[?|?]].
      * by left.
      * right. left. by apply (closed_cell_mono b b').
      * right. by right.
    + lia.
Qed.

(** One iteration of the [while] loop keeps the invariant and decreases the
    length of the stack plus the number of hidden cells. *)
Lemma flood_iteration (st : Flood) (c : coord) (rest : list coord) :
  flood_inv b0 x0 y0 None st → fl_stack st = c :: rest →
  ∃ st', for_each flood_neighbor
           (mkFlood (fl_board st) rest (fl_visited st) (fl_pushed st))
           (neighbors (fl_board st) c.1 c.2) = Ok st'
         ∧ flood_inv b0 x0 y0 None st'
         ∧ (length (fl_stack st') + unrevealed b0 (fl_board st')
            < length (fl_stack st) + unrevealed b0 (fl_board st))%nat.
Proof.
  intros (Hfr & Hst & Hstack & Hclosed & Hnd & Hpushed) Hs.
  rewrite Hs in Hstack, Hclosed.
  destruct (Hstack c) as (Hcb & Hcreg & Hczero); [left|].
  rewrite (neighbors_frame _ _ _ Hfr).
  destruct (for_each_inv flood_neighbor
              (flood_inner b0 x0 y0 c (length rest + unrevealed b0 (fl_board st)))
              (neighbors b0 c.1 c.2)
              (mkFlood (fl_board st) rest (fl_visited st) (fl_pushed st)))
    as (st' & Hloop & (Hinv' & Hpre' & Hm')).
  - unfold flood_inner, flood_inv. simpl. split_and!; try done.
    + intros m Hm. apply Hstack. by right.
    + intros m Hmb Hm0 Hmr Hma.
      destruct (Hclosed m Hmb Hm0 Hmr Hma) as [[->|?]%elem_of_cons|[?|?]];
        [by right; right | by left | by right; left | done].
    + intros m Hm. by apply elem_of_nil in Hm.
  - intros pre a post s Hl HJ.
    apply flood_neighbor_step; try done.
    rewrite Hl, elem_of_app, elem_of_cons. auto.
  - exists st'. split; [done|]. split.
    + destruct Hinv' as (Hfr' & Hst' & Hstack' & Hclosed' & Hnd' & Hpushed').
      unfold flood_inv. split_and!; try done.
      intros m Hmb Hm0 Hmr Hma.
      destruct (Hclosed' m Hmb Hm0 Hmr Hma) as [?|[?|[= ->]]];
        [by left | by right; left | ].
      right. left. intros n Hn He. apply Hpre'; [done| |done].
      by eapply neighbors_in_bounds.
    + rewrite Hs. simpl. lia.
Qed.

Lemma flood_loop_done (fuel : nat) (st : Flood) :
  fl_stack st = [] → flood_loop fuel st = Ok st.
Proof. intros Hs. destruct fuel; simpl; by rewrite Hs. Qed.

(** The [while] loop ends within as many iterations as the stack is long
    plus the number of hidden cells, whatever larger budget it is given. *)
Lemma flood_loop_ok (bound : nat) (st : Flood) :
  flood_inv b0 x0 y0 None st →
  (length (fl_stack st) + unrevealed b0 (fl_board st) ≤ bound)%nat →
  ∃ st', (∀ fuel, (bound ≤ fuel)%nat → flood_loop fuel st = Ok st')
         ∧ flood_inv b0 x0 y0 None st' ∧ fl_stack st' = [].
Proof.
  revert st. induction bound as [|bound IH]; intros st Hinv Hm.
  - exists st. assert (Hs : fl_stack st = []).
    { destruct (fl_stack st); [done|simpl in Hm; lia]. }
    split_and!; [|done|done]. intros fuel _. by apply flood_loop_done.
  - destruct (fl_stack st) as [|c rest] eqn:Hs.
    + exists st. split_and!; [|done|done]. intros fuel _. by apply flood_loop_done.
    + destruct (flood_iteration st c rest Hinv Hs) as (st1 & Hit & Hinv1 & Hlt).
      destruct (IH st1 Hinv1) as (st' & Hrun & Hinv' & Hs').
      { rewrite Hs in Hlt. simpl in *. lia. }
      exists st'. split_and!; [|done|done].
      intros [|fuel] Hf; [lia|]. simpl. rewrite Hs, Hit. simpl.
      apply Hrun. lia.
Qed.

Lemma unrevealed_le (b : Board) :
  (Z.of_nat (unrevealed b0 b) ≤ w b0 * h b0)%Z.
Proof.
  pose proof Hwf0 as [Hw Hh]%wf_board_dims.
  rewrite <- (length_all_coords b0) by lia. unfold unrevealed.
  apply inj_le, length_filter.
Qed.

(** The flood fill from the start cell, once that cell is marked. *)
Lemma flood_fill_ok (b1 : Board) :
  reveal_step b0 (x0, y0) b1 →
  ∃ st, (∀ fuel, (Z.to_nat (w b0 * h b0) ≤ fuel)%nat →
                 flood_fill fuel b1 x0 y0 = Ok st)
        ∧ fl_stack st = []
        ∧ reveal_frame b0 x0 y0 (fl_board st)
        ∧ (∀ c, flood_region b0 x0 y0 c → revealed (cell_at (fl_board st) c) = true)
        ∧ NoDup (fl_pushed st)
        ∧ (∀ c, c ∈ fl_pushed st →
                in_bounds b0 c.1 c.2 = true ∧ revealed (cell_at b0 c) = false
                ∧ revealed (cell_at (fl_board st) c) = true)
        ∧ Z.of_nat (length (fl_pushed st)) ≤ w b0 * h b0.
Proof.
  intros Hstep.
  destruct (reveal_frame_step b0 b1 (x0, y0)
              reveal_frame_refl Hstart Hstart_hidden
              (region_start b0 x0 y0) Hstep)
    as (Hfr1 & Hunrev & Hrev1 & Hmono1).
  assert (Hinv : flood_inv b0 x0 y0 None
                   (mkFlood b1 [(x0, y0)] {[ (x0, y0) ]} [(x0, y0)])).
  { unfold flood_inv. simpl. split_and!; try done.
    - intros c ->%list_elem_of_singleton. split_and!; [done|constructor|done].
    - intros c Hcb Hc0 Hcr Hca. left. apply list_elem_of_singleton.
      destruct (decide (c = (x0, y0))) as [->|Hne]; [done|].
      destruct Hstep as (_ & _ & _ & _ & _ & _ & _ & Hother).
      rewrite Hother in Hcr by done. congruence.
    - apply NoDup_singleton.
    - intros c ->%list_elem_of_singleton. by split_and!. }
  destruct (flood_loop_ok (Z.to_nat (w b0 * h b0)) _ Hinv)
    as (st & Hrun & Hinv' & Hs).
  { simpl. pose proof (unrevealed_le b0). lia. }
  exists st. destruct Hinv' as (Hfr & Hst & Hstack & Hclosed & Hnd & Hpushed).
  split_and!; try done.
  - intros c Hreg. induction Hreg as [|c n Hreg IH Hzero Hn Hr Hf Hm]; [done|].
    rewrite <- neighbors_moore in Hn.
    destruct (region_hidden c Hreg) as [Hcb Hc0].
    destruct (Hclosed c Hcb Hc0 IH Hzero) as [Hin|[Hcl|?]]; [|by apply Hcl|done].
    rewrite Hs in Hin. by apply elem_of_nil in Hin.
  - pose proof Hwf0 as [Hw Hh]%wf_board_dims.
    rewrite <- (length_all_coords b0) by lia.
    apply inj_le, submseteq_length, NoDup_submseteq; [done|].
    intros c Hc. apply elem_of_all_coords. by apply Hpushed.
Qed.

End flood.

(** ** Reveal *)

Lemma get_cell_xy (b : Board) (x y : Z) :
  wf_board b = true → in_bounds b x y = true →
  get_cell (grid b) x y = Ok (cell_at b (x, y)).
Proof. intros Hwf Hb. apply (get_cell_at b (x, y) Hwf Hb). Qed.

Lemma reveal_fuel_out (fuel : nat) (b : Board) (x y : Z) (rnd : list coord) :
  in_bounds b x y = false → reveal_fuel fuel b x y rnd = Ok (b, (false, false)).
Proof. intros Hb. unfold reveal_fuel. by rewrite Hb. Qed.

Lemma reveal_fuel_flagged (fuel : nat) (b : Board) (x y : Z) (rnd : list coord) :
  wf_board b = true → in_bounds b x y = true →
  flagged (cell_at b (x, y)) = true →
  reveal_fuel fuel b x y rnd = Ok (b, (false, false)).
Proof.
  intros Hwf Hb Hf. unfold reveal_fuel. rewrite Hb. simpl.
  rewrite (get_cell_xy b x y Hwf Hb). simpl. by rewrite Hf.
Qed.

Lemma reveal_fuel_revealed (fuel : nat) (b : Board) (x y : Z) (rnd : list coord) :
  wf_board b = true → in_bounds b x y = true →
  flagged (cell_at b (x, y)) = false → revealed (cell_at b (x, y)) = true →
  reveal_fuel fuel b x y rnd = Ok (b, (true, false)).
Proof.
  intros Hwf Hb Hf Hr. unfold reveal_fuel. rewrite Hb. simpl.
  rewrite (get_cell_xy b x y Hwf Hb). simpl. by rewrite Hf, Hr.
Qed.

Lemma reveal_fuel_hidden (fuel : nat) (b : Board) (x y : Z) (rnd : list coord) :
  wf_board b = true → in_bounds b x y = true →
  flagged (cell_at b (x, y)) = false → revealed (cell_at b (x, y)) = false →
  reveal_fuel fuel b x y rnd
  = do b1 <- (if negb (mines_placed b)
              then place_mines_excluding b x y rnd else Ok b);
    reveal_marked fuel b1 x y.
Proof.
  intros Hwf Hb Hf Hr. unfold reveal_fuel. rewrite Hb. simpl.
  rewrite (get_cell_xy b x y Hwf Hb). simpl. by rewrite Hf, Hr.
Qed.

Lemma reveal_marked_ok (b1 : Board) (x y : Z) :
  wf_board b1 = true → in_bounds b1 x y = true →
  revealed (cell_at b1 (x, y)) = false →
  ∃ b', (∀ fuel, (Z.to_nat (w b1 * h b1) ≤ fuel)%nat →
           reveal_marked fuel b1 x y = Ok (b', (true, mine (cell_at b1 (x, y)))))
        ∧ reveal_frame b1 x y b'
        ∧ revealed (cell_at b' (x, y)) = true
        ∧ (mine (cell_at b1 (x, y)) = true ∨ adj (cell_at b1 (x, y)) ≠ 0 →
           reveal_step b1 (x, y) b')
        ∧ (mine (cell_at b1 (x, y)) = false → adj (cell_at b1 (x, y)) = 0 →
           ∀ c, flood_region b1 x y c → revealed (cell_at b' c) = true).
Proof.
  intros Hwf Hb Hhid.
  destruct (mark_revealed b1 (x, y) Hwf Hb) as (g2 & Hupd & Hstep).
  set (b2 := with_revealed_count (with_grid b1 g2) (revealed_count b1 + 1)) in *.
  destruct (reveal_frame_step b1 x y b1 b2 (x, y)
              (reveal_frame_refl b1 x y Hwf) Hb Hhid
              (region_start b1 x y) Hstep)
    as (Hfr2 & _ & Hrev2 & _).
  pose proof Hstep as (Hwf2 & Hw2 & Hh2 & _ & _ & _ & Hcell2 & _).
  assert (Hget2 : get_cell g2 x y = Ok (cell_at b2 (x, y))).
  { apply (get_cell_xy b2 x y Hwf2). unfold in_bounds in *.
    by rewrite Hw2, Hh2. }
  unfold reveal_marked. simpl in Hupd. rewrite Hupd. simpl. fold b2.
  rewrite Hget2. simpl. rewrite Hcell2. simpl.
  destruct (mine (cell_at b1 (x, y))) eqn:Hmine.
  { exists b2. split_and!; try done. }
  destruct (Z.eqb_spec (adj (cell_at b1 (x, y))) 0) as [Hzero|Hnz].
  - destruct (flood_fill_ok b1 x y Hwf Hb Hhid Hzero b2 Hstep)
      as (st & Hrun & _ & Hfr & Hreg & _).
    exists (fl_board st). split_and!; try done.
    + intros fuel Hfuel. by rewrite (Hrun fuel Hfuel).
    + apply Hreg. constructor.
    + intros [?|?]; done.
  - exists b2. split_and!; try done.
Qed.

Lemma placed_ok (b : Board) (x y : Z) (rnd : list coord) :
  board_inv b → in_bounds b x y = true →
  (mines_placed b = false →
   random_sample (mine_candidates b x y) (mine_target b) rnd) →
  ∃ b1, placed b x y rnd b1
        ∧ (if negb (mines_placed b) then place_mines_excluding b x y rnd
           else Ok b) = Ok b1
        ∧ wf_board b1 = true ∧ mines_placed b1 = true
        ∧ w b1 = w b ∧ h b1 = h b ∧ mine_target b1 = mine_target b
        ∧ revealed_count b1 = revealed_count b
        ∧ ∀ c, in_bounds b c.1 c.2 = true →
               revealed (cell_at b1 c) = revealed (cell_at b c)
               ∧ flagged (cell_at b1 c) = flagged (cell_at b c).
Proof.
  intros (Hwf & Hvalid & Hfresh) Hb Hrnd. unfold placed.
  destruct (mines_placed b) eqn:Hp; simpl.
  - exists b. by split_and!.
  - destruct (place_mines_excluding_ok b x y rnd Hwf Hb Hvalid (Hrnd eq_refl))
      as (b1 & Hplace & Hwf1 & Hw & Hh & Ht & Hp1 & Hc1 & Hcells).
    exists b1. split_and!; try done.
    intros c Hc. destruct (Hcells c Hc) as (_ & ? & ? & _). done.
Qed.

(** Revealing a hidden cell that is not flagged. *)
Lemma reveal_hidden_ok (b : Board) (x y : Z) (rnd : list coord) :
  board_inv b → in_bounds b x y = true →
  (mines_placed b = false →
   random_sample (mine_candidates b x y) (mine_target b) rnd) →
  flagged (cell_at b (x, y)) = false → revealed (cell_at b (x, y)) = false →
  ∃ b1 b',
    placed b x y rnd b1
    ∧ (∀ fuel, (Z.to_nat (w b * h b) ≤ fuel)%nat →
         reveal_fuel fuel b x y rnd = Ok (b', (true, mine (cell_at b1 (x, y)))))
    ∧ wf_board b1 = true ∧ mines_placed b1 = true
    ∧ w b1 = w b ∧ h b1 = h b ∧ mine_target b1 = mine_target b
    ∧ revealed_count b1 = revealed_count b
    ∧ (∀ c, in_bounds b c.1 c.2 = true →
            revealed (cell_at b1 c) = revealed (cell_at b c)
            ∧ flagged (cell_at b1 c) = flagged (cell_at b c))
    ∧ reveal_frame b1 x y b'
    ∧ revealed (cell_at b' (x, y)) = true
    ∧ (mine (cell_at b1 (x, y)) = true ∨ adj (cell_at b1 (x, y)) ≠ 0 →
       reveal_step b1 (x, y) b')
    ∧ (mine (cell_at b1 (x, y)) = false → adj (cell_at b1 (x, y)) = 0 →
       ∀ c, flood_region b1 x y c → revealed (cell_at b' c) = true).
Proof.
  intros Hinv Hb Hrnd Hf Hr. pose proof Hinv as (Hwf & _).
  destruct (placed_ok b x y rnd Hinv Hb Hrnd)
    as (b1 & Hpl & Hrun1 & Hwf1 & Hp1 & Hw & Hh & Ht & Hc & Hcells).
  assert (Hb1 : in_bounds b1 x y = true).
  { unfold in_bounds in *. by rewrite Hw, Hh. }
  assert (Hr1 : revealed (cell_at b1 (x, y)) = false).
  { destruct (Hcells (x, y) Hb) as [-> _]. done. }
  destruct (reveal_marked_ok b1 x y Hwf1 Hb1 Hr1)
    as (b' & Hrun & Hfr & Hrev & Hsingle & Hflood).
  exists b1, b'. split_and!; try done.
  intros fuel Hfuel. rewrite (reveal_fuel_hidden fuel b x y rnd Hwf Hb Hf Hr).
  rewrite Hrun1. simpl. apply Hrun. by rewrite Hw, Hh.
Qed.

(** ** Toggling a flag *)

Lemma toggle_flag_out (b : Board) (x y : Z) :
  in_bounds b x y = false → toggle_flag b x y = Ok (b, false).
Proof. intros Hb. unfold toggle_flag. by rewrite Hb. Qed.

Lemma toggle_flag_revealed (b : Board) (x y : Z) :
  wf_board b = true → in_bounds b x y = true →
  revealed (cell_at b (x, y)) = true → toggle_flag b x y = Ok (b, false).
Proof.
  intros Hwf Hb Hr. unfold toggle_flag. rewrite Hb. simpl.
  rewrite (get_cell_xy b x y Hwf Hb). simpl. by rewrite Hr.
Qed.

Lemma toggle_flag_hidden (b : Board) (x y : Z) :
  wf_board b = true → in_bounds b x y = true →
  revealed (cell_at b (x, y)) = false →
  ∃ b', toggle_flag b x y = Ok (b', true)
        ∧ wf_board b' = true
        ∧ w b' = w b ∧ h b' = h b ∧ mine_target b' = mine_target b
        ∧ mines_placed b' = mines_placed b
        ∧ revealed_count b' = revealed_count b
        ∧ cell_at b' (x, y)
          = set_flagged (negb (flagged (cell_at b (x, y)))) (cell_at b (x, y))
        ∧ ∀ c, in_bounds b c.1 c.2 = true → c ≠ (x, y) →
               cell_at b' c = cell_at b c.
Proof.
  intros Hwf Hb Hr. unfold toggle_flag. rewrite Hb. simpl.
  rewrite (get_cell_xy b x y Hwf Hb). simpl. rewrite Hr.
  destruct (upd_cell_at b (x, y) (λ c, set_flagged (negb (flagged c)) c) Hwf Hb)
    as (g' & Hupd & Hwf' & Hc & Ho).
  simpl in Hupd. rewrite Hupd. simpl. eexists. split; [done|].
  by split_and!.
Qed.

(** ** Reachable boards *)

Lemma board_inv_init (width height mines : Z) (b : Board) :
  Board_init width height mines = Ok b → board_inv b.
Proof.
  intros Hinit. split_and!.
  - by eapply fresh_board_wf.
  - apply Board_init_Ok in Hinit as (? & ? & ? & ->). unfold valid_target.
    simpl. lia.
  - intros _ c Hc. by rewrite (fresh_board_cell _ _ _ _ c Hinit Hc).
Qed.

Lemma board_inv_toggle_flag (b b' : Board) (x y : Z) (r : bool) :
  board_inv b → toggle_flag b x y = Ok (b', r) → board_inv b'.
Proof.
  intros Hinv Htf. pose proof Hinv as (Hwf & Hvalid & Hfresh).
  destruct (in_bounds b x y) eqn:Hb.
  2:{ rewrite toggle_flag_out in Htf by done. by inversion Htf; subst. }
  destruct (revealed (cell_at b (x, y))) eqn:Hr.
  { rewrite toggle_flag_revealed in Htf by done. by inversion Htf; subst. }
  destruct (toggle_flag_hidden b x y Hwf Hb Hr)
    as (b2 & Htf2 & Hwf2 & Hw & Hh & Ht & Hp & _ & Hc & Ho).
  rewrite Htf2 in Htf. inversion Htf; subst b2 r. clear Htf.
  split_and!; [done| |].
  - unfold valid_target. by rewrite Hw, Hh, Ht.
  - rewrite Hp. intros Hnp c Hcb.
    assert (Hcb' : in_bounds b c.1 c.2 = true).
    { unfold in_bounds in *. by rewrite <- Hw, <- Hh. }
    destruct (Hfresh Hnp c Hcb') as [Hm Hrv].
    destruct (decide (c = (x, y))) as [->|Hne].
    + rewrite Hc. simpl. done.
    + by rewrite Ho.
Qed.

Lemma board_inv_reveal (b b' : Board) (x y : Z) (rnd : list coord)
    (r : bool * bool) :
  board_inv b →
  (mines_placed b = false →
   random_sample (mine_candidates b x y) (mine_target b) rnd) →
  reveal b x y rnd = Ok (b', r) → board_inv b'.
Proof.
  intros Hinv Hrnd Hrev. pose proof Hinv as (Hwf & Hvalid & Hfresh).
  unfold reveal in Hrev.
  destruct (in_bounds b x y) eqn:Hb.
  2:{ rewrite reveal_fuel_out in Hrev by done. by inversion Hrev; subst. }
  destruct (flagged (cell_at b (x, y))) eqn:Hf.
  { rewrite reveal_fuel_flagged in Hrev by done. by inversion Hrev; subst. }
  destruct (revealed (cell_at b (x, y))) eqn:Hr.
  { rewrite reveal_fuel_revealed in Hrev by done. by inversion Hrev; subst. }
  destruct (reveal_hidden_ok b x y rnd Hinv Hb Hrnd Hf Hr)
    as (b1 & b2 & _ & Hrun & _ & Hp1 & Hw & Hh & Ht & _ & _ & Hfr & _).
  rewrite Hrun in Hrev by lia. inversion Hrev; subst b2 r. clear Hrev.
  destruct Hfr as (Hwf' & (Hw' & Hh' & Ht' & Hp' & _) & _).
  split_and!; [done| |].
  - unfold valid_target. by rewrite Hw', Hh', Ht', Hw, Hh, Ht.
  - rewrite Hp', Hp1. done.
Qed.

Lemma reachable_inv (b : Board) : reachable b → board_inv b.
Proof.
  induction 1 as [width height mines b Hinit
                 | b b' x y rnd r _ IH Hrnd Hrev
                 | b b' x y r _ IH Htf].
  - by eapply board_inv_init.
  - by eapply board_inv_reveal.
  - by eapply board_inv_toggle_flag.
Qed.

(** ** The example games are reachable *)

Lemma ex_fresh_reachable : reachable ex_fresh.
Proof. by apply (reach_init 3 3 1). Qed.

Lemma ex_flagged_reachable : reachable ex_flagged.
Proof. by apply (reach_toggle_flag ex_fresh _ 0 0 true ex_fresh_reachable). Qed.

Lemma ex_played_reachable : reachable ex_played.
Proof.
  apply (reach_reveal ex_flagged _ 2 2 [(0, 0)] (true, false)
           ex_flagged_reachable); [|done].
  intros _. split; [done|]. by apply (bool_decide_unpack _).
Qed.

Lemma ex_small_reachable : reachable ex_small.
Proof. by apply (reach_init 2 2 1). Qed.

Lemma ex_small_1_reachable : reachable ex_small_1.
Proof.
  apply (reach_reveal ex_small _ 0 0 [(1, 1)] (true, false)
           ex_small_reachable); [|done].
  intros _. split; [done|]. by apply (bool_decide_unpack _).
Qed.

Lemma ex_small_2_reachable : reachable ex_small_2.
Proof.
  apply (reach_reveal ex_small_1 _ 1 0 [] (true, false)
           ex_small_1_reachable); [|done].
  intros [=].
Qed.

Lemma ex_tiny_reachable : reachable ex_tiny.
Proof. by apply (reach_init 2 2 3). Qed.

(** ** Rejected and repeated moves *)

(** C5. On a reachable board, [reveal] on a flagged cell and both [reveal]
    and [toggle_flag] out of bounds return the rejection value, and
    [toggle_flag] on a revealed cell returns [False]; in each case the board
    returned is the board given: no cell, [mines_placed] or
    [revealed_count] changes, and no mine is placed. *)
Theorem rejected_moves_change_nothing (b : Board) (x y : Z) (rnd : list coord) :
  reachable b →
  (in_bounds b x y = false →
   reveal b x y rnd = Ok (b, (false, false))
   ∧ toggle_flag b x y = Ok (b, false))
  ∧ (in_bounds b x y = true → flagged (cell_at b (x, y)) = true →
     reveal b x y rnd = Ok (b, (false, false)))
  ∧ (in_bounds b x y = true → revealed (cell_at b (x, y)) = true →
     toggle_flag b x y = Ok (b, false)).
Proof.
  intros (Hwf & _)%reachable_inv. split_and!.
  - intros Hb. split; [by apply reveal_fuel_out|by apply toggle_flag_out].
  - intros Hb Hf. by apply reveal_fuel_flagged.
  - intros Hb Hr. by apply toggle_flag_revealed.
Qed.

Lemma rejected_moves_change_nothing_witness :
  (reveal ex_played 3 0 [] = Ok (ex_played, (false, false))
   ∧ toggle_flag ex_played 3 0 = Ok (ex_played, false))
  ∧ reveal ex_played 0 0 [] = Ok (ex_played, (false, false))
  ∧ toggle_flag ex_played 2 2 = Ok (ex_played, false)
  ∧ reveal ex_flagged 0 0 [(2, 2)] = Ok (ex_flagged, (false, false)).
Proof.
  split; [|split; [|split]].
  - apply (proj1 (rejected_moves_change_nothing ex_played 3 0 []
                    ex_played_reachable)). reflexivity.
  - apply (proj1 (proj2 (rejected_moves_change_nothing ex_played 0 0 []
                           ex_played_reachable))); reflexivity.
  - apply (proj2 (proj2 (rejected_moves_change_nothing ex_played 2 2 []
                           ex_played_reachable))); reflexivity.
  - apply (proj1 (proj2 (rejected_moves_change_nothing ex_flagged 0 0 [(2, 2)]
                           ex_flagged_reachable))); reflexivity.
Defined.

(** C6. On a reachable board, [reveal] on a cell that is revealed and not
    flagged returns [(True, False)] and the board given: nothing changes,
    no flood fill runs and no mine is placed. *)
Theorem reveal_idempotent (b : Board) (x y : Z) (rnd : list coord) :
  reachable b → in_bounds b x y = true →
  revealed (cell_at b (x, y)) = true → flagged (cell_at b (x, y)) = false →
  reveal b x y rnd = Ok (b, (true, false)).
Proof.
  intros (Hwf & _)%reachable_inv Hb Hr Hf. by apply reveal_fuel_revealed.
Qed.

Lemma reveal_idempotent_witness :
  reveal ex_played 2 2 [(1, 1)] = Ok (ex_played, (true, false)).
Proof.
  apply (reveal_idempotent ex_played 2 2 [(1, 1)] ex_played_reachable);
    reflexivity.
Defined.

(** ** The counter of revealed cells *)

Lemma length_filter_False {A : Type} (l : list A) :
  length (filter (λ _, False) l) = 0%nat.
Proof.
  induction l as [|a l IH]; [done|]. rewrite filter_cons_False; tauto.
Qed.

Lemma length_filter_grow {A : Type} (P Q : A → Prop)
    `{!∀ x, Decision (P x), !∀ x, Decision (Q x)} (l : list A) :
  (∀ a, a ∈ l → P a → Q a) →
  length (filter Q l)
  = (length (filter P l) + length (filter (λ a, ¬ P a ∧ Q a) l))%nat.
Proof.
  induction l as [|a l IH]; intros Hpq; [done|].
  rewrite !filter_cons.
  assert (Ha : P a → Q a) by (apply Hpq; left).
  assert (Hl := IH (λ x Hx, Hpq x (list_elem_of_further _ _ _ Hx))).
  destruct (decide (P a)), (decide (Q a)), (decide (¬ P a ∧ Q a)); simpl;
    tauto || lia.
Qed.

(** When cells are only ever turned revealed, the revealed cells are those
    revealed before and the newly revealed ones. *)
Lemma count_revealed_grow (b b' : Board) :
  w b' = w b → h b' = h b →
  (∀ c, in_bounds b c.1 c.2 = true →
        revealed (cell_at b c) = true → revealed (cell_at b' c) = true) →
  count_cells revealed b' = count_cells revealed b + newly_revealed b b'.
Proof.
  intros Hw Hh Hmono. unfold count_cells, newly_revealed.
  rewrite (all_coords_same_dims b b' Hw Hh).
  rewrite (length_filter_grow (λ c, revealed (cell_at b c) = true)
             (λ c, revealed (cell_at b' c) = true)).
  - rewrite Nat2Z.inj_add. do 2 f_equal.
    apply length_filter_iff. intros c _.
    destruct (revealed (cell_at b c)); intuition congruence.
  - intros c Hc%elem_of_all_coords. by apply Hmono.
Qed.

Lemma count_revealed_same (b b' : Board) :
  w b' = w b → h b' = h b →
  (∀ c, in_bounds b c.1 c.2 = true →
        revealed (cell_at b' c) = revealed (cell_at b c)) →
  count_cells revealed b' = count_cells revealed b.
Proof.
  intros Hw Hh Hsame. unfold count_cells.
  rewrite (all_coords_same_dims b b' Hw Hh). f_equal.
  apply length_filter_iff. intros c Hc%elem_of_all_coords.
  by rewrite Hsame.
Qed.

(** On every reachable board [revealed_count] is the number of revealed
    cells. *)
Lemma reachable_counts (b : Board) :
  reachable b → revealed_count b = count_cells revealed b.
Proof.
  induction 1 as [width height mines b Hinit
                 | b b' x y rnd r Hreach IH Hrnd Hrev
                 | b b' x y r Hreach IH Htf].
  - pose proof (fresh_board_cell width height mines b) as Hcell.
    pose proof Hinit as (_ & _ & _ & Hb)%Board_init_Ok.
    unfold count_cells.
    rewrite (length_filter_iff _ (λ _, False)), length_filter_False.
    + by subst b.
    + intros c Hc%elem_of_all_coords. by rewrite (Hcell c Hinit Hc).
  - pose proof (reachable_inv b Hreach) as Hinv. pose proof Hinv as (Hwf & _).
    unfold reveal in Hrev.
    destruct (in_bounds b x y) eqn:Hb.
    2:{ rewrite reveal_fuel_out in Hrev by done. by inversion Hrev; subst. }
    destruct (flagged (cell_at b (x, y))) eqn:Hf.
    { rewrite reveal_fuel_flagged in Hrev by done. by inversion Hrev; subst. }
    destruct (revealed (cell_at b (x, y))) eqn:Hr.
    { rewrite reveal_fuel_revealed in Hrev by done. by inversion Hrev; subst. }
    destruct (reveal_hidden_ok b x y rnd Hinv Hb Hrnd Hf Hr)
      as (b1 & b2 & _ & Hrun & _ & _ & Hw & Hh & _ & Hc & Hcells & Hfr & _).
    rewrite Hrun in Hrev by lia. inversion Hrev; subst b2 r. clear Hrev.
    destruct Hfr as (_ & (Hw' & Hh' & _) & Hmono & _ & Hcount).
    rewrite Hcount, Hc, IH.
    rewrite (count_revealed_grow b1 b' Hw' Hh' Hmono). f_equal.
    symmetry. apply count_revealed_same; [done|done|].
    intros c Hcb. by destruct (Hcells c Hcb) as [-> _].
  - pose proof (reachable_inv b Hreach) as (Hwf & _).
    destruct (in_bounds b x y) eqn:Hb.
    2:{ rewrite toggle_flag_out in Htf by done. by inversion Htf; subst. }
    destruct (revealed (cell_at b (x, y))) eqn:Hr.
    { rewrite toggle_flag_revealed in Htf by done. by inversion Htf; subst. }
    destruct (toggle_flag_hidden b x y Hwf Hb Hr)
      as (b2 & Htf2 & _ & Hw & Hh & _ & _ & Hc & Hcell & Ho).
    rewrite Htf2 in Htf. inversion Htf; subst b2 r. clear Htf.
    rewrite Hc, IH. symmetry. apply count_revealed_same; [done|done|].
    intros c Hcb. destruct (decide (c = (x, y))) as [->|Hne].
    + by rewrite Hcell.
    + by rewrite Ho.
Qed.

(** ** Win detection and mine hits *)

(** C1, as amended. [all_safe_revealed] is true exactly when
    [revealed_count = w*h - mine_target].  On a reachable board, [reveal] on
    an in-bounds mine that is neither flagged nor revealed returns
    [(True, True)], marks that cell revealed, changes no other cell, and
    adds exactly one to [revealed_count], which is still the number of
    revealed cells, the revealed mine included. *)
Theorem mine_hit_is_counted (b : Board) (x y : Z) (rnd : list coord) :
  reachable b → in_bounds b x y = true →
  flagged (cell_at b (x, y)) = false → revealed (cell_at b (x, y)) = false →
  mine (cell_at b (x, y)) = true →
  (∀ b2, all_safe_revealed b2 = true
         ↔ revealed_count b2 = w b2 * h b2 - mine_target b2)
  ∧ ∃ b', reveal b x y rnd = Ok (b', (true, true))
          ∧ revealed_count b' = revealed_count b + 1
          ∧ cell_at b' (x, y) = set_revealed true (cell_at b (x, y))
          ∧ (∀ c, in_bounds b c.1 c.2 = true → c ≠ (x, y) →
                  cell_at b' c = cell_at b c)
          ∧ revealed_count b' = count_cells revealed b'.
Proof.
  intros Hreach Hb Hf Hr Hm. split.
  { intros b2. unfold all_safe_revealed. apply Z.eqb_eq. }
  pose proof (reachable_inv b Hreach) as Hinv.
  assert (Hp : mines_placed b = true).
  { destruct (mines_placed b) eqn:Hp; [done|].
    destruct Hinv as (_ & _ & Hfresh).
    destruct (Hfresh Hp (x, y) Hb) as [Hnm _]. congruence. }
  destruct (reveal_hidden_ok b x y rnd Hinv Hb) as
    (b1 & b' & Hpl & Hrun & _ & _ & _ & _ & _ & _ & _ & _ & _ & Hstep & _);
    try done.
  { intros Hnp. congruence. }
  unfold placed in Hpl. rewrite Hp in Hpl. subst b1.
  rewrite Hm in Hrun.
  destruct (Hstep (or_introl Hm)) as (_ & Hw & Hh & Ht & _ & Hc & Hcell & Hother).
  assert (Hrev : reveal b x y rnd = Ok (b', (true, true))) by (apply Hrun; lia).
  exists b'. split_and!; try done.
  apply reachable_counts.
  apply (reach_reveal b b' x y rnd (true, true) Hreach); [|done].
  intros Hnp. congruence.
Qed.

Lemma mine_hit_is_counted_witness :
  ∃ b', reveal ex_small_2 1 1 [] = Ok (b', (true, true))
        ∧ revealed_count b' = revealed_count ex_small_2 + 1.
Proof.
  destruct (mine_hit_is_counted ex_small_2 1 1 [] ex_small_2_reachable)
    as (_ & b' & Hrev & Hc & _); try reflexivity.
  exists b'. by split.
Defined.

(** C1 fails as stated: on the 2x2 board with its mine at (1, 1), after
    (0, 0) and (1, 0) are revealed, revealing the mine returns
    [(True, True)], takes [revealed_count] from 2 to 3, and makes
    [all_safe_revealed] true although (0, 1) is still hidden. *)
Lemma mine_hit_changes_count :
  reachable ex_small_2
  ∧ in_bounds ex_small_2 1 1 = true
  ∧ flagged (cell_at ex_small_2 (1, 1)) = false
  ∧ revealed (cell_at ex_small_2 (1, 1)) = false
  ∧ mine (cell_at ex_small_2 (1, 1)) = true
  ∧ all_safe_revealed ex_small_2 = false
  ∧ ∃ b', reveal ex_small_2 1 1 [] = Ok (b', (true, true))
          ∧ revealed_count ex_small_2 = 2 ∧ revealed_count b' = 3
          ∧ all_safe_revealed b' = true
          ∧ revealed (cell_at b' (0, 1)) = false
          ∧ mine (cell_at b' (0, 1)) = false.
Proof.
  split; [apply ex_small_2_reachable|].
  split_and!; try reflexivity.
  eexists. split; [reflexivity|]. by split_and!.
Qed.

(** ** Mine placement *)

Lemma same_mines_counts (b1 b2 : Board) :
  same_but_revealed b1 b2 →
  count_cells mine b2 = count_cells mine b1
  ∧ ∀ c, mined_neighbors b2 c = mined_neighbors b1 c.
Proof.
  intros (Hw & Hh & _ & _ & Hcells). split.
  - unfold count_cells. rewrite (all_coords_same_dims b1 b2 Hw Hh). f_equal.
    apply length_filter_iff. intros c Hc%elem_of_all_coords.
    destruct (Hcells c Hc) as (-> & _). done.
  - intros c. rewrite !mined_neighbors_unfold.
    rewrite (neighbors_same_dims b1 b2 _ _ Hw Hh). f_equal.
    apply length_filter_iff. intros n Hn%neighbors_in_bounds.
    destruct (Hcells n Hn) as (-> & _). done.
Qed.

(** Placement on a board that has no mine yet: the mines are the sample. *)
Lemma placement_on_fresh (b : Board) (sx sy : Z) (rnd : list coord) :
  board_inv b → mines_placed b = false → in_bounds b sx sy = true →
  random_sample (mine_candidates b sx sy) (mine_target b) rnd →
  ∃ b', place_mines_excluding b sx sy rnd = Ok b'
        ∧ wf_board b' = true ∧ w b' = w b ∧ h b' = h b
        ∧ mine_target b' = mine_target b ∧ mines_placed b' = true
        ∧ (∀ c, in_bounds b c.1 c.2 = true →
                (mine (cell_at b' c) = true ↔ c ∈ rnd))
        ∧ count_cells mine b' = mine_target b'
        ∧ (∀ c, in_bounds b' c.1 c.2 = true → mine (cell_at b' c) = false →
                adj (cell_at b' c) = mined_neighbors b' c).
Proof.
  intros (Hwf & Hvalid & Hfresh) Hnp Hb Hsample.
  destruct (place_mines_excluding_ok b sx sy rnd Hwf Hb Hvalid Hsample)
    as (b' & Hplace & Hwf' & Hw & Hh & Ht & Hp' & _ & Hcells).
  destruct (mine_candidates_spec b sx sy Hwf Hb) as (Hnd & Hcand & _ & _).
  destruct (random_sample_spec _ _ _ Hnd Hsample) as (Hrnd & Hsub & Hk).
  assert (Hmines : ∀ c, in_bounds b c.1 c.2 = true →
                        (mine (cell_at b' c) = true ↔ c ∈ rnd)).
  { intros c Hc. destruct (Hcells c Hc) as (-> & _).
    destruct (Hfresh Hnp c Hc) as [-> _]. case_decide; split; done. }
  exists b'. split_and!; try done.
  - unfold count_cells. rewrite (all_coords_same_dims b b' Hw Hh), Ht, <- Hk.
    f_equal.
    rewrite (length_filter_iff _ (λ c, c ∈ rnd)).
    + apply length_filter_elem_of; [done|apply NoDup_all_coords|].
      intros c Hc. apply elem_of_all_coords. by apply Hcand, Hsub.
    + intros c Hc%elem_of_all_coords. by apply Hmines.
  - intros c Hc Hm. apply Hcells; [|done]. unfold in_bounds in *.
    by rewrite <- Hw, <- Hh.
Qed.



(** C4. On a board built by [Board.__init__] on which no mine is placed yet
    and for an in-bounds first click: a sample can always be drawn, and
    whatever sample is drawn, placement returns and the clicked cell is not
    a mine; when [w*h - 9 >= mine_target], none of its in-bounds Moore
    neighbours ([moore]) is a mine either; and the first reveal of an unflagged cell returns
    [(True, False)].  On the 2x2 board with three mines placement returns
    with a mine next to the clicked cell. *)
Theorem first_click_is_safe (b : Board) (sx sy : Z) (rnd : list coord) :
  reachable b → mines_placed b = false → in_bounds b sx sy = true →
  (∃ rnd0, random_sample (mine_candidates b sx sy) (mine_target b) rnd0)
  ∧ (random_sample (mine_candidates b sx sy) (mine_target b) rnd →
     ∃ b', place_mines_excluding b sx sy rnd = Ok b'
           ∧ mine (cell_at b' (sx, sy)) = false
           ∧ (mine_target b ≤ w b * h b - 9 →
              ∀ n, n ∈ moore b (sx, sy) → mine (cell_at b' n) = false)
           ∧ (flagged (cell_at b (sx, sy)) = false →
              ∃ b'', reveal b sx sy rnd = Ok (b'', (true, false))
                     ∧ mine (cell_at b'' (sx, sy)) = false
                     ∧ (mine_target b ≤ w b * h b - 9 →
                        ∀ n, n ∈ moore b (sx, sy) →
                             mine (cell_at b'' n) = false)))
  ∧ (∃ b', place_mines_excluding ex_tiny 0 0 [(1, 0); (0, 1); (1, 1)] = Ok b'
           ∧ random_sample (mine_candidates ex_tiny 0 0) (mine_target ex_tiny)
               [(1, 0); (0, 1); (1, 1)]
           ∧ ¬ (mine_target ex_tiny ≤ w ex_tiny * h ex_tiny - 9)
           ∧ mine (cell_at b' (0, 0)) = false
           ∧ (1, 0) ∈ moore ex_tiny (0, 0)
           ∧ mine (cell_at b' (1, 0)) = true).
Proof.
  intros Hreach Hnp Hb. rewrite <- !(neighbors_moore_xy b sx sy).
  pose proof (reachable_inv b Hreach) as Hinv.
  pose proof Hinv as (Hwf & Hvalid & Hfresh).
  destruct (mine_candidates_spec b sx sy Hwf Hb) as (Hnd & Hcand & Hlen & Hzone).
  split_and!.
  - eexists. apply random_sample_exists. destruct Hvalid. split; [lia|].
    apply Hlen. lia.
  - intros Hsample.
    destruct (random_sample_spec _ _ _ Hnd Hsample) as (Hrnd & Hsub & Hk).
    destruct (placement_on_fresh b sx sy rnd Hinv Hnp Hb Hsample)
      as (b' & Hplace & Hwf' & Hw & Hh & Ht & Hp' & Hmines & _).
    assert (Hsafe : mine (cell_at b' (sx, sy)) = false).
    { destruct (mine (cell_at b' (sx, sy))) eqn:Hm; [|done].
      apply (Hmines (sx, sy) Hb) in Hm.
      destruct (Hcand _ (Hsub _ Hm)) as [_ Hne]. done. }
    assert (Hnbrs : mine_target b ≤ w b * h b - 9 →
              ∀ n, n ∈ neighbors b sx sy → mine (cell_at b' n) = false).
    { intros Hfits n Hn. destruct (mine (cell_at b' n)) eqn:Hm; [|done].
      apply (Hmines n (neighbors_in_bounds _ _ _ _ Hn)) in Hm.
      destruct (Hzone Hfits n (Hsub _ Hm) Hn). }
    exists b'. split_and!; try done.
    intros Hf. destruct (Hfresh Hnp (sx, sy) Hb) as [_ Hr].
    destruct (reveal_hidden_ok b sx sy rnd Hinv Hb (λ _, Hsample) Hf Hr)
      as (b1 & b'' & Hpl & Hrun & _ & _ & _ & _ & _ & _ & _ & Hfr & _).
    unfold placed in Hpl. rewrite Hnp, Hplace in Hpl. inversion Hpl; subst b1.
    destruct Hfr as (_ & (_ & _ & _ & _ & Hcells) & _).
    assert (Hb' : ∀ c, in_bounds b c.1 c.2 = true → in_bounds b' c.1 c.2 = true).
    { intros c Hc. unfold in_bounds in *. by rewrite Hw, Hh. }
    exists b''. split_and!.
    + rewrite <- Hsafe. apply Hrun. lia.
    + destruct (Hcells (sx, sy) (Hb' (sx, sy) Hb)) as (-> & _). done.
    + intros Hfits n Hn.
      destruct (Hcells n (Hb' n (neighbors_in_bounds _ _ _ _ Hn))) as (-> & _).
      by apply Hnbrs.
  - eexists. split; [reflexivity|]. split_and!; try reflexivity.
    + split; [reflexivity|]. apply (bool_decide_unpack _). reflexivity.
    + simpl. lia.
    + apply (bool_decide_unpack _). reflexivity.
Qed.

Lemma ex_wide_reachable : reachable ex_wide.
Proof. by apply (reach_init 4 4 2). Qed.

Lemma first_click_is_safe_witness :
  ∃ b', place_mines_excluding ex_wide 0 0 [(3, 3); (0, 2)] = Ok b'
        ∧ mine (cell_at b' (0, 0)) = false
        ∧ ∀ n, n ∈ moore ex_wide (0, 0) → mine (cell_at b' n) = false.
Proof.
  destruct (first_click_is_safe ex_wide 0 0 [(3, 3); (0, 2)]
              ex_wide_reachable eq_refl eq_refl) as (_ & Hplace & _).
  destruct Hplace as (b' & Hp & Hsafe & Hnbrs & _).
  { split; [reflexivity|]. apply (bool_decide_unpack _). reflexivity. }
  exists b'. split_and!; [done|done|]. apply Hnbrs. simpl. lia.
Defined.

(** ** Flood fill *)

Lemma region_eligible (b : Board) (x y : Z) (c : coord) :
  flood_region b x y c → c = (x, y) ∨ eligible b c.
Proof. destruct 1; [by left|right]. by split_and!. Qed.

(** C2. On a well-formed board whose mines are placed, [reveal] on an
    in-bounds cell that is not flagged, not revealed, not a mine and whose
    count is 0 returns [(True, False)]; the cells revealed afterwards are
    those revealed before and those of the flood-fill region of the cell
    ([flood_region], which grows through the in-bounds Moore neighbours of
    its cells of count 0), no more and no fewer; no other field of any cell changes (flags, mines
    and counts stay); every cell the call reveals is neither a mine nor
    flagged; and [revealed_count] grows by the number of cells the call
    reveals, each counted once. *)
Theorem flood_fill_reveals_region (b : Board) (x y : Z) (rnd : list coord) :
  wf_board b = true → mines_placed b = true → in_bounds b x y = true →
  flagged (cell_at b (x, y)) = false → revealed (cell_at b (x, y)) = false →
  mine (cell_at b (x, y)) = false → adj (cell_at b (x, y)) = 0 →
  ∃ b', reveal b x y rnd = Ok (b', (true, false))
        ∧ (∀ c, in_bounds b c.1 c.2 = true →
                (revealed (cell_at b' c) = true
                 ↔ revealed (cell_at b c) = true ∨ flood_region b x y c))
        ∧ same_but_revealed b b'
        ∧ (∀ c, in_bounds b c.1 c.2 = true →
                revealed (cell_at b c) = false →
                revealed (cell_at b' c) = true →
                mine (cell_at b c) = false ∧ flagged (cell_at b c) = false)
        ∧ revealed_count b' = revealed_count b + newly_revealed b b'.
Proof.
  intros Hwf Hp Hb Hf Hr Hm Hz.
  destruct (reveal_marked_ok b x y Hwf Hb Hr)
    as (b' & Hrun & Hfr & _ & _ & Hflood).
  specialize (Hflood Hm Hz).
  destruct Hfr as (_ & Hsame & Hmono & Hin & Hcount).
  exists b'. split_and!; try done.
  - unfold reveal. rewrite (reveal_fuel_hidden _ b x y rnd Hwf Hb Hf Hr).
    rewrite Hp. simpl. rewrite <- Hm. by apply Hrun.
  - intros c Hc. split.
    + intros Hr'. destruct (revealed (cell_at b c)) eqn:Hr0; [by left|right].
      by apply Hin.
    + intros [Hr0|Hreg]; [by apply Hmono|by apply Hflood].
  - intros c Hc Hr0 Hr'.
    destruct (region_eligible b x y c (Hin c Hc Hr0 Hr')) as [->|(_ & ? & ?)];
      done.
Qed.

Lemma flood_fill_reveals_region_witness :
  ∃ b', reveal ex_mid 2 2 [] = Ok (b', (true, false))
        ∧ revealed_count b' = revealed_count ex_mid + newly_revealed ex_mid b'.
Proof.
  destruct (flood_fill_reveals_region ex_mid 2 2 [])
    as (b' & Hrev & _ & _ & _ & Hcount); try reflexivity.
  exists b'. by split.
Defined.

(** ** Termination *)

(** C9. On a reachable board and for an in-bounds cell, [reveal] returns a
    result: the loop never uses up a budget of [w*h] iterations, and a
    larger budget gives the same result.  When the call enters the flood
    fill (the cell was hidden and, on the board [b1] that has its mines,
    its count is 0), the loop run from its entry state ends with an empty
    stack, no coordinate was put on the stack twice, every one is a cell of
    the board that was hidden when the call began and is revealed when the
    loop ends, and so at most [w*h] coordinates were ever put on it. *)
Theorem reveal_terminates (b : Board) (x y : Z) (rnd : list coord) :
  reachable b → in_bounds b x y = true →
  (mines_placed b = false →
   random_sample (mine_candidates b x y) (mine_target b) rnd) →
  (∃ r, ∀ fuel, (Z.to_nat (w b * h b) ≤ fuel)%nat →
                reveal_fuel fuel b x y rnd = Ok r)
  ∧ (∀ b1 g2,
       placed b x y rnd b1 →
       revealed (cell_at b (x, y)) = false →
       adj (cell_at b1 (x, y)) = 0 →
       upd_cell (grid b1) x y (set_revealed true) = Ok g2 →
       ∃ st, (∀ fuel, (Z.to_nat (w b * h b) ≤ fuel)%nat →
                flood_fill fuel
                  (with_revealed_count (with_grid b1 g2) (revealed_count b1 + 1))
                  x y = Ok st)
             ∧ fl_stack st = []
             ∧ NoDup (fl_pushed st)
             ∧ (∀ c, c ∈ fl_pushed st →
                     in_bounds b c.1 c.2 = true
                     ∧ revealed (cell_at b1 c) = false
                     ∧ revealed (cell_at (fl_board st) c) = true)
             ∧ Z.of_nat (length (fl_pushed st)) ≤ w b * h b).
Proof.
  intros Hreach Hb Hrnd.
  pose proof (reachable_inv b Hreach) as Hinv.
  pose proof Hinv as (Hwf & _).
  split.
  - destruct (flagged (cell_at b (x, y))) eqn:Hf.
    { eexists. intros fuel _. by apply reveal_fuel_flagged. }
    destruct (revealed (cell_at b (x, y))) eqn:Hr.
    { eexists. intros fuel _. by apply reveal_fuel_revealed. }
    destruct (reveal_hidden_ok b x y rnd Hinv Hb Hrnd Hf Hr)
      as (b1 & b' & _ & Hrun & _).
    eexists. exact Hrun.
  - intros b1 g2 Hpl Hr Hz Hupd.
    destruct (placed_ok b x y rnd Hinv Hb Hrnd)
      as (b1' & Hpl' & _ & Hwf1 & _ & Hw & Hh & _ & _ & Hcells).
    assert (b1' = b1) as ->.
    { unfold placed in Hpl, Hpl'. destruct (mines_placed b); congruence. }
    assert (Hb1 : in_bounds b1 x y = true).
    { unfold in_bounds in *. by rewrite Hw, Hh. }
    assert (Hr1 : revealed (cell_at b1 (x, y)) = false).
    { destruct (Hcells (x, y) Hb) as [-> _]. done. }
    destruct (mark_revealed b1 (x, y) Hwf1 Hb1) as (g2' & Hupd' & Hstep).
    simpl in Hupd'. assert (g2' = g2) as -> by congruence.
    destruct (flood_fill_ok b1 x y Hwf1 Hb1 Hr1 Hz _ Hstep)
      as (st & Hrun & Hs & _ & _ & Hnd & Hin & Hlen).
    exists st. rewrite <- Hw, <- Hh. split_and!; try done.
    intros c Hc. destruct (Hin c Hc) as (Hcb & ? & ?). split_and!; try done.
    unfold in_bounds in *. by rewrite <- Hw, <- Hh.
Qed.

Lemma reveal_terminates_witness :
  ∃ r, ∀ fuel, (Z.to_nat (w ex_mid * h ex_mid) ≤ fuel)%nat →
               reveal_fuel fuel ex_mid 2 2 [] = Ok r.
Proof.
  apply (reveal_terminates ex_mid 2 2 []).
  - apply (reach_reveal ex_fresh _ 1 1 [(0, 0)] (true, false)).
    + by apply (reach_init 3 3 1).
    + intros _. split; [reflexivity|]. apply (bool_decide_unpack _).
      reflexivity.
    + reflexivity.
  - reflexivity.
  - intros [=].
Defined.

(** ** The chord *)

Lemma count_flagged_ok (b : Board) (ns : list coord) :
  wf_board b = true →
  (∀ n, n ∈ ns → in_bounds b n.1 n.2 = true) →
  count_flagged b ns
  = Ok (Z.of_nat (length (filter (λ n, flagged (cell_at b n) = true) ns))).
Proof.
  intros Hwf. unfold count_flagged.
  assert (Hgen : ∀ acc,
    (∀ n, n ∈ ns → in_bounds b n.1 n.2 = true) →
    for_each (λ acc n, do c <- get_cell (grid b) n.1 n.2;
                       Ok (if flagged c then acc + 1 else acc)) acc ns
    = Ok (acc + Z.of_nat (length (filter (λ n, flagged (cell_at b n) = true) ns)))).
  { induction ns as [|n ns IH]; intros acc Hin; simpl.
    - f_equal. lia.
    - rewrite (get_cell_at b n Hwf) by (apply Hin; left). simpl.
      rewrite IH by (intros; apply Hin; by right).
      rewrite filter_cons.
      destruct (flagged (cell_at b n)); case_decide; try done; simpl; f_equal; lia. }
  intros Hin. by rewrite Hgen.
Qed.

(** What one [reveal] does to a board whose mines are placed, as far as the
    chord needs it. *)
Lemma reveal_placed (b : Board) (x y : Z) (rnd : list coord) :
  board_inv b → mines_placed b = true →
  ∃ b' r, reveal b x y rnd = Ok (b', r)
          ∧ board_inv b' ∧ mines_placed b' = true
          ∧ w b' = w b ∧ h b' = h b
          ∧ (∀ c, in_bounds b c.1 c.2 = true →
                  flagged (cell_at b' c) = flagged (cell_at b c)
                  ∧ (revealed (cell_at b c) = true →
                     revealed (cell_at b' c) = true))
          ∧ (in_bounds b x y = true → flagged (cell_at b (x, y)) = false →
             revealed (cell_at b (x, y)) = false →
             r = (true, mine (cell_at b (x, y)))
             ∧ revealed (cell_at b' (x, y)) = true).
Proof.
  intros Hinv Hp. pose proof Hinv as (Hwf & _).
  assert (Hsame : ∀ r, reveal b x y rnd = Ok (b, r) →
    ∃ b' r, reveal b x y rnd = Ok (b', r)
          ∧ board_inv b' ∧ mines_placed b' = true
          ∧ w b' = w b ∧ h b' = h b
          ∧ (∀ c, in_bounds b c.1 c.2 = true →
                  flagged (cell_at b' c) = flagged (cell_at b c)
                  ∧ (revealed (cell_at b c) = true →
                     revealed (cell_at b' c) = true))).
  { intros r Hr. exists b, r. by split_and!. }
  destruct (in_bounds b x y) eqn:Hb.
  2:{ destruct (Hsame (false, false)) as (b' & r & ? & ? & ? & ? & ? & ?).
      { by apply reveal_fuel_out. }
      exists b', r. by split_and!. }
  destruct (flagged (cell_at b (x, y))) eqn:Hf.
  { destruct (Hsame (false, false)) as (b' & r & ? & ? & ? & ? & ? & ?).
    { by apply reveal_fuel_flagged. }
    exists b', r. by split_and!. }
  destruct (revealed (cell_at b (x, y))) eqn:Hr.
  { destruct (Hsame (true, false)) as (b' & r & ? & ? & ? & ? & ? & ?).
    { by apply reveal_fuel_revealed. }
    exists b', r. by split_and!. }
  destruct (reveal_hidden_ok b x y rnd Hinv Hb) as
    (b1 & b' & Hpl & Hrun & _ & _ & _ & _ & _ & _ & _ & Hfr & Hrev & _);
    try done.
  { intros Hnp. congruence. }
  unfold placed in Hpl. rewrite Hp in Hpl. subst b1.
  assert (Hreveal : reveal b x y rnd = Ok (b', (true, mine (cell_at b (x, y)))))
    by (apply Hrun; lia).
  exists b', (true, mine (cell_at b (x, y))).
  pose proof (board_inv_reveal b b' x y rnd _ Hinv
                ltac:(intros; congruence) Hreveal) as Hinv'.
  destruct Hfr as (_ & (Hw & Hh & _ & Hp' & Hcells) & Hmono & _).
  split_and!; try done; try congruence.
  intros c Hc. destruct (Hcells c Hc) as (_ & ? & _). split; [done|].
  by apply Hmono.
Qed.

(** The loop of the chord follows [chord_spec], and what follows from it. *)
Lemma chord_reveal_ok (rnd : list coord) (ns : list coord) (b : Board) :
  board_inv b → mines_placed b = true →
  (∀ n, n ∈ ns → in_bounds b n.1 n.2 = true) →
  ∃ b' hit,
    chord_reveal b ns rnd = Ok (b', hit)
    ∧ chord_spec rnd b ns b' hit
    ∧ w b' = w b ∧ h b' = h b
    ∧ (∀ c, in_bounds b c.1 c.2 = true →
            flagged (cell_at b' c) = flagged (cell_at b c)
            ∧ (revealed (cell_at b c) = true → revealed (cell_at b' c) = true))
    ∧ (hit = false →
       ∀ n, n ∈ ns → flagged (cell_at b n) = false →
            revealed (cell_at b' n) = true)
    ∧ (hit = true →
       ∃ pre n post b1,
         ns = pre ++ n :: post
         ∧ chord_spec rnd b pre b1 false
         ∧ flagged (cell_at b1 n) = false ∧ revealed (cell_at b1 n) = false
         ∧ mine (cell_at b1 n) = true
         ∧ reveal b1 n.1 n.2 rnd = Ok (b', (true, true))).
Proof.
  revert b. induction ns as [|n ns IH]; intros b Hinv Hp Hin.
  { exists b, false. simpl. split_and!; try done.
    - constructor.
    - intros _ n Hn. by apply elem_of_nil in Hn. }
  pose proof Hinv as (Hwf & _).
  assert (Hn : in_bounds b n.1 n.2 = true) by (apply Hin; left).
  simpl. rewrite (get_cell_at b n Hwf Hn). simpl.
  destruct (flagged (cell_at b n)) eqn:Hf; simpl.
  { destruct (IH b Hinv Hp) as (b' & hit & Hrun & Hspec & Hw & Hh & Hcells & Hall & Hhit).
    { intros m Hm. apply Hin. by right. }
    exists b', hit. split_and!; try done.
    - apply chord_skip; [by left|done].
    - intros Hnh m [->|Hm]%elem_of_cons Hmf; [congruence|by apply Hall].
    - intros Hh'. destruct (Hhit Hh') as (pre & m & post & b1 & -> & Hpre & ?).
      exists (n :: pre), m, post, b1. split; [done|]. split; [|done].
      apply chord_skip; [by left|done]. }
  destruct (revealed (cell_at b n)) eqn:Hr; simpl.
  { destruct (IH b Hinv Hp) as (b' & hit & Hrun & Hspec & Hw & Hh & Hcells & Hall & Hhit).
    { intros m Hm. apply Hin. by right. }
    exists b', hit. split_and!; try done.
    - apply chord_skip; [by right|done].
    - intros Hnh m [->|Hm]%elem_of_cons Hmf; [|by apply Hall].
      by apply Hcells.
    - intros Hh'. destruct (Hhit Hh') as (pre & m & post & b1 & -> & Hpre & ?).
      exists (n :: pre), m, post, b1. split; [done|]. split; [|done].
      apply chord_skip; [by right|done]. }
  destruct (reveal_placed b n.1 n.2 rnd Hinv Hp)
    as (b1 & r & Hrev & Hinv1 & Hp1 & Hw1 & Hh1 & Hcells1 & Hres).
  destruct n as [nx ny]; simpl in *.
  destruct (Hres Hn Hf Hr) as [-> Hrevn].
  rewrite Hrev. simpl.
  destruct (mine (cell_at b (nx, ny))) eqn:Hm.
  { exists b1, true. split_and!; try done.
    - by apply (chord_hit rnd b b1 (nx, ny) ns true).
    - intros _. exists [], (nx, ny), ns, b. simpl. split_and!; try done.
      constructor. }
  assert (Hib : ∀ c, in_bounds b1 c.1 c.2 = in_bounds b c.1 c.2).
  { intros c. unfold in_bounds. by rewrite Hw1, Hh1. }
  destruct (IH b1 Hinv1 Hp1)
    as (b' & hit & Hrun & Hspec & Hw & Hh & Hcells & Hall & Hhit).
  { intros m Hm'. rewrite Hib. apply Hin. by right. }
  exists b', hit. split_and!; try done; try congruence.
  - by apply (chord_next rnd b b1 b' (nx, ny) ns true hit).
  - intros c Hc. destruct (Hcells1 c Hc) as [Hf1 Hr1].
    destruct (Hcells c) as [Hf' Hr']; [by rewrite Hib|].
    split; [congruence|auto].
  - intros Hnh m [->|Hm']%elem_of_cons Hmf.
    + apply Hcells; [by rewrite Hib|done].
    + apply Hall; [done|done|]. destruct (Hcells1 m) as [-> _]; [|done].
      apply Hin. by right.
  - intros Hh'. destruct (Hhit Hh') as (pre & m & post & b2 & -> & Hpre & ?).
    exists ((nx, ny) :: pre), m, post, b2. split; [done|]. split; [|done].
    by apply (chord_next rnd b b1 b2 (nx, ny) pre true false).
Qed.

Lemma ex_mid_reachable : reachable ex_mid.
Proof.
  apply (reach_reveal ex_fresh _ 1 1 [(0, 0)] (true, false)
           ex_fresh_reachable); [|done].
  intros _. split; [done|]. by apply (bool_decide_unpack _).
Qed.

Lemma ex_chord_reachable : reachable ex_chord.
Proof. by apply (reach_toggle_flag ex_mid _ 0 0 true ex_mid_reachable). Qed.

Lemma ex_chord_wrong_reachable : reachable ex_chord_wrong.
Proof. by apply (reach_toggle_flag ex_mid _ 1 0 true ex_mid_reachable). Qed.

(** C8. The chord on an in-bounds cell of a reachable board, the game not
    being over.  If the cell is not revealed, or its count is not positive,
    or the number of its flagged neighbours differs from its count, the
    handler returns with the application state unchanged and no dialog.
    Otherwise it runs the chord of the specification over the in-bounds
    Moore neighbours of the cell ([moore]), row by row ([chord_spec]: each
    neighbour that is neither flagged nor revealed at its turn is revealed
    with [reveal], and the first hit stops the run).  Without a hit every neighbour that was not flagged ends up
    revealed, no flag changes, and the game is over exactly when
    [all_safe_revealed] holds; with a hit the board returned is the one
    right after the reveal that hit the mine (the neighbours after it are
    not treated), the game is over and the mine-hit dialog is shown. *)
Theorem chord_contract (app : App) (b : Board) (x y : Z) (rnd : list coord) :
  board app = Some b → game_over app = false →
  reachable b → in_bounds b x y = true →
  (revealed (cell_at b (x, y)) = false ∨ adj (cell_at b (x, y)) ≤ 0
   ∨ flagged_neighbors b (x, y) ≠ adj (cell_at b (x, y)) →
   on_chord app x y rnd = Ok (app, None))
  ∧ (revealed (cell_at b (x, y)) = true → 0 < adj (cell_at b (x, y)) →
     flagged_neighbors b (x, y) = adj (cell_at b (x, y)) →
     ∃ b' hit,
       chord_spec rnd b (moore b (x, y)) b' hit
       ∧ on_chord app x y rnd
         = Ok (mkApp (Some b') (hit || all_safe_revealed b'),
               if hit then Some MineHitDialog
               else if all_safe_revealed b' then Some WinDialog else None)
       ∧ (∀ c, in_bounds b c.1 c.2 = true →
               flagged (cell_at b' c) = flagged (cell_at b c)
               ∧ (revealed (cell_at b c) = true →
                  revealed (cell_at b' c) = true))
       ∧ (hit = false →
          ∀ n, n ∈ moore b (x, y) → flagged (cell_at b n) = false →
               revealed (cell_at b' n) = true)
       ∧ (hit = true →
          ∃ pre n post b1,
            moore b (x, y) = pre ++ n :: post
            ∧ chord_spec rnd b pre b1 false
            ∧ flagged (cell_at b1 n) = false
            ∧ revealed (cell_at b1 n) = false
            ∧ mine (cell_at b1 n) = true
            ∧ reveal b1 n.1 n.2 rnd = Ok (b', (true, true)))).
Proof.
  intros Hboard Hgo Hreach Hb.
  pose proof (reachable_inv b Hreach) as Hinv.
  pose proof Hinv as (Hwf & _ & Hfresh).
  assert (Hflags : count_flagged b (neighbors b x y)
                   = Ok (flagged_neighbors b (x, y))).
  { rewrite flagged_neighbors_unfold. apply count_flagged_ok; [done|].
    apply neighbors_in_bounds. }
  rewrite <- !(neighbors_moore_xy b x y).
  split.
  - intros Hnoop. unfold on_chord. rewrite Hgo, Hboard.
    rewrite (get_cell_xy b x y Hwf Hb). simpl.
    destruct (revealed (cell_at b (x, y))) eqn:Hr; simpl; [|done].
    destruct (Z.leb_spec (adj (cell_at b (x, y))) 0) as [Hle|Hgt]; [done|].
    rewrite Hflags. simpl.
    destruct (Z.eqb_spec (flagged_neighbors b (x, y)) (adj (cell_at b (x, y))))
      as [Heq|Hne]; simpl; [|done].
    destruct Hnoop as [?|[?|?]]; [done|lia|done].
  - intros Hr Hpos Heq.
    assert (Hp : mines_placed b = true).
    { destruct (mines_placed b) eqn:Hp; [done|].
      destruct (Hfresh eq_refl (x, y) Hb) as [_ Hnr]. congruence. }
    destruct (chord_reveal_ok rnd (neighbors b x y) b Hinv Hp)
      as (b' & hit & Hrun & Hspec & _ & _ & Hcells & Hall & Hhit).
    { apply neighbors_in_bounds. }
    exists b', hit. split_and!; try done.
    unfold on_chord. rewrite Hgo, Hboard.
    rewrite (get_cell_xy b x y Hwf Hb). simpl. rewrite Hr. simpl.
    destruct (Z.leb_spec (adj (cell_at b (x, y))) 0) as [Hle|Hgt]; [lia|].
    rewrite Hflags. simpl. rewrite Heq, Z.eqb_refl. simpl.
    rewrite Hrun. simpl.
    destruct hit; [done|]. simpl. by destruct (all_safe_revealed b').
Qed.

Lemma chord_contract_witness :
  ∃ b' hit,
    chord_spec [] ex_chord (moore ex_chord (1, 1)) b' hit
    ∧ on_chord (mkApp (Some ex_chord) false) 1 1 []
      = Ok (mkApp (Some b') (hit || all_safe_revealed b'),
            if hit then Some MineHitDialog
            else if all_safe_revealed b' then Some WinDialog else None)
    ∧ (hit = false →
       ∀ n, n ∈ moore ex_chord (1, 1) →
            flagged (cell_at ex_chord n) = false →
            revealed (cell_at b' n) = true).
Proof.
  destruct (chord_contract (mkApp (Some ex_chord) false) ex_chord 1 1 []
              eq_refl eq_refl ex_chord_reachable eq_refl)
    as (_ & Hfire).
  destruct Hfire as (b' & hit & Hspec & Hrun & _ & Hall & _);
    [reflexivity | reflexivity | reflexivity |].
  exists b', hit. split; [exact Hspec|]. split; [exact Hrun|exact Hall].
Defined.

(** A chord that wins: with the flag on the mine, the chord on (1, 1)
    reveals every other cell. *)
Lemma chord_win_example :
  ∃ b', on_chord (mkApp (Some ex_chord) false) 1 1 []
        = Ok (mkApp (Some b') true, Some WinDialog)
        ∧ revealed (cell_at b' (0, 0)) = false
        ∧ flagged (cell_at b' (0, 0)) = true
        ∧ revealed_count b' = 8.
Proof. eexists. split; [vm_compute; reflexivity|]. split_and!; reflexivity. Qed.

(** A chord that hits a mine: with the flag on the wrong cell, the first
    neighbour, (0, 0), is the mine; the chord stops there and no other
    neighbour is revealed. *)
Lemma chord_hit_example :
  ∃ b', on_chord (mkApp (Some ex_chord_wrong) false) 1 1 []
        = Ok (mkApp (Some b') true, Some MineHitDialog)
        ∧ revealed (cell_at b' (0, 0)) = true
        ∧ revealed (cell_at b' (2, 2)) = false
        ∧ revealed_count b' = 2.
Proof. eexists. split; [vm_compute; reflexivity|]. split_and!; reflexivity. Qed.

(** * Further properties of the engine *)

(** ** What every reachable board looks like *)

Lemma mine_counts_ext (b1 b2 : Board) :
  w b2 = w b1 → h b2 = h b1 →
  (∀ c, in_bounds b1 c.1 c.2 = true → mine (cell_at b2 c) = mine (cell_at b1 c)) →
  count_cells mine b2 = count_cells mine b1
  ∧ ∀ c, mined_neighbors b2 c = mined_neighbors b1 c.
Proof.
  intros Hw Hh Hmine. split.
  - unfold count_cells. rewrite (all_coords_same_dims b1 b2 Hw Hh). f_equal.
    apply length_filter_iff. intros c Hc%elem_of_all_coords.
    by rewrite Hmine.
  - intros c. rewrite !mined_neighbors_unfold.
    rewrite (neighbors_same_dims b1 b2 _ _ Hw Hh). f_equal.
    apply length_filter_iff. intros n Hn%neighbors_in_bounds.
    by rewrite Hmine.
Qed.

(** The mines, once placed, are [mine_target] in number and every count is
    right; before that every cell is as [Board.__init__] made it, flag
    apart. *)
Lemma reachable_layout (b : Board) :
  reachable b →
  (mines_placed b = false →
   ∀ c, in_bounds b c.1 c.2 = true →
        mine (cell_at b c) = false ∧ revealed (cell_at b c) = false
        ∧ adj (cell_at b c) = 0)
  ∧ (mines_placed b = true →
     count_cells mine b = mine_target b
     ∧ ∀ c, in_bounds b c.1 c.2 = true → mine (cell_at b c) = false →
            adj (cell_at b c) = mined_neighbors b c).
Proof.
  induction 1 as [width height mines b Hinit
                 | b b' x y rnd r Hreach IH Hrnd Hrev
                 | b b' x y r Hreach IH Htf].
  - pose proof Hinit as (_ & _ & _ & Hb)%Board_init_Ok.
    split.
    + intros _ c Hc. by rewrite (fresh_board_cell width height mines b c Hinit Hc).
    + intros Hp. subst b. done.
  - pose proof (reachable_inv b Hreach) as Hinv. pose proof Hinv as (Hwf & _).
    unfold reveal in Hrev.
    destruct (in_bounds b x y) eqn:Hb.
    2:{ rewrite reveal_fuel_out in Hrev by done. by inversion Hrev; subst. }
    destruct (flagged (cell_at b (x, y))) eqn:Hf.
    { rewrite reveal_fuel_flagged in Hrev by done. by inversion Hrev; subst. }
    destruct (revealed (cell_at b (x, y))) eqn:Hr.
    { rewrite reveal_fuel_revealed in Hrev by done. by inversion Hrev; subst. }
    destruct (reveal_hidden_ok b x y rnd Hinv Hb Hrnd Hf Hr)
      as (b1 & b2 & Hpl & Hrun & _ & Hp1 & Hw & Hh & Ht & _ & _ & Hfr & _).
    rewrite Hrun in Hrev by lia. inversion Hrev; subst b2 r. clear Hrev.
    destruct Hfr as (_ & Hsame & _).
    destruct (same_mines_counts b1 b' Hsame) as [Hcnt Hnb].
    destruct Hsame as (Hw' & Hh' & Ht' & Hp' & Hcells).
    split; [intros Hnp; congruence|]. intros _.
    assert (Hb1 : count_cells mine b1 = mine_target b1
                  ∧ ∀ c, in_bounds b1 c.1 c.2 = true → mine (cell_at b1 c) = false →
                         adj (cell_at b1 c) = mined_neighbors b1 c).
    { unfold placed in Hpl. destruct (mines_placed b) eqn:Hp.
      - subst b1. by apply IH.
      - destruct (placement_on_fresh b x y rnd Hinv Hp Hb (Hrnd eq_refl))
          as (b1' & Hplace & _ & _ & _ & _ & _ & _ & Hcount & Hadj).
        assert (b1' = b1) as -> by congruence. done. }
    destruct Hb1 as [Hcount1 Hadj1]. split; [by rewrite Hcnt, Ht'|].
    intros c Hc Hm.
    assert (Hc1 : in_bounds b1 c.1 c.2 = true).
    { unfold in_bounds in *. by rewrite <- Hw', <- Hh'. }
    destruct (Hcells c Hc1) as (Hm' & _ & Ha'). rewrite Ha', Hnb.
    apply Hadj1; [done|congruence].
  - pose proof (reachable_inv b Hreach) as (Hwf & _).
    destruct (in_bounds b x y) eqn:Hb.
    2:{ rewrite toggle_flag_out in Htf by done. by inversion Htf; subst. }
    destruct (revealed (cell_at b (x, y))) eqn:Hr.
    { rewrite toggle_flag_revealed in Htf by done. by inversion Htf; subst. }
    destruct (toggle_flag_hidden b x y Hwf Hb Hr)
      as (b2 & Htf2 & _ & Hw & Hh & Ht & Hp & _ & Hcell & Ho).
    rewrite Htf2 in Htf. inversion Htf; subst b2 r. clear Htf.
    assert (Hib : ∀ c, in_bounds b' c.1 c.2 = in_bounds b c.1 c.2).
    { intros c. unfold in_bounds. by rewrite Hw, Hh. }
    assert (Hsame : ∀ c, in_bounds b c.1 c.2 = true →
              mine (cell_at b' c) = mine (cell_at b c)
              ∧ revealed (cell_at b' c) = revealed (cell_at b c)
              ∧ adj (cell_at b' c) = adj (cell_at b c)).
    { intros c Hc. destruct (decide (c = (x, y))) as [->|Hne].
      - by rewrite Hcell.
      - by rewrite Ho. }
    destruct (mine_counts_ext b b' Hw Hh) as [Hcnt Hnb].
    { intros c Hc. by destruct (Hsame c Hc) as (-> & _). }
    destruct IH as [IH0 IH1]. rewrite Hp. split.
    + intros Hnp c Hc. rewrite Hib in Hc.
      destruct (Hsame c Hc) as (-> & -> & ->). by apply IH0.
    + intros Hpl. destruct (IH1 Hpl) as [Hcount Hadj].
      split; [by rewrite Hcnt, Ht|]. intros c Hc Hm. rewrite Hib in Hc.
      destruct (Hsame c Hc) as (Hm' & _ & ->). rewrite Hnb.
      apply Hadj; [done|congruence].
Qed.

(** A revealed cell is never flagged. *)
Lemma reachable_revealed_unflagged (b : Board) :
  reachable b →
  ∀ c, in_bounds b c.1 c.2 = true → revealed (cell_at b c) = true →
       flagged (cell_at b c) = false.
Proof.
  induction 1 as [width height mines b Hinit
                 | b b' x y rnd r Hreach IH Hrnd Hrev
                 | b b' x y r Hreach IH Htf].
  - intros c Hc. by rewrite (fresh_board_cell width height mines b c Hinit Hc).
  - pose proof (reachable_inv b Hreach) as Hinv. pose proof Hinv as (Hwf & _).
    unfold reveal in Hrev.
    destruct (in_bounds b x y) eqn:Hb.
    2:{ rewrite reveal_fuel_out in Hrev by done. by inversion Hrev; subst. }
    destruct (flagged (cell_at b (x, y))) eqn:Hf.
    { rewrite reveal_fuel_flagged in Hrev by done. by inversion Hrev; subst. }
    destruct (revealed (cell_at b (x, y))) eqn:Hr.
    { rewrite reveal_fuel_revealed in Hrev by done. by inversion Hrev; subst. }
    destruct (reveal_hidden_ok b x y rnd Hinv Hb Hrnd Hf Hr)
      as (b1 & b2 & _ & Hrun & _ & _ & Hw & Hh & _ & _ & Hcells1 & Hfr & _).
    rewrite Hrun in Hrev by lia. inversion Hrev; subst b2 r. clear Hrev.
    destruct Hfr as (_ & (Hw' & Hh' & _ & _ & Hcells) & _ & Hin & _).
    intros c Hc Hrc.
    assert (Hc1 : in_bounds b1 c.1 c.2 = true).
    { unfold in_bounds in *. by rewrite <- Hw', <- Hh'. }
    assert (Hc0 : in_bounds b c.1 c.2 = true).
    { unfold in_bounds in *. by rewrite <- Hw, <- Hh. }
    destruct (Hcells c Hc1) as (_ & -> & _).
    destruct (Hcells1 c Hc0) as [Hr1 Hf1].
    destruct (revealed (cell_at b1 c)) eqn:Hr0.
    + rewrite Hf1. apply IH; [done|congruence].
    + destruct (region_eligible b1 x y c (Hin c Hc1 Hr0 Hrc)) as [->|(_ & ? & _)];
        [|done].
      destruct (Hcells1 (x, y) Hb) as [_ ->]. done.
  - pose proof (reachable_inv b Hreach) as (Hwf & _).
    destruct (in_bounds b x y) eqn:Hb.
    2:{ rewrite toggle_flag_out in Htf by done. by inversion Htf; subst. }
    destruct (revealed (cell_at b (x, y))) eqn:Hr.
    { rewrite toggle_flag_revealed in Htf by done. by inversion Htf; subst. }
    destruct (toggle_flag_hidden b x y Hwf Hb Hr)
      as (b2 & Htf2 & _ & Hw & Hh & _ & _ & _ & Hcell & Ho).
    rewrite Htf2 in Htf. inversion Htf; subst b2 r. clear Htf.
    intros c Hc Hrc.
    assert (Hc0 : in_bounds b c.1 c.2 = true).
    { unfold in_bounds in *. by rewrite <- Hw, <- Hh. }
    destruct (decide (c = (x, y))) as [->|Hne].
    + rewrite Hcell in Hrc. simpl in Hrc. congruence.
    + rewrite Ho in * by done. by apply IH.
Qed.

Lemma placement_safe (b b1 : Board) (sx sy : Z) (rnd : list coord) :
  board_inv b → mines_placed b = false → in_bounds b sx sy = true →
  random_sample (mine_candidates b sx sy) (mine_target b) rnd →
  place_mines_excluding b sx sy rnd = Ok b1 →
  mine (cell_at b1 (sx, sy)) = false.
Proof.
  intros Hinv Hnp Hb Hsample Hplace. pose proof Hinv as (Hwf & _).
  destruct (mine_candidates_spec b sx sy Hwf Hb) as (Hnd & Hcand & _ & _).
  destruct (random_sample_spec _ _ _ Hnd Hsample) as (_ & Hsub & _).
  destruct (placement_on_fresh b sx sy rnd Hinv Hnp Hb Hsample)
    as (b' & Hplace' & _ & _ & _ & _ & _ & Hmines & _).
  assert (b' = b1) as -> by congruence.
  destruct (mine (cell_at b1 (sx, sy))) eqn:Hm; [|done].
  apply (Hmines (sx, sy) Hb) in Hm.
  destruct (Hcand _ (Hsub _ Hm)) as [_ Hne]. done.
Qed.

(** X1. On every reachable board the grid has [h] rows of [w] cells, the
    target is within [1 .. w*h - 1], [revealed_count] is the number of
    revealed cells, and no cell is both revealed and flagged. *)
Theorem reachable_board_is_consistent (b : Board) :
  reachable b →
  wf_board b = true ∧ 0 < mine_target b ≤ w b * h b - 1
  ∧ revealed_count b = count_cells revealed b
  ∧ ∀ c, in_bounds b c.1 c.2 = true → revealed (cell_at b c) = true →
         flagged (cell_at b c) = false.
Proof.
  intros Hreach. destruct (reachable_inv b Hreach) as (Hwf & [Hpos Hmax] & _).
  split; [done|]. split; [done|]. split.
  - by apply reachable_counts.
  - by apply reachable_revealed_unflagged.
Qed.

Lemma reachable_board_is_consistent_witness :
  revealed_count ex_played = count_cells revealed ex_played.
Proof. apply (reachable_board_is_consistent ex_played ex_played_reachable). Defined.

(** X2. On a reachable board, as long as the mines are not placed no cell is
    a mine, none is revealed, every count is 0 and [revealed_count] is 0;
    once they are placed, and through every later reveal and flag toggle,
    exactly [mine_target] cells are mines and the count of every cell that
    is not a mine is the number of its in-bounds Moore neighbours that are
    mines ([mined_neighbors]). *)
Theorem reachable_mines_and_counts (b : Board) :
  reachable b →
  (mines_placed b = false →
   revealed_count b = 0
   ∧ ∀ c, in_bounds b c.1 c.2 = true →
          mine (cell_at b c) = false ∧ revealed (cell_at b c) = false
          ∧ adj (cell_at b c) = 0)
  ∧ (mines_placed b = true →
     count_cells mine b = mine_target b
     ∧ ∀ c, in_bounds b c.1 c.2 = true → mine (cell_at b c) = false →
            adj (cell_at b c) = mined_neighbors b c).
Proof.
  intros Hreach. destruct (reachable_layout b Hreach) as [H0 H1].
  split; [|done]. intros Hnp. split; [|by apply H0].
  rewrite (reachable_counts b Hreach). unfold count_cells.
  rewrite (length_filter_iff _ (λ _, False)), length_filter_False; [done|].
  intros c Hc%elem_of_all_coords. destruct (H0 Hnp c Hc) as (_ & -> & _). done.
Qed.

Lemma reachable_mines_and_counts_witness :
  count_cells mine ex_played = mine_target ex_played
  ∧ ∀ c, in_bounds ex_played c.1 c.2 = true → mine (cell_at ex_played c) = false →
         adj (cell_at ex_played c) = mined_neighbors ex_played c.
Proof.
  apply (proj2 (reachable_mines_and_counts ex_played ex_played_reachable)).
  reflexivity.
Defined.

(** ** The win predicate *)

Lemma length_filter_disjoint {A : Type} (P Q : A → Prop)
    `{!∀ x, Decision (P x), !∀ x, Decision (Q x)} (l : list A) :
  (∀ a, a ∈ l → P a → Q a → False) →
  (length (filter P l) + length (filter Q l) ≤ length l)%nat
  ∧ ((length (filter P l) + length (filter Q l) = length l)%nat
     ↔ ∀ a, a ∈ l → P a ∨ Q a).
Proof.
  induction l as [|a l IH]; intros Hdis.
  { split; [done|]. split; [|done]. intros _ a Ha. by apply elem_of_nil in Ha. }
  destruct IH as [Hle Hiff].
  { intros x Hx. apply Hdis. by right. }
  assert (Ha : P a → Q a → False) by (apply Hdis; left).
  rewrite !filter_cons.
  destruct (decide (P a)) as [HP|HP], (decide (Q a)) as [HQ|HQ]; simpl;
    try tauto.
  - split; [lia|]. split.
    + intros Hlen x [->|Hx]%elem_of_cons; [by left|]. apply Hiff; [lia|done].
    + intros Hall. f_equal. apply Hiff. intros x Hx. apply Hall. by right.
  - split; [lia|]. split.
    + intros Hlen x [->|Hx]%elem_of_cons; [by right|]. apply Hiff; [lia|done].
    + intros Hall. assert (length (filter P l) + length (filter Q l)
                           = length l)%nat; [|lia].
      apply Hiff. intros x Hx. apply Hall. by right.
  - split; [lia|]. split; [lia|].
    intros Hall. destruct (Hall a); [left|done|done].
Qed.

(** X3. On a reachable board on which no mine is revealed,
    [all_safe_revealed] is true exactly when every cell that is not a mine
    is revealed. *)
Theorem win_iff_every_safe_cell_revealed (b : Board) :
  reachable b →
  (∀ c, in_bounds b c.1 c.2 = true → revealed (cell_at b c) = true →
        mine (cell_at b c) = false) →
  (all_safe_revealed b = true
   ↔ ∀ c, in_bounds b c.1 c.2 = true → mine (cell_at b c) = false →
          revealed (cell_at b c) = true).
Proof.
  intros Hreach Hnomine.
  destruct (reachable_inv b Hreach) as (Hwf & [Hpos Hmax] & _).
  pose proof (wf_board_dims b Hwf) as [Hw Hh].
  destruct (reachable_layout b Hreach) as [H0 H1].
  pose proof (reachable_counts b Hreach) as Hcount.
  unfold all_safe_revealed. rewrite Z.eqb_eq, Hcount.
  destruct (mines_placed b) eqn:Hp.
  - destruct (H1 eq_refl) as [Hmines _]. rewrite <- Hmines.
    rewrite <- (length_all_coords b) by lia. unfold count_cells.
    destruct (length_filter_disjoint
                (λ c, revealed (cell_at b c) = true)
                (λ c, mine (cell_at b c) = true) (all_coords b))
      as [_ Hiff].
    { intros c Hc%elem_of_all_coords Hr Hm. rewrite (Hnomine c Hc Hr) in Hm.
      done. }
    split.
    + intros Heq c Hc Hm.
      assert (Hsum :
        (length (filter (λ c, revealed (cell_at b c) = true) (all_coords b))
         + length (filter (λ c, mine (cell_at b c) = true) (all_coords b))
         = length (all_coords b))%nat) by lia.
      destruct (proj1 Hiff Hsum c) as [?|?];
        [by apply elem_of_all_coords|done|congruence].
    + intros Hall.
      assert (length (filter (λ c, revealed (cell_at b c) = true) (all_coords b))
              + length (filter (λ c, mine (cell_at b c) = true) (all_coords b))
              = length (all_coords b))%nat; [|lia].
      apply Hiff. intros c Hc%elem_of_all_coords.
      destruct (mine (cell_at b c)) eqn:Hm; [by right|left]. by apply Hall.
  - assert (Hzero : count_cells revealed b = 0).
    { unfold count_cells.
      rewrite (length_filter_iff _ (λ _, False)), length_filter_False; [done|].
      intros c Hc%elem_of_all_coords. destruct (H0 eq_refl c Hc) as (_ & -> & _).
      done. }
    rewrite Hzero. split; [lia|]. intros Hall. exfalso.
    assert (Hin : in_bounds b (0, 0).1 (0, 0).2 = true).
    { apply in_bounds_spec. simpl. lia. }
    destruct (H0 eq_refl (0, 0) Hin) as (Hm & Hr & _).
    rewrite (Hall (0, 0) Hin Hm) in Hr. done.
Qed.

Lemma win_iff_every_safe_cell_revealed_witness :
  all_safe_revealed ex_mid = true
  ↔ ∀ c, in_bounds ex_mid c.1 c.2 = true → mine (cell_at ex_mid c) = false →
         revealed (cell_at ex_mid c) = true.
Proof.
  apply (win_iff_every_safe_cell_revealed ex_mid ex_mid_reachable).
  intros c Hc%in_bounds_spec. destruct c as [x y]. simpl in Hc.
  assert (Hcases : (x = 0 ∨ x = 1 ∨ x = 2) ∧ (y = 0 ∨ y = 1 ∨ y = 2)) by lia.
  destruct Hcases as [ [ -> | [ -> | -> ] ] [ -> | [ -> | -> ] ] ];
    vm_compute; congruence.
Defined.

(** ** What [reveal] returns and what it changes *)

(** X4. On a reachable board [reveal] returns a result; [ok] is true
    exactly when the cell is on the board and not flagged, and otherwise the
    board is returned as it was; [hit] is true exactly when the cell is on
    the board, not flagged, not yet revealed and a mine, which needs the
    mines to be placed already (the reveal that places them never hits);
    and after a reveal that returned [ok] the mines are placed. *)
Theorem reveal_outcome (b : Board) (x y : Z) (rnd : list coord) :
  reachable b →
  (mines_placed b = false →
   random_sample (mine_candidates b x y) (mine_target b) rnd) →
  ∃ b' ok hit,
    reveal b x y rnd = Ok (b', (ok, hit))
    ∧ (ok = true
       ↔ in_bounds b x y = true ∧ flagged (cell_at b (x, y)) = false)
    ∧ (ok = false → b' = b)
    ∧ (hit = true
       ↔ in_bounds b x y = true ∧ flagged (cell_at b (x, y)) = false
         ∧ revealed (cell_at b (x, y)) = false
         ∧ mines_placed b = true ∧ mine (cell_at b (x, y)) = true)
    ∧ (ok = true → mines_placed b' = true
                   ∧ revealed (cell_at b' (x, y)) = true).
Proof.
  intros Hreach Hrnd.
  pose proof (reachable_inv b Hreach) as Hinv.
  pose proof Hinv as (Hwf & _ & Hfresh). unfold reveal.
  destruct (in_bounds b x y) eqn:Hb.
  2:{ exists b, false, false. rewrite reveal_fuel_out by done.
      split_and!; try done; intuition congruence. }
  destruct (flagged (cell_at b (x, y))) eqn:Hf.
  { exists b, false, false. rewrite reveal_fuel_flagged by done.
    split_and!; try done; intuition congruence. }
  destruct (revealed (cell_at b (x, y))) eqn:Hr.
  { exists b, true, false. rewrite reveal_fuel_revealed by done.
    split_and!; try done; try (intuition congruence).
    intros _. split; [|done].
    destruct (mines_placed b) eqn:Hp; [done|].
    destruct (Hfresh eq_refl (x, y) Hb) as [_ Hnr]. congruence. }
  destruct (reveal_hidden_ok b x y rnd Hinv Hb Hrnd Hf Hr)
    as (b1 & b' & Hpl & Hrun & _ & Hp1 & _ & _ & _ & _ & _ & Hfr & Hrev & _).
  exists b', true, (mine (cell_at b1 (x, y))).
  rewrite Hrun by lia.
  destruct Hfr as (_ & (_ & _ & _ & Hp' & _) & _).
  split_and!; try done.
  - unfold placed in Hpl. destruct (mines_placed b) eqn:Hp.
    + subst b1. intuition congruence.
    + rewrite (placement_safe b b1 x y rnd Hinv Hp Hb (Hrnd eq_refl) Hpl).
      intuition congruence.
  - intros _. split; [congruence|done].
Qed.

Lemma reveal_outcome_witness :
  ∃ b' ok hit,
    reveal ex_flagged 2 2 [(0, 0)] = Ok (b', (ok, hit))
    ∧ (ok = true
       ↔ in_bounds ex_flagged 2 2 = true
         ∧ flagged (cell_at ex_flagged (2, 2)) = false).
Proof.
  destruct (reveal_outcome ex_flagged 2 2 [(0, 0)] ex_flagged_reachable)
    as (b' & ok & hit & Hrev & Hok & _).
  { intros _. split; [reflexivity|]. apply (bool_decide_unpack _).
    reflexivity. }
  exists b', ok, hit. by split.
Defined.

(** X5. On a reachable board whose mines are placed, whatever [reveal]
    returns: the dimensions, the target, the mines, the counts and the flags
    are as before; a revealed cell stays revealed; every cell the call
    reveals was not flagged, and is not a mine unless it is the cell the
    call was made on; and [revealed_count] grows by the number of cells the
    call reveals. *)
Theorem reveal_only_reveals (b b' : Board) (x y : Z) (rnd : list coord)
    (r : bool * bool) :
  reachable b → mines_placed b = true →
  reveal b x y rnd = Ok (b', r) →
  same_but_revealed b b'
  ∧ (∀ c, in_bounds b c.1 c.2 = true →
          revealed (cell_at b c) = true → revealed (cell_at b' c) = true)
  ∧ (∀ c, in_bounds b c.1 c.2 = true →
          revealed (cell_at b c) = false → revealed (cell_at b' c) = true →
          flagged (cell_at b c) = false
          ∧ (mine (cell_at b c) = true → c = (x, y)))
  ∧ revealed_count b' = revealed_count b + newly_revealed b b'.
Proof.
  intros Hreach Hp Hrev.
  pose proof (reachable_inv b Hreach) as Hinv. pose proof Hinv as (Hwf & _).
  assert (Hsame : b' = b →
    same_but_revealed b b'
    ∧ (∀ c, in_bounds b c.1 c.2 = true →
            revealed (cell_at b c) = true → revealed (cell_at b' c) = true)
    ∧ (∀ c, in_bounds b c.1 c.2 = true →
            revealed (cell_at b c) = false → revealed (cell_at b' c) = true →
            flagged (cell_at b c) = false
            ∧ (mine (cell_at b c) = true → c = (x, y)))
    ∧ revealed_count b' = revealed_count b + newly_revealed b b').
  { intros ->.
    destruct (reveal_frame_refl b x y Hwf) as (_ & Hs & Hmo & _ & Hcn).
    split_and!; try done. intros c _ Hr0 Hr1. congruence. }
  unfold reveal in Hrev.
  destruct (in_bounds b x y) eqn:Hb.
  2:{ rewrite reveal_fuel_out in Hrev by done. apply Hsame. congruence. }
  destruct (flagged (cell_at b (x, y))) eqn:Hf.
  { rewrite reveal_fuel_flagged in Hrev by done. apply Hsame. congruence. }
  destruct (revealed (cell_at b (x, y))) eqn:Hr.
  { rewrite reveal_fuel_revealed in Hrev by done. apply Hsame. congruence. }
  destruct (reveal_hidden_ok b x y rnd Hinv Hb) as
    (b1 & b2 & Hpl & Hrun & _ & _ & _ & _ & _ & _ & _ & Hfr & _); try done.
  { intros Hnp. congruence. }
  unfold placed in Hpl. rewrite Hp in Hpl. subst b1.
  rewrite Hrun in Hrev by lia. inversion Hrev; subst b2 r. clear Hrev.
  destruct Hfr as (_ & Hsb & Hmono & Hin & Hcount).
  split_and!; try done.
  intros c Hc Hr0 Hr'.
  destruct (region_eligible b x y c (Hin c Hc Hr0 Hr')) as [->|(_ & ? & ?)].
  - done.
  - split; [done|congruence].
Qed.

Lemma reveal_only_reveals_witness :
  same_but_revealed ex_small_1 ex_small_2
  ∧ revealed_count ex_small_2
    = revealed_count ex_small_1 + newly_revealed ex_small_1 ex_small_2.
Proof.
  destruct (reveal_only_reveals ex_small_1 ex_small_2 1 0 [] (true, false)
              ex_small_1_reachable eq_refl eq_refl) as (Hs & _ & _ & Hc).
  by split.
Defined.

(** X6. On a well-formed board whose mines are placed, [reveal] on a hidden
    cell that is not flagged, not a mine and whose count is not 0 returns
    [(True, False)], reveals that cell and no other, and adds one to
    [revealed_count]. *)
Theorem reveal_numbered_cell (b : Board) (x y : Z) (rnd : list coord) :
  wf_board b = true → mines_placed b = true → in_bounds b x y = true →
  flagged (cell_at b (x, y)) = false → revealed (cell_at b (x, y)) = false →
  mine (cell_at b (x, y)) = false → adj (cell_at b (x, y)) ≠ 0 →
  ∃ b', reveal b x y rnd = Ok (b', (true, false))
        ∧ revealed_count b' = revealed_count b + 1
        ∧ cell_at b' (x, y) = set_revealed true (cell_at b (x, y))
        ∧ ∀ c, in_bounds b c.1 c.2 = true → c ≠ (x, y) →
               cell_at b' c = cell_at b c.
Proof.
  intros Hwf Hp Hb Hf Hr Hm Hnz.
  destruct (reveal_marked_ok b x y Hwf Hb Hr)
    as (b' & Hrun & _ & _ & Hstep & _).
  destruct (Hstep (or_intror Hnz)) as (_ & _ & _ & _ & _ & Hc & Hcell & Hother).
  exists b'. split_and!; try done.
  unfold reveal. rewrite (reveal_fuel_hidden _ b x y rnd Hwf Hb Hf Hr).
  rewrite Hp. simpl. rewrite <- Hm. by apply Hrun.
Qed.

Lemma reveal_numbered_cell_witness :
  ∃ b', reveal ex_small_1 1 0 [] = Ok (b', (true, false))
        ∧ revealed_count b' = revealed_count ex_small_1 + 1.
Proof.
  destruct (reveal_numbered_cell ex_small_1 1 0 [])
    as (b' & Hrev & Hc & _); try reflexivity.
  { vm_compute. discriminate. }
  exists b'. by split.
Defined.

(** ** Flags *)

Lemma upd_cell_alter (wd ht : Z) (g : list (list Cell)) (x y : Z)
    (f : Cell → Cell) :
  shaped wd ht g → 0 ≤ x < wd → 0 ≤ y < ht →
  upd_cell g x y f = Ok (alter (alter f (Z.to_nat x)) (Z.to_nat y) g).
Proof.
  intros Hs Hx Hy.
  destruct (shaped_lookup _ _ _ _ _ Hs Hx Hy) as (row & cl & Hrow & Hcl & Hlr).
  destruct Hs as [Hlen _].
  unfold upd_cell. rewrite py_pos_nonneg by lia. simpl.
  rewrite (py_get_nonneg g y row) by (lia || done). simpl.
  by rewrite py_pos_nonneg by lia.
Qed.

Lemma alter_alter {A : Type} (f g : A → A) (l : list A) (i : nat) :
  alter f i (alter g i l) = alter (f ∘ g) i l.
Proof.
  revert i. induction l as [|a l IH]; intros [|i]; f_equal/=; auto.
Qed.

(** X7. On a well-formed board [toggle_flag] returns [True] exactly when the
    cell is on the board and hidden; it then flips the flag of that cell and
    changes nothing else (no other cell, no other field of that cell, not
    [mines_placed], not [revealed_count]); otherwise it returns the board as
    it was. *)
Theorem toggle_flag_outcome (b : Board) (x y : Z) :
  wf_board b = true →
  ∃ b' r,
    toggle_flag b x y = Ok (b', r)
    ∧ (r = true
       ↔ in_bounds b x y = true ∧ revealed (cell_at b (x, y)) = false)
    ∧ (r = false → b' = b)
    ∧ (r = true →
       w b' = w b ∧ h b' = h b ∧ mine_target b' = mine_target b
       ∧ mines_placed b' = mines_placed b
       ∧ revealed_count b' = revealed_count b
       ∧ cell_at b' (x, y)
         = set_flagged (negb (flagged (cell_at b (x, y)))) (cell_at b (x, y))
       ∧ ∀ c, in_bounds b c.1 c.2 = true → c ≠ (x, y) →
              cell_at b' c = cell_at b c).
Proof.
  intros Hwf.
  destruct (in_bounds b x y) eqn:Hb.
  2:{ exists b, false. rewrite toggle_flag_out by done.
      split_and!; try done; intuition congruence. }
  destruct (revealed (cell_at b (x, y))) eqn:Hr.
  { exists b, false. rewrite toggle_flag_revealed by done.
    split_and!; try done; intuition congruence. }
  destruct (toggle_flag_hidden b x y Hwf Hb Hr)
    as (b' & Htf & _ & Hw & Hh & Ht & Hp & Hc & Hcell & Ho).
  exists b', true. split_and!; try done.
Qed.

Lemma toggle_flag_outcome_witness :
  ∃ b' r, toggle_flag ex_played 0 0 = Ok (b', r)
          ∧ (r = true
             ↔ in_bounds ex_played 0 0 = true
               ∧ revealed (cell_at ex_played (0, 0)) = false).
Proof.
  destruct (toggle_flag_outcome ex_played 0 0 eq_refl)
    as (b' & r & Htf & Hr & _).
  exists b', r. by split.
Defined.

(** X8. Toggling the flag of a hidden cell twice gives back the very board
    one started from. *)
Theorem toggle_flag_twice (b : Board) (x y : Z) :
  wf_board b = true → in_bounds b x y = true →
  revealed (cell_at b (x, y)) = false →
  ∃ b1, toggle_flag b x y = Ok (b1, true)
        ∧ toggle_flag b1 x y = Ok (b, true).
Proof.
  intros Hwf Hb Hr.
  destruct (toggle_flag_hidden b x y Hwf Hb Hr)
    as (b1 & Htf & Hwf1 & Hw & Hh & _ & _ & _ & Hcell & _).
  exists b1. split; [done|].
  assert (Hb1 : in_bounds b1 x y = true).
  { unfold in_bounds in *. by rewrite Hw, Hh. }
  assert (Hr1 : revealed (cell_at b1 (x, y)) = false) by by rewrite Hcell.
  pose proof Hwf as (_ & _ & Hs)%wf_board_spec.
  pose proof Hb as [Hx Hy]%in_bounds_spec.
  assert (Hb1eq : b1 = with_grid b
            (alter (alter (λ c, set_flagged (negb (flagged c)) c) (Z.to_nat x))
               (Z.to_nat y) (grid b))).
  { unfold toggle_flag in Htf. rewrite Hb in Htf. simpl in Htf.
    rewrite (get_cell_xy b x y Hwf Hb) in Htf. simpl in Htf. rewrite Hr in Htf.
    rewrite (upd_cell_alter (w b) (h b)) in Htf by done. simpl in Htf.
    congruence. }
  pose proof Hwf1 as (_ & _ & Hs1)%wf_board_spec.
  unfold toggle_flag. rewrite Hb1. simpl.
  rewrite (get_cell_xy b1 x y Hwf1 Hb1). simpl. rewrite Hr1.
  rewrite (upd_cell_alter (w b1) (h b1)) by (done || lia). simpl.
  f_equal. f_equal. subst b1. destruct b as [bw bh bt bg bp bc].
  unfold with_grid. simpl. f_equal.
  rewrite alter_alter. apply list_alter_id. intros row. simpl.
  rewrite alter_alter. apply list_alter_id.
  intros [m r f a]. unfold set_flagged. simpl. by rewrite negb_involutive.
Qed.

Lemma toggle_flag_twice_witness :
  ∃ b1, toggle_flag ex_fresh 0 0 = Ok (b1, true)
        ∧ toggle_flag b1 0 0 = Ok (ex_fresh, true).
Proof. apply (toggle_flag_twice ex_fresh 0 0); reflexivity. Defined.

(** ** Neighbours *)

(** X9. [neighbors] yields exactly the cells of the board other than
    [(x, y)] whose two coordinates differ from it by at most one, each of
    them once, so at most eight. *)
Theorem neighbors_are_the_adjacent_cells (b : Board) (x y : Z) :
  (∀ n, n ∈ neighbors b x y
        ↔ in_bounds b n.1 n.2 = true ∧ n ≠ (x, y)
          ∧ x - 1 ≤ n.1 ≤ x + 1 ∧ y - 1 ≤ n.2 ≤ y + 1)
  ∧ NoDup (neighbors b x y)
  ∧ (length (neighbors b x y) ≤ 8)%nat.
Proof.
  split; [|split].
  - intros n. apply elem_of_neighbors.
  - apply NoDup_neighbors.
  - apply length_neighbors.
Qed.

(** X10. Being a neighbour is symmetric between cells of the board, and a
    cell that is not on the border has exactly eight neighbours. *)
Theorem neighbors_symmetric (b : Board) (x y : Z) :
  in_bounds b x y = true →
  (∀ n, n ∈ neighbors b x y
        ↔ in_bounds b n.1 n.2 = true ∧ (x, y) ∈ neighbors b n.1 n.2)
  ∧ (0 < x < w b - 1 → 0 < y < h b - 1 →
     length (neighbors b x y) = 8%nat).
Proof.
  intros Hb. split.
  - intros n. rewrite !elem_of_neighbors. simpl. destruct n as [nx ny]. simpl.
    split.
    + intros (Hn & Hne & Hx & Hy). split_and!; try done; try lia.
    + intros (Hn & _ & Hne & Hx & Hy). split_and!; try done; try lia.
  - intros Hx Hy. rewrite neighbors_unfold.
    assert (Hin : ∀ dx dy, -1 ≤ dx ≤ 1 → -1 ≤ dy ≤ 1 →
                           in_bounds b (x + dx) (y + dy) = true).
    { intros dx dy Hdx Hdy. apply in_bounds_spec. lia. }
    rewrite !Hin by lia. done.
Qed.

Lemma neighbors_symmetric_witness :
  length (neighbors ex_fresh 1 1) = 8%nat.
Proof.
  apply (proj2 (neighbors_symmetric ex_fresh 1 1 eq_refl)); simpl; lia.
Defined.

(** X11. On a reachable board the count of a cell that is not a mine is
    between 0 and 8. *)
Theorem counts_are_single_digits (b : Board) (c : coord) :
  reachable b → in_bounds b c.1 c.2 = true → mine (cell_at b c) = false →
  0 ≤ adj (cell_at b c) ≤ 8.
Proof.
  intros Hreach Hc Hm. destruct (reachable_layout b Hreach) as [H0 H1].
  destruct (mines_placed b) eqn:Hp.
  - destruct (H1 eq_refl) as [_ Hadj]. rewrite (Hadj c Hc Hm).
    rewrite mined_neighbors_unfold.
    pose proof (length_neighbors b c.1 c.2) as Hlen.
    pose proof (length_filter (λ n, mine (cell_at b n) = true)
                  (neighbors b c.1 c.2)) as Hf.
    lia.
  - destruct (H0 eq_refl c Hc) as (_ & _ & ->). lia.
Qed.

Lemma counts_are_single_digits_witness :
  0 ≤ adj (cell_at ex_played (1, 1)) ≤ 8.
Proof.
  apply (counts_are_single_digits ex_played (1, 1) ex_played_reachable);
    reflexivity.
Defined.
(** * The application *)

Lemma in_bounds_dims (b b' : Board) (x y : Z) :
  w b' = w b → h b' = h b → in_bounds b' x y = in_bounds b x y.
Proof. intros Hw Hh. unfold in_bounds. by rewrite Hw, Hh. Qed.

(** A reveal either hits, and then a revealed mine is on the board, or
    reveals no mine. *)
Lemma reveal_game_step (b : Board) (x y : Z) (rnd : list coord) :
  board_inv b →
  (mines_placed b = false →
   random_sample (mine_candidates b x y) (mine_target b) rnd) →
  ∃ b' ok hit,
    reveal b x y rnd = Ok (b', (ok, hit))
    ∧ w b' = w b ∧ h b' = h b
    ∧ (ok = false → b' = b)
    ∧ (hit = true → mine_revealed b')
    ∧ (hit = false → no_mine_revealed b → no_mine_revealed b').
Proof.
  intros Hinv Hrnd. pose proof Hinv as (Hwf & _ & Hfresh). unfold reveal.
  destruct (in_bounds b x y) eqn:Hb.
  2:{ exists b, false, false. rewrite reveal_fuel_out by done. by split_and!. }
  destruct (flagged (cell_at b (x, y))) eqn:Hf.
  { exists b, false, false. rewrite reveal_fuel_flagged by done.
    by split_and!. }
  destruct (revealed (cell_at b (x, y))) eqn:Hr.
  { exists b, true, false. rewrite reveal_fuel_revealed by done.
    by split_and!. }
  destruct (reveal_hidden_ok b x y rnd Hinv Hb Hrnd Hf Hr)
    as (b1 & b' & Hpl & Hrun & Hwf1 & Hp1 & Hw1 & Hh1 & _ & _ & Hc1 & Hfr
        & Hrev & _).
  destruct Hfr as (_ & (Hw' & Hh' & _ & _ & Hsame) & Hmono & Hin & _).
  exists b', true, (mine (cell_at b1 (x, y))). rewrite Hrun by lia.
  assert (Hb1 : ∀ c, in_bounds b1 c.1 c.2 = in_bounds b c.1 c.2).
  { intros c. by apply in_bounds_dims. }
  assert (Hb' : ∀ c, in_bounds b' c.1 c.2 = in_bounds b c.1 c.2).
  { intros c. apply in_bounds_dims; congruence. }
  split; [done|]. split; [congruence|]. split; [congruence|].
  split; [done|]. split.
  - intros Hm. exists (x, y). split; [by rewrite Hb'|]. split; [done|].
    destruct (Hsame (x, y)) as (-> & _); [by rewrite Hb1|done].
  - intros Hm Hnmr c Hc Hrc. rewrite Hb' in Hc.
    destruct (Hsame c) as (-> & _); [by rewrite Hb1|].
    destruct (revealed (cell_at b1 c)) eqn:Hr1.
    + destruct (Hc1 c Hc) as [Hrr _]. rewrite Hr1 in Hrr.
      unfold placed in Hpl. destruct (mines_placed b) eqn:Hp.
      * subst b1. by apply Hnmr.
      * destruct (Hfresh eq_refl c Hc) as [_ ?]. congruence.
    + destruct (region_eligible b1 x y c) as [->|(_ & _ & ?)]; [|done..].
      apply Hin; [by rewrite Hb1|done..].
Qed.

Lemma chord_reveal_game_step (rnd : list coord) (ns : list coord) (b : Board) :
  reachable b → mines_placed b = true →
  (∀ n, n ∈ ns → in_bounds b n.1 n.2 = true) →
  ∃ b' hit,
    chord_reveal b ns rnd = Ok (b', hit)
    ∧ reachable b' ∧ w b' = w b ∧ h b' = h b
    ∧ (hit = true → mine_revealed b')
    ∧ (hit = false → no_mine_revealed b → no_mine_revealed b').
Proof.
  revert b. induction ns as [|n ns IH]; intros b Hreach Hp Hin.
  { exists b, false. simpl. by split_and!. }
  pose proof (reachable_inv b Hreach) as Hinv. pose proof Hinv as (Hwf & _).
  assert (Hn : in_bounds b n.1 n.2 = true) by (apply Hin; left).
  assert (Hin' : ∀ m, m ∈ ns → in_bounds b m.1 m.2 = true).
  { intros m Hm. apply Hin. by right. }
  simpl. rewrite (get_cell_at b n Hwf Hn). simpl.
  destruct (negb (flagged (cell_at b n)) && negb (revealed (cell_at b n))).
  2:{ by apply IH. }
  destruct (reveal_game_step b n.1 n.2 rnd Hinv)
    as (b1 & ok & hit & Hrev & Hw & Hh & _ & Hhit & Hno).
  { intros ?. congruence. }
  rewrite Hrev. simpl.
  assert (Hreach1 : reachable b1).
  { eapply reach_reveal; [exact Hreach| |exact Hrev]. intros ?. congruence. }
  destruct hit.
  { exists b1, true. by split_and!. }
  destruct (reveal_placed b n.1 n.2 rnd Hinv Hp)
    as (b1' & r' & Hrev' & _ & Hp1 & _).
  assert (b1' = b1) as -> by congruence.
  destruct (IH b1 Hreach1 Hp1)
    as (b' & hit & Hrun & Hreach' & Hw' & Hh' & Hhit' & Hno').
  { intros m Hm. rewrite (in_bounds_dims b b1) by done. by apply Hin'. }
  exists b', hit. split; [done|]. split; [done|]. split; [congruence|].
  split; [congruence|]. split; [done|].
  intros Hf Hnmr. apply Hno'; [done|]. by apply Hno.
Qed.

(** *** The invariant of the application *)

Lemma app_inv_fresh (width height mines : Z) (b : Board) :
  Board_init width height mines = Ok b → app_inv (mkApp (Some b) false).
Proof.
  intros Hinit b0 [= <-]. simpl. split; [by eapply reach_init|].
  split; [|done]. intros _. split.
  - intros c Hc _. by rewrite (fresh_board_cell _ _ _ _ c Hinit Hc).
  - apply Board_init_Ok in Hinit as (Hw & Hh & Hm & ->).
    unfold all_safe_revealed. apply Z.eqb_neq. simpl. lia.
Qed.

Lemma app_inv_new_game (app : App) (width height mines : Z) :
  app_inv app → app_inv (new_game app width height mines).1.
Proof.
  intros Hinv. unfold new_game.
  destruct (Board_init width height mines) as [b| |] eqn:Hinit; simpl;
    [|done..].
  by eapply app_inv_fresh.
Qed.

Lemma app_inv_reset_game (app : App) : app_inv app → app_inv (reset_game app).1.
Proof.
  intros Hinv. unfold reset_game. destruct (board app); [|done].
  by apply app_inv_new_game.
Qed.

Lemma app_inv_new_game_from_inputs (app : App) (inp : Inputs) :
  app_inv app → app_inv (new_game_from_inputs app inp).1.
Proof.
  intros Hinv. unfold new_game_from_inputs.
  destruct (negb _).
  - destruct (get_difficulty _); [|done..]. by apply app_inv_new_game.
  - destruct (width_var inp); [|done]. destruct (height_var inp); [|done].
    destruct (mines_var inp); [|done]. by apply app_inv_new_game.
Qed.

Lemma app_inv_ended (b b' : Board) (hit : bool) :
  reachable b' →
  (hit = true → mine_revealed b') →
  (hit = false → no_mine_revealed b') →
  app_inv (if hit then mkApp (Some b') true
           else if all_safe_revealed b' then mkApp (Some b') true
                else mkApp (Some b') false).
Proof.
  intros Hreach Hhit Hno. destruct hit.
  { intros b0 [= <-]. simpl. split; [done|]. split; [done|]. intros _.
    left. by apply Hhit. }
  destruct (all_safe_revealed b') eqn:Hall.
  - intros b0 [= <-]. simpl. split; [done|]. split; [done|]. intros _.
    by right.
  - intros b0 [= <-]. simpl. split; [done|]. split; [|done]. intros _.
    split; [by apply Hno|done].
Qed.

Lemma app_inv_on_chord (app app' : App) (b : Board) (x y : Z)
    (rnd : list coord) (dlg : option dialog) :
  app_inv app → board app = Some b → in_bounds b x y = true →
  on_chord app x y rnd = Ok (app', dlg) → app_inv app'.
Proof.
  intros Hinv Hboard Hb Hrun. unfold on_chord in Hrun.
  destruct (game_over app) eqn:Hgo; [by inversion Hrun; subst|].
  rewrite Hboard in Hrun.
  destruct (Hinv b Hboard) as (Hreach & Hrunning & _).
  destruct (Hrunning Hgo) as [Hnmr _].
  pose proof (reachable_inv b Hreach) as Hbinv.
  pose proof Hbinv as (Hwf & _ & Hfresh).
  rewrite (get_cell_xy b x y Hwf Hb) in Hrun. simpl in Hrun.
  destruct (revealed (cell_at b (x, y))) eqn:Hr; simpl in Hrun;
    [|by inversion Hrun; subst].
  destruct (adj (cell_at b (x, y)) <=? 0); simpl in Hrun;
    [by inversion Hrun; subst|].
  assert (Hns : ∀ n, n ∈ neighbors b x y → in_bounds b n.1 n.2 = true).
  { intros n Hn. by eapply neighbors_in_bounds. }
  rewrite (count_flagged_ok b _ Hwf Hns) in Hrun. simpl in Hrun.
  destruct (negb _); [by inversion Hrun; subst|].
  assert (Hp : mines_placed b = true).
  { destruct (mines_placed b) eqn:Hp; [done|].
    destruct (Hfresh eq_refl (x, y) Hb) as [_ ?]. congruence. }
  destruct (chord_reveal_game_step rnd (neighbors b x y) b Hreach Hp Hns)
    as (b' & hit & Hch & Hreach' & _ & _ & Hhit & Hno).
  rewrite Hch in Hrun. simpl in Hrun.
  pose proof (app_inv_ended b b' hit Hreach' Hhit) as Hend.
  destruct hit; [|destruct (all_safe_revealed b')]; inversion Hrun; subst;
    apply Hend; intros ?; by apply Hno.
Qed.

Lemma app_inv_on_left_click (app app' : App) (b : Board) (x y : Z)
    (rnd : list coord) (dlg : option dialog) :
  app_inv app → board app = Some b → in_bounds b x y = true →
  (mines_placed b = false →
   random_sample (mine_candidates b x y) (mine_target b) rnd) →
  on_left_click app x y rnd = Ok (app', dlg) → app_inv app'.
Proof.
  intros Hinv Hboard Hb Hrnd Hrun. unfold on_left_click in Hrun.
  destruct (game_over app) eqn:Hgo; [by inversion Hrun; subst|].
  rewrite Hboard in Hrun.
  destruct (Hinv b Hboard) as (Hreach & Hrunning & _).
  destruct (Hrunning Hgo) as [Hnmr Hnall].
  pose proof (reachable_inv b Hreach) as Hbinv.
  pose proof Hbinv as (Hwf & _).
  rewrite (get_cell_xy b x y Hwf Hb) in Hrun. simpl in Hrun.
  destruct (reveal_game_step b x y rnd Hbinv Hrnd)
    as (b' & ok & hit & Hrev & Hw & Hh & Hsame & Hhit & Hno).
  rewrite Hrev in Hrun. simpl in Hrun.
  assert (Hreach' : reachable b') by (by eapply reach_reveal).
  pose proof (reachable_inv b' Hreach') as (Hwf' & _).
  rewrite (get_cell_xy b' x y Hwf') in Hrun
    by (by rewrite (in_bounds_dims b b')).
  simpl in Hrun.
  destruct (negb ok && revealed (cell_at b' (x, y))
            && negb (mine (cell_at b' (x, y)))) eqn:Hchord.
  { destruct ok; [done|]. rewrite (Hsame eq_refl) in Hrun.
    eapply (app_inv_on_chord (mkApp (Some b) false)); [|done|exact Hb|exact Hrun].
    intros b0 [= <-]. simpl. by split_and!. }
  pose proof (app_inv_ended b b' hit Hreach' Hhit) as Hend.
  destruct hit; [|destruct (all_safe_revealed b')]; inversion Hrun; subst;
    apply Hend; intros ?; by apply Hno.
Qed.

Lemma app_inv_on_right_click (app app' : App) (b : Board) (x y : Z) :
  app_inv app → board app = Some b → in_bounds b x y = true →
  on_right_click app x y = Ok app' → app_inv app'.
Proof.
  intros Hinv Hboard Hb Hrun. unfold on_right_click in Hrun.
  destruct (game_over app) eqn:Hgo; [by inversion Hrun; subst|].
  rewrite Hboard in Hrun.
  destruct (Hinv b Hboard) as (Hreach & Hrunning & _).
  destruct (Hrunning Hgo) as [Hnmr Hnall].
  pose proof (reachable_inv b Hreach) as (Hwf & _).
  destruct (revealed (cell_at b (x, y))) eqn:Hr.
  { rewrite (toggle_flag_revealed b x y Hwf Hb Hr) in Hrun. simpl in Hrun.
    inversion Hrun; subst. intros b0 [= <-]. simpl. by split_and!. }
  destruct (toggle_flag_hidden b x y Hwf Hb Hr)
    as (b' & Htf & _ & Hw & Hh & Ht & _ & Hc & Hcell & Ho).
  rewrite Htf in Hrun. simpl in Hrun. inversion Hrun; subst.
  intros b0 [= <-]. simpl. split; [by eapply reach_toggle_flag|].
  split; [|done]. intros _. split.
  - intros c Hc'. rewrite (in_bounds_dims b b') in Hc' by done.
    destruct (decide (c = (x, y))) as [->|Hne].
    + rewrite Hcell. simpl. congruence.
    + rewrite (Ho c Hc' Hne). by apply Hnmr.
  - unfold all_safe_revealed in *. by rewrite Hw, Hh, Ht, Hc.
Qed.

Lemma reachable_app_inv (app : App) : reachable_app app → app_inv app.
Proof.
  induction 1 as [width height mines
                 | app inp _ IH
                 | app _ IH
                 | app app' b x y rnd dlg _ IH Hboard Hb Hrnd Hrun
                 | app app' b x y _ IH Hboard Hb Hrun
                 | app app' b x y rnd dlg _ IH Hboard Hb Hrun].
  - apply app_inv_new_game. by intros b.
  - by apply app_inv_new_game_from_inputs.
  - by apply app_inv_reset_game.
  - by eapply app_inv_on_left_click.
  - by eapply app_inv_on_right_click.
  - by eapply app_inv_on_chord.
Qed.

Lemma ex_app_reachable : reachable_app ex_app.
Proof. apply (rapp_init 3 3 1). Qed.

Lemma ex_app_flagged_reachable : reachable_app ex_app_flagged.
Proof.
  by apply (rapp_right_click ex_app ex_app_flagged ex_fresh 0 0
              ex_app_reachable).
Qed.

Lemma ex_app_played_reachable : reachable_app ex_app_played.
Proof.
  apply (rapp_left_click ex_app_flagged ex_app_played ex_flagged 2 2 [(0, 0)]
           (Some WinDialog) ex_app_flagged_reachable); try reflexivity.
  intros _. split; [reflexivity|]. apply (bool_decide_unpack _). reflexivity.
Qed.

(** X12. In every state of the application that has a board, the board is
    a reachable one, and [game_over] is set exactly when a revealed cell is
    a mine or [all_safe_revealed] holds; so while the game runs no mine is
    revealed. *)
Theorem game_over_iff_game_ended (app : App) (b : Board) :
  reachable_app app → board app = Some b →
  reachable b
  ∧ (game_over app = true ↔ mine_revealed b ∨ all_safe_revealed b = true)
  ∧ (game_over app = false → no_mine_revealed b).
Proof.
  intros Happ Hboard.
  destruct (reachable_app_inv app Happ b Hboard) as (Hreach & Hrun & Hend).
  split; [done|]. split.
  - split; [done|]. intros Hover.
    destruct (game_over app); [done|].
    destruct (Hrun eq_refl) as [Hnmr Hnall].
    destruct Hover as [(c & Hc & Hr & Hm)|Hall]; [|congruence].
    rewrite (Hnmr c Hc Hr) in Hm. done.
  - intros Hgo. by apply Hrun.
Qed.

Lemma game_over_iff_game_ended_witness :
  game_over ex_app_played = true
  ↔ mine_revealed ex_played ∨ all_safe_revealed ex_played = true.
Proof.
  apply (game_over_iff_game_ended ex_app_played ex_played
           ex_app_played_reachable eq_refl).
Defined.

(** X13. While the game runs, a left click on a cell of a reachable board
    is [reveal] on that cell followed by the end-of-game test: the board is
    the one [reveal] returns, [game_over] is set when [reveal] hit a mine or
    [all_safe_revealed] holds afterwards, the mine dialog having precedence
    over the win dialog.  The chord branch of the handler is never taken. *)
Theorem left_click_is_reveal (b : Board) (x y : Z) (rnd : list coord) :
  reachable b → in_bounds b x y = true →
  (mines_placed b = false →
   random_sample (mine_candidates b x y) (mine_target b) rnd) →
  ∃ b' ok hit,
    reveal b x y rnd = Ok (b', (ok, hit))
    ∧ on_left_click (mkApp (Some b) false) x y rnd
      = Ok (mkApp (Some b') (hit || all_safe_revealed b'),
            if hit then Some MineHitDialog
            else if all_safe_revealed b' then Some WinDialog else None).
Proof.
  intros Hreach Hb Hrnd.
  pose proof (reachable_inv b Hreach) as Hbinv. pose proof Hbinv as (Hwf & _).
  destruct (reveal_game_step b x y rnd Hbinv Hrnd)
    as (b' & ok & hit & Hrev & Hw & Hh & Hsame & _).
  exists b', ok, hit. split; [done|].
  assert (Hreach' : reachable b') by (by eapply reach_reveal).
  pose proof (reachable_inv b' Hreach') as (Hwf' & _).
  assert (Hb' : in_bounds b' x y = true) by (by rewrite (in_bounds_dims b b')).
  unfold on_left_click. simpl.
  rewrite (get_cell_xy b x y Hwf Hb). simpl. rewrite Hrev. simpl.
  rewrite (get_cell_xy b' x y Hwf' Hb'). simpl.
  assert (Hdead : negb ok && revealed (cell_at b' (x, y))
                  && negb (mine (cell_at b' (x, y))) = false).
  { destruct ok; [done|]. simpl. rewrite (Hsame eq_refl).
    destruct (revealed (cell_at b (x, y))) eqn:Hr; [|done]. exfalso.
    pose proof (reachable_revealed_unflagged b Hreach (x, y) Hb Hr) as Hf.
    unfold reveal in Hrev.
    rewrite (reveal_fuel_revealed _ b x y rnd Hwf Hb Hf Hr) in Hrev.
    congruence. }
  rewrite Hdead. destruct hit; [done|]. simpl.
  by destruct (all_safe_revealed b').
Qed.

Lemma left_click_is_reveal_witness :
  ∃ b' ok hit,
    reveal ex_fresh 2 2 [(0, 0)] = Ok (b', (ok, hit))
    ∧ on_left_click (mkApp (Some ex_fresh) false) 2 2 [(0, 0)]
      = Ok (mkApp (Some b') (hit || all_safe_revealed b'),
            if hit then Some MineHitDialog
            else if all_safe_revealed b' then Some WinDialog else None).
Proof.
  apply (left_click_is_reveal ex_fresh 2 2 [(0, 0)] ex_fresh_reachable eq_refl).
  intros _. split; [reflexivity|]. apply (bool_decide_unpack _). reflexivity.
Defined.

(** X14. New games.  [new_game] shows its error box exactly when the
    parameters are not those of a board, and then leaves the application as
    it was; otherwise the application holds the fresh board of these
    parameters and the game runs.  On a state of the application that has a
    board, Reset never shows an error: the game restarts on a fresh board
    of the same width, height and number of mines. *)
Theorem reset_game_restarts (app : App) (b : Board) :
  reachable_app app → board app = Some b →
  (∀ width height mines,
     (0 < width ∧ 0 < height ∧ 0 < mines ≤ width * height - 1 →
      ∃ b0, Board_init width height mines = Ok b0
            ∧ new_game app width height mines = (mkApp (Some b0) false, None))
     ∧ (¬ (0 < width ∧ 0 < height ∧ 0 < mines ≤ width * height - 1) →
        new_game app width height mines = (app, Some NewGameErrorBox)))
  ∧ ∃ b0, Board_init (w b) (h b) (mine_target b) = Ok b0
          ∧ reset_game app = (mkApp (Some b0) false, None)
          ∧ w b0 = w b ∧ h b0 = h b ∧ mine_target b0 = mine_target b
          ∧ mines_placed b0 = false ∧ revealed_count b0 = 0
          ∧ ∀ c, in_bounds b c.1 c.2 = true → cell_at b0 c = default_cell.
Proof.
  intros Happ Hboard.
  assert (Hnew : ∀ width height mines,
     (0 < width ∧ 0 < height ∧ 0 < mines ≤ width * height - 1 →
      ∃ b0, Board_init width height mines = Ok b0
            ∧ new_game app width height mines = (mkApp (Some b0) false, None))
     ∧ (¬ (0 < width ∧ 0 < height ∧ 0 < mines ≤ width * height - 1) →
        new_game app width height mines = (app, Some NewGameErrorBox))).
  { intros width height mines. unfold new_game.
    destruct (Board_init width height mines) as [b0| |] eqn:Hinit.
    - split; [by exists b0|]. intros Hbad.
      apply Board_init_Ok in Hinit as (? & ? & ? & _). tauto.
    - split; [|done]. intros (Hw & Hh & Hm). exfalso.
      unfold Board_init in Hinit.
      destruct (Z.leb_spec width 0), (Z.leb_spec height 0); simpl in Hinit;
        try lia.
      destruct (Z.ltb_spec 0 mines), (Z.leb_spec mines (width * height - 1));
        simpl in Hinit; try lia; done.
    - split; [|done]. intros _. exfalso. unfold Board_init in Hinit.
      repeat case_match; done. }
  split; [done|].
  destruct (reachable_app_inv app Happ b Hboard) as (Hreach & _).
  destruct (reachable_inv b Hreach) as (Hwf & Hvalid & _).
  pose proof (wf_board_dims b Hwf) as [Hw Hh].
  destruct (proj1 (Hnew (w b) (h b) (mine_target b))) as (b0 & Hinit & Hrun).
  { unfold valid_target in Hvalid. lia. }
  exists b0. split; [done|]. split.
  { unfold reset_game. by rewrite Hboard. }
  pose proof Hinit as Hinit'.
  apply Board_init_Ok in Hinit' as (_ & _ & _ & Heq).
  assert (Hdims : w b0 = w b ∧ h b0 = h b) by (by subst b0).
  destruct Hdims as [Hw0 Hh0].
  split; [done|]. split; [done|]. split; [by subst b0|].
  split; [by subst b0|]. split; [by subst b0|].
  intros c Hc. apply (fresh_board_cell _ _ _ _ c Hinit).
  by rewrite (in_bounds_dims b b0).
Qed.

Lemma reset_game_restarts_witness :
  ∃ b0, Board_init (w ex_played) (h ex_played) (mine_target ex_played) = Ok b0
        ∧ reset_game ex_app_played = (mkApp (Some b0) false, None).
Proof.
  destruct (reset_game_restarts ex_app_played ex_played
              ex_app_played_reachable eq_refl) as (_ & b0 & Hinit & Hrun & _).
  by exists b0.
Defined.
(** * Names of difficulties *)

(** ** Strings *)

Lemma str_app_cons (a : ascii) (s t : string) :
  String a s +:+ t = String a (s +:+ t).
Proof. reflexivity. Qed.

Lemma str_app_nil_l (s : string) : "" +:+ s = s.
Proof. reflexivity. Qed.

Lemma str_app_nil_r (s : string) : s +:+ "" = s.
Proof. induction s as [|a s IH]; [done|]. by rewrite str_app_cons, IH. Qed.

Lemma str_app_assoc (s t u : string) : (s +:+ t) +:+ u = s +:+ (t +:+ u).
Proof. induction s as [|a s IH]; [done|]. by rewrite !str_app_cons, IH. Qed.

Lemma rev_app_spec (s acc : string) :
  String.rev_app s acc = String.rev s +:+ acc.
Proof.
  unfold String.rev. revert acc.
  induction s as [|a s IH]; intros acc; [done|]. simpl.
  rewrite (IH (String a acc)), (IH (String a "")), str_app_assoc. done.
Qed.

Lemma rev_cons (a : ascii) (s : string) :
  String.rev (String a s) = String.rev s +:+ String a "".
Proof. unfold String.rev at 1. simpl. apply rev_app_spec. Qed.

Lemma rev_app_distr_str (s t : string) :
  String.rev (s +:+ t) = String.rev t +:+ String.rev s.
Proof.
  induction s as [|a s IH].
  - by rewrite str_app_nil_l, str_app_nil_r.
  - by rewrite str_app_cons, !rev_cons, IH, str_app_assoc.
Qed.

Lemma rev_involutive_str (s : string) : String.rev (String.rev s) = s.
Proof.
  induction s as [|a s IH]; [done|].
  by rewrite rev_cons, rev_app_distr_str, IH.
Qed.

Lemma rev_nonempty (s : string) : s ≠ "" → String.rev s ≠ "".
Proof.
  intros Hne Hrev. apply Hne. by rewrite <- (rev_involutive_str s), Hrev.
Qed.

Lemma str_all_app (P : ascii → bool) (s t : string) :
  str_all P (s +:+ t) = str_all P s && str_all P t.
Proof.
  induction s as [|a s IH]; [done|]. rewrite str_app_cons. simpl.
  by rewrite IH, andb_assoc.
Qed.

Lemma str_all_rev (P : ascii → bool) (s : string) :
  str_all P (String.rev s) = str_all P s.
Proof.
  induction s as [|a s IH]; [done|].
  rewrite rev_cons, str_all_app, IH. simpl. rewrite andb_true_r.
  apply andb_comm.
Qed.

Lemma str_all_impl (P Q : ascii → bool) (s : string) :
  (∀ a, P a = true → Q a = true) → str_all P s = true → str_all Q s = true.
Proof.
  intros HPQ. induction s as [|a s IH]; simpl; [done|].
  intros [Ha Hs]%andb_true_iff. by rewrite (HPQ a Ha), IH.
Qed.

Lemma str_all_map (P : ascii → bool) (f : ascii → ascii) (s : string) :
  str_all P (str_map f s) = str_all (λ a, P (f a)) s.
Proof. induction s as [|a s IH]; simpl; [done|]. by rewrite IH. Qed.

Lemma str_all_true (P : ascii → bool) (s : string) :
  (∀ a, P a = true) → str_all P s = true.
Proof.
  intros HP. induction s as [|a s IH]; simpl; [done|]. by rewrite HP, IH.
Qed.

Lemma str_map_fix (f : ascii → ascii) (s : string) :
  str_all (λ a, Ascii.eqb (f a) a) s = true → str_map f s = s.
Proof.
  induction s as [|a s IH]; simpl; [done|].
  intros [Ha%Ascii.eqb_eq Hs]%andb_true_iff. by rewrite Ha, IH.
Qed.

Lemma str_map_map (f g : ascii → ascii) (s : string) :
  str_map f (str_map g s) = str_map (λ a, f (g a)) s.
Proof. induction s as [|a s IH]; simpl; [done|]. by rewrite IH. Qed.

Lemma str_map_ext (f g : ascii → ascii) (s : string) :
  (∀ a, f a = g a) → str_map f s = str_map g s.
Proof.
  intros Hfg. induction s as [|a s IH]; simpl; [done|]. by rewrite Hfg, IH.
Qed.

Lemma str_map_app (f : ascii → ascii) (s t : string) :
  str_map f (s +:+ t) = str_map f s +:+ str_map f t.
Proof.
  induction s as [|a s IH]; [done|]. rewrite str_app_cons. simpl.
  by rewrite IH.
Qed.

Lemma str_map_rev (f : ascii → ascii) (s : string) :
  str_map f (String.rev s) = String.rev (str_map f s).
Proof.
  induction s as [|a s IH]; [done|]. simpl.
  by rewrite !rev_cons, str_map_app, IH.
Qed.

(** ** [strip] *)

Lemma lstrip_starts_ok (s : string) : starts_ok s = true → lstrip s = s.
Proof. destruct s as [|a s]; [done|]. simpl. by intros ->%negb_true_iff. Qed.

Lemma starts_ok_lstrip (s : string) : starts_ok (lstrip s) = true.
Proof.
  induction s as [|a s IH]; [done|]. simpl.
  destruct (py_isspace a) eqn:Ha; [done|]. simpl. by rewrite Ha.
Qed.

Lemma lstrip_split (s : string) : ∃ p, s = p +:+ lstrip s.
Proof.
  induction s as [|a s [p Hp]]; [by exists ""|]. simpl.
  destruct (py_isspace a).
  - exists (String a p). by rewrite str_app_cons, <- Hp.
  - by exists "".
Qed.

Lemma starts_ok_app_l (x y : string) :
  x ≠ "" → starts_ok (x +:+ y) = starts_ok x.
Proof. by destruct x. Qed.

Lemma lstrip_map (f : ascii → ascii) (s : string) :
  (∀ a, py_isspace (f a) = py_isspace a) →
  lstrip (str_map f s) = str_map f (lstrip s).
Proof.
  intros Hf. induction s as [|a s IH]; simpl; [done|]. rewrite Hf.
  by destruct (py_isspace a).
Qed.

Lemma strip_map (f : ascii → ascii) (s : string) :
  (∀ a, py_isspace (f a) = py_isspace a) →
  strip (str_map f s) = str_map f (strip s).
Proof.
  intros Hf. unfold strip.
  by rewrite (lstrip_map f s Hf), <- str_map_rev, (lstrip_map f _ Hf),
    <- str_map_rev.
Qed.

Lemma strip_trimmed (s : string) :
  starts_ok s = true → starts_ok (String.rev s) = true → strip s = s.
Proof.
  intros H1 H2. unfold strip.
  rewrite (lstrip_starts_ok s H1), (lstrip_starts_ok _ H2).
  apply rev_involutive_str.
Qed.

Lemma trimmed_strip (s : string) :
  starts_ok (strip s) = true ∧ starts_ok (String.rev (strip s)) = true.
Proof.
  unfold strip. rewrite rev_involutive_str. split; [|apply starts_ok_lstrip].
  destruct (lstrip_split (String.rev (lstrip s))) as [p Hp].
  assert (Ht : lstrip s
               = String.rev (lstrip (String.rev (lstrip s))) +:+ String.rev p).
  { by rewrite <- rev_app_distr_str, <- Hp, rev_involutive_str. }
  destruct (decide (String.rev (lstrip (String.rev (lstrip s))) = ""))
    as [->|Hne]; [done|].
  rewrite <- (starts_ok_app_l _ (String.rev p)) by done. rewrite <- Ht.
  apply starts_ok_lstrip.
Qed.

Lemma strip_idem (s : string) : strip (strip s) = strip s.
Proof. destruct (trimmed_strip s). by apply strip_trimmed. Qed.

(** ** Characters *)

Lemma py_lower_isspace (a : ascii) : py_isspace (py_lower a) = py_isspace a.
Proof. destruct a as [[] [] [] [] [] [] [] []]; reflexivity. Qed.

Lemma py_lower_idem (a : ascii) : py_lower (py_lower a) = py_lower a.
Proof. destruct a as [[] [] [] [] [] [] [] []]; reflexivity. Qed.

Lemma key_char (a : ascii) :
  let c := (if Ascii.eqb (if Ascii.eqb (py_lower a) "_" then " "%char
                          else py_lower a) "-"
            then " "%char
            else if Ascii.eqb (py_lower a) "_" then " "%char else py_lower a) in
  py_isspace c || name_char c = true.
Proof. destruct a as [[] [] [] [] [] [] [] []]; reflexivity. Qed.

Lemma key_char_fix (a : ascii) :
  Ascii.eqb a " " || name_char a = true →
  Ascii.eqb (if Ascii.eqb (if Ascii.eqb (py_lower a) "_" then " "%char
                           else py_lower a) "-"
             then " "%char
             else if Ascii.eqb (py_lower a) "_" then " "%char else py_lower a)
            a = true.
Proof.
  destruct a as [[] [] [] [] [] [] [] []]; vm_compute; intros H;
    first [reflexivity | discriminate H].
Qed.

Lemma name_char_spec (a : ascii) :
  name_char a = true →
  py_isspace a = false ∧ py_lower a = a ∧ a ≠ "_"%char ∧ a ≠ "-"%char.
Proof.
  unfold name_char. intros [[[Hs Hl]%andb_true_iff Hu]%andb_true_iff Hh]%andb_true_iff.
  apply negb_true_iff in Hs, Hu, Hh.
  apply Ascii.eqb_eq in Hl. apply Ascii.eqb_neq in Hu, Hh. done.
Qed.

(** ** [split] and [join] *)

Lemma cur_words (Q : ascii → bool) (cur : option string) :
  (∀ c, cur = Some c → word_of Q c) →
  Forall (word_of Q) (option_list (String.rev <$> cur)).
Proof.
  intros Hcur. destruct cur as [c|]; simpl; [|constructor].
  destruct (Hcur c eq_refl) as [Hne Hall].
  constructor; [|constructor]. split; [by apply rev_nonempty|].
  by rewrite str_all_rev.
Qed.

Lemma split_go_words (Q : ascii → bool) (s : string) (cur : option string) :
  (∀ a, Q a = true → py_isspace a = false) →
  str_all (λ a, py_isspace a || Q a) s = true →
  (∀ c, cur = Some c → word_of Q c) →
  Forall (word_of Q) (split_go cur s).
Proof.
  intros HQ. revert cur. induction s as [|a s IH]; intros cur Hs Hcur; simpl.
  { by apply cur_words. }
  simpl in Hs. apply andb_true_iff in Hs as [Ha Hs].
  destruct (py_isspace a) eqn:Hsp.
  - apply Forall_app. split; [by apply cur_words|].
    apply IH; [done|]. intros c [=].
  - apply IH; [done|]. intros c [= <-]. split; [done|]. simpl.
    simpl in Ha. rewrite Ha. simpl.
    destruct cur as [c|]; simpl; [by destruct (Hcur c eq_refl)|done].
Qed.

Lemma split_go_word (wd : string) (cur : option string) (s : string) :
  wd ≠ "" → str_all (λ a, negb (py_isspace a)) wd = true →
  split_go cur (wd +:+ s)
  = split_go (Some (String.rev_app wd (default "" cur))) s.
Proof.
  revert cur. induction wd as [|a wd IH]; intros cur Hne Hall; [done|].
  simpl in Hall. apply andb_true_iff in Hall as [Ha%negb_true_iff Hall].
  rewrite str_app_cons. simpl. rewrite Ha.
  destruct (decide (wd = "")) as [->|Hwd]; [done|]. by rewrite IH.
Qed.

Lemma split_join (ws : list string) :
  Forall (word_of (λ a, negb (py_isspace a))) ws →
  split (String.concat " " ws) = ws.
Proof.
  induction 1 as [|wd ws [Hne Hall] Hws IH]; [done|].
  unfold split in *. simpl. destruct ws as [|wd' ws'].
  - rewrite <- (str_app_nil_r wd) at 1. rewrite split_go_word by done.
    simpl. by rewrite rev_app_spec, str_app_nil_r, rev_involutive_str.
  - rewrite split_go_word by done.
    change (split_go (Some (String.rev_app wd ""))
              (String " " (String.concat " " (wd' :: ws')))
            = wd :: wd' :: ws').
    change (option_list (String.rev <$> Some (String.rev_app wd ""))
            ++ split_go None (String.concat " " (wd' :: ws'))
            = wd :: wd' :: ws').
    rewrite IH. simpl.
    by rewrite rev_app_spec, str_app_nil_r, rev_involutive_str.
Qed.

Lemma filter_words (Q : ascii → bool) (ws : list string) :
  Forall (word_of Q) ws → filter (λ part, part ≠ EmptyString) ws = ws.
Proof.
  induction 1 as [|wd ws [Hne _] _ IH]; [done|].
  rewrite filter_cons. destruct (decide (wd ≠ "")); [|done]. by rewrite IH.
Qed.

Lemma Forall_filter_words (Q : ascii → bool) (ws : list string) :
  Forall (word_of Q) ws →
  Forall (word_of Q) (filter (λ part, part ≠ EmptyString) ws).
Proof. intros Hws. by rewrite (filter_words Q ws Hws). Qed.

Lemma join_nonempty (wd : string) (ws : list string) :
  wd ≠ "" → String.concat " " (wd :: ws) ≠ "".
Proof. intros Hne. simpl. destruct ws, wd; done. Qed.

Lemma join_chars (Q : ascii → bool) (ws : list string) :
  Forall (word_of Q) ws →
  str_all (λ a, Ascii.eqb a " " || Q a) (String.concat " " ws) = true.
Proof.
  induction 1 as [|wd ws [Hne Hall] Hws IH]; [done|].
  assert (Hwd : str_all (λ a, Ascii.eqb a " " || Q a) wd = true).
  { apply (str_all_impl Q); [|done]. intros a ->. apply orb_true_r. }
  simpl. destruct ws as [|wd' ws']; [done|].
  rewrite str_all_app, Hwd.
  change (" " +:+ String.concat " " (wd' :: ws'))
    with (String " " (String.concat " " (wd' :: ws'))).
  simpl. exact IH.
Qed.

Lemma word_starts_ok (wd : string) :
  word_of (λ a, negb (py_isspace a)) wd → starts_ok wd = true.
Proof.
  intros [Hne Hall]. destruct wd as [|a wd]; [done|]. simpl in *.
  by apply andb_true_iff in Hall as [-> _].
Qed.

Lemma join_trimmed (ws : list string) :
  Forall (word_of (λ a, negb (py_isspace a))) ws →
  starts_ok (String.concat " " ws) = true
  ∧ starts_ok (String.rev (String.concat " " ws)) = true.
Proof.
  induction 1 as [|wd ws Hwd Hws IH]; [done|].
  pose proof Hwd as [Hne Hall]. simpl. destruct ws as [|wd' ws'].
  - split; [by apply word_starts_ok|]. apply word_starts_ok.
    split; [by apply rev_nonempty|]. by rewrite str_all_rev.
  - split.
    + rewrite starts_ok_app_l by done. by apply word_starts_ok.
    + rewrite rev_app_distr_str.
      change (" " +:+ String.concat " " (wd' :: ws'))
        with (String " " "" +:+ String.concat " " (wd' :: ws')).
      rewrite rev_app_distr_str, str_app_assoc, starts_ok_app_l.
      * apply IH.
      * apply rev_nonempty, join_nonempty. inversion Hws as [|? ? [? _] _].
        done.
Qed.

(** ** [normalize_name] *)

Lemma name_char_nonspace (wd : string) :
  word_of name_char wd → word_of (λ a, negb (py_isspace a)) wd.
Proof.
  intros [Hne Hall]. split; [done|]. apply (str_all_impl name_char); [|done].
  intros a Ha. destruct (name_char_spec a Ha) as (-> & _). done.
Qed.

Lemma normalize_name_canon (s : string) : canonical (normalize_name s).
Proof.
  unfold normalize_name, canonical. eexists. split; [done|].
  apply Forall_filter_words. unfold split, replace_char.
  apply split_go_words.
  - intros a Ha. by destruct (name_char_spec a Ha) as (-> & _).
  - rewrite !str_map_map, str_all_map. apply str_all_true. intros a.
    apply key_char.
  - intros c [=].
Qed.

Lemma normalize_name_fix (s : string) : canonical s → normalize_name s = s.
Proof.
  intros (ws & -> & Hws).
  assert (Hws' : Forall (word_of (λ a, negb (py_isspace a))) ws).
  { eapply Forall_impl; [done|]. apply name_char_nonspace. }
  destruct (join_trimmed ws Hws') as [Hl Hr].
  pose proof (join_chars name_char ws Hws) as Hchars.
  unfold normalize_name. rewrite (strip_trimmed _ Hl Hr).
  unfold replace_char. rewrite !str_map_map, str_map_fix.
  - by rewrite (split_join ws Hws'), (filter_words name_char ws Hws).
  - apply (str_all_impl _ _ _ key_char_fix Hchars).
Qed.

Lemma normalize_name_pre (s : string) :
  normalize_name (str_map py_lower (strip s)) = normalize_name s.
Proof.
  unfold normalize_name.
  rewrite (strip_map py_lower (strip s) py_lower_isspace), strip_idem.
  rewrite (str_map_map py_lower py_lower).
  by rewrite (str_map_ext _ py_lower (strip s) py_lower_idem).
Qed.

Lemma _LEVELS_lookup_name (key : string) (d : Difficulty) :
  _LEVELS !! key = Some d → name d = key.
Proof.
  unfold _LEVELS. intros H.
  repeat (apply lookup_insert_Some in H as [[<- <-]|[_ H]]; [done|]).
  by apply lookup_singleton_Some in H as [<- <-].
Qed.

Lemma str_all_lstrip (P : ascii → bool) (s : string) :
  str_all P s = true → str_all P (lstrip s) = true.
Proof.
  induction s as [|a s IH]; simpl; [done|].
  intros [Ha Hs]%andb_true_iff. destruct (py_isspace a); [by apply IH|].
  simpl. by rewrite Ha, Hs.
Qed.

Lemma str_all_strip (P : ascii → bool) (s : string) :
  str_all P s = true → str_all P (strip s) = true.
Proof.
  intros Hs. unfold strip. rewrite str_all_rev. apply str_all_lstrip.
  rewrite str_all_rev. by apply str_all_lstrip.
Qed.

Lemma key_char_ascii (a : ascii) :
  is_ascii a = true →
  let c := (if Ascii.eqb (if Ascii.eqb (py_lower a) "_" then " "%char
                          else py_lower a) "-"
            then " "%char
            else if Ascii.eqb (py_lower a) "_" then " "%char else py_lower a) in
  py_isspace c || (name_char c && is_ascii c) = true.
Proof.
  destruct a as [[] [] [] [] [] [] [] []]; vm_compute; intros H;
    first [reflexivity | discriminate H].
Qed.

(** On an ASCII name [normalize_name] returns an ASCII name. *)
Lemma normalize_name_ascii (s : string) :
  ascii_name s → ascii_name (normalize_name s).
Proof.
  unfold ascii_name. intros Hs. unfold normalize_name.
  apply (str_all_impl (λ a, Ascii.eqb a " " || (name_char a && is_ascii a))).
  { intros a [Ha|[_ Ha]%andb_true_iff]%orb_true_iff; [|done].
    apply Ascii.eqb_eq in Ha. by subst a. }
  apply join_chars, Forall_filter_words. unfold split, replace_char.
  apply split_go_words.
  - intros a [Ha _]%andb_true_iff. by destruct (name_char_spec a Ha) as (-> & _).
  - rewrite !str_map_map, str_all_map.
    apply (str_all_impl is_ascii); [apply key_char_ascii|].
    by apply str_all_strip.
  - intros c [=].
Qed.

(** X15. On ASCII names (those on which the model is the code),
    [normalize_name] returns an ASCII name that is canonical: words without
    white space, upper-case letter, underscore or hyphen, joined by single
    spaces.  The canonical names are exactly the names it leaves as they
    are, so normalising twice is normalising once, and [get_difficulty]
    finds for the normalised name what it finds for the name. *)
Theorem normalize_name_is_canonical (s : string) :
  ascii_name s →
  ascii_name (normalize_name s)
  ∧ canonical (normalize_name s)
  ∧ (canonical s ↔ normalize_name s = s)
  ∧ normalize_name (normalize_name s) = normalize_name s
  ∧ get_difficulty (normalize_name s) = get_difficulty s.
Proof.
  intros Hascii. split; [by apply normalize_name_ascii|].
  pose proof (normalize_name_canon s) as Hc. split; [done|].
  pose proof (normalize_name_fix _ Hc) as Hidem. split; [|split; [done|]].
  - split; [apply normalize_name_fix|]. intros <-. done.
  - unfold get_difficulty. by rewrite Hidem.
Qed.

Lemma normalize_name_is_canonical_witness :
  ascii_name (normalize_name "  Too_-hard ")
  ∧ canonical (normalize_name "  Too_-hard ")
  ∧ get_difficulty (normalize_name "  Too_-hard ")
    = get_difficulty "  Too_-hard ".
Proof.
  destruct (normalize_name_is_canonical "  Too_-hard ")
    as (Ha & Hc & _ & _ & Hg); [reflexivity|].
  by split_and!.
Defined.

(** X16. On an ASCII name (those on which the model is the code),
    [get_difficulty] returns a preset exactly when the normalised name is
    the name of that preset, and raises the unknown-difficulty error, and
    no other, exactly when the normalised name is none of easy, medium,
    hard and too hard. *)
Theorem get_difficulty_outcome (nm : string) :
  ascii_name nm →
  (∀ d, get_difficulty nm = Ok d
        ↔ d ∈ [mkDifficulty "easy" 9 9 10; mkDifficulty "medium" 16 16 40;
               mkDifficulty "hard" 30 16 99; mkDifficulty "too hard" 30 24 180]
          ∧ name d = normalize_name nm)
  ∧ (get_difficulty nm = Raise UnknownDifficulty
     ↔ normalize_name nm ∉ ["easy"; "medium"; "hard"; "too hard"]%string)
  ∧ (∀ e, get_difficulty nm = Raise e → e = UnknownDifficulty)
  ∧ get_difficulty nm ≠ OutOfFuel.
Proof.
  intros _. unfold get_difficulty.
  assert (Hkeys : ∀ d,
    d ∈ [mkDifficulty "easy" 9 9 10; mkDifficulty "medium" 16 16 40;
         mkDifficulty "hard" 30 16 99; mkDifficulty "too hard" 30 24 180] →
    _LEVELS !! name d = Some d).
  { intros d Hd. repeat (apply elem_of_cons in Hd as [->|Hd]; [reflexivity|]).
    by apply elem_of_nil in Hd. }
  destruct (_LEVELS !! normalize_name nm) as [d0|] eqn:Hl.
  - pose proof (_LEVELS_lookup_name _ _ Hl) as Hname.
    split_and!; try done.
    + intros d. split.
      * intros [= <-]. split; [|done].
        apply _LEVELS_lookup in Hl as [ -> | [ -> | [ -> | -> ] ] ];
          set_solver.
      * intros [Hd Hn]. apply Hkeys in Hd. rewrite Hn in Hd. congruence.
    + split; [done|]. intros Hnot. exfalso. apply Hnot. rewrite <- Hname.
      apply _LEVELS_lookup in Hl as [ -> | [ -> | [ -> | -> ] ] ];
        set_solver.
  - split_and!; try done.
    + intros d. split; [done|]. intros [Hd Hn]. apply Hkeys in Hd.
      rewrite Hn in Hd. congruence.
    + split; [|done]. intros _ Hin.
      repeat (apply elem_of_cons in Hin as [Heq|Hin];
              [rewrite Heq in Hl; discriminate Hl|]).
      by apply elem_of_nil in Hin.
    + by intros e [= <-].
Qed.

Lemma get_difficulty_outcome_witness :
  get_difficulty " Too_Hard " = Ok (mkDifficulty "too hard" 30 24 180)
  ↔ mkDifficulty "too hard" 30 24 180
    ∈ [mkDifficulty "easy" 9 9 10; mkDifficulty "medium" 16 16 40;
       mkDifficulty "hard" 30 16 99; mkDifficulty "too hard" 30 24 180]
    ∧ name (mkDifficulty "too hard" 30 24 180) = normalize_name " Too_Hard ".
Proof. apply (get_difficulty_outcome " Too_Hard "). reflexivity. Defined.

(** X17. The New button.  When [get_difficulty] accepts the text of the
    difficulty box, the game starts on the fresh board of that preset,
    whatever the spin boxes hold, and no error box is shown; and whenever an
    error box is shown the application is left as it was. *)
Theorem new_game_from_inputs_outcome (app : App) (inp : Inputs) :
  (∀ d, get_difficulty (diff_var inp) = Ok d →
        ∃ b, Board_init (width d) (height d) (mines d) = Ok b
             ∧ new_game_from_inputs app inp = (mkApp (Some b) false, None))
  ∧ (∀ box, (new_game_from_inputs app inp).2 = Some box →
            (new_game_from_inputs app inp).1 = app).
Proof.
  split.
  - intros d Hd. unfold new_game_from_inputs.
    assert (Hpre : get_difficulty (str_map py_lower (strip (diff_var inp)))
                   = Ok d).
    { unfold get_difficulty in *. by rewrite normalize_name_pre. }
    destruct (String.eqb (str_map py_lower (strip (diff_var inp))) "custom")
      eqn:Hcustom.
    { apply String.eqb_eq in Hcustom. rewrite Hcustom in Hpre.
      discriminate Hpre. }
    simpl. rewrite Hpre. unfold get_difficulty in Hd.
    destruct (_LEVELS !! normalize_name (diff_var inp)) as [d0|] eqn:Hl;
      [|done].
    injection Hd as ->. unfold new_game.
    apply _LEVELS_lookup in Hl as [ -> | [ -> | [ -> | -> ] ] ];
      by eexists.
  - intros box. unfold new_game_from_inputs, new_game.
    repeat case_match; simpl; done.
Qed.

Lemma new_game_from_inputs_outcome_witness :
  ∃ b, Board_init 9 9 10 = Ok b
       ∧ new_game_from_inputs ex_app_played
           (mkInputs " Easy" (Some 0) None (Some 3))
         = (mkApp (Some b) false, None).
Proof.
  apply (proj1 (new_game_from_inputs_outcome ex_app_played
                  (mkInputs " Easy" (Some 0) None (Some 3)))
           (mkDifficulty "easy" 9 9 10)).
  reflexivity.
Defined.
(** * The text view ([Board.render]) *)

Lemma for_each_collect {A B C : Type} (g : A → result B) (f : A → B)
    (k : B → C) (acc : list C) (l : list A) :
  (∀ x, x ∈ l → g x = Ok (f x)) →
  for_each (λ acc x, do v <- g x; Ok (acc ++ [k v])) acc l
  = Ok (acc ++ ((λ x, k (f x)) <$> l)).
Proof.
  revert acc. induction l as [|a l IH]; intros acc Hg; simpl.
  - by rewrite app_nil_r.
  - rewrite (Hg a) by left. simpl. rewrite IH.
    + by rewrite <- app_assoc.
    + intros x Hx. apply Hg. by right.
Qed.

Lemma elem_of_range (n x : Z) : x ∈ range n ↔ 0 ≤ x < n.
Proof. unfold range. rewrite elem_of_seqZ. lia. Qed.

(** On a well-formed board [render] returns the header line and one line
    for each row, joined by newlines. *)
Lemma render_lines (b : Board) (reveal_all : bool) :
  wf_board b = true →
  render b reveal_all
  = Ok (String.concat newline
          (("   " +:+ String.concat " " (fmt_2d <$> range (w b)))
           :: ((λ y, String.concat " "
                       (fmt_2d y
                        :: ((λ x, " " +:+ fmt_2s (cell_text reveal_all
                                                   (cell_at b (x, y))))
                            <$> range (w b))))
               <$> range (h b)))).
Proof.
  intros Hwf. unfold render.
  rewrite (for_each_collect
             (λ y, for_each
                     (λ row x, do c <- get_cell (grid b) x y;
                               Ok (row ++ [" " +:+ fmt_2s (cell_text reveal_all c)]))
                     [fmt_2d y] (range (w b)))
             (λ y, fmt_2d y
                   :: ((λ x, " " +:+ fmt_2s (cell_text reveal_all
                                              (cell_at b (x, y))))
                       <$> range (w b)))
             (String.concat " ")); [done|].
  intros y Hy%elem_of_range.
  rewrite (for_each_collect (λ x, get_cell (grid b) x y)
             (λ x, cell_at b (x, y))
             (λ c, " " +:+ fmt_2s (cell_text reveal_all c))); [done|].
  intros x Hx%elem_of_range. apply get_cell_xy; [done|].
  apply in_bounds_spec. simpl. lia.
Qed.

Lemma render_ext (b1 b2 : Board) (reveal_all : bool) :
  wf_board b1 = true → wf_board b2 = true → w b2 = w b1 → h b2 = h b1 →
  (∀ c, in_bounds b1 c.1 c.2 = true →
        cell_text reveal_all (cell_at b2 c)
        = cell_text reveal_all (cell_at b1 c)) →
  render b2 reveal_all = render b1 reveal_all.
Proof.
  intros Hwf1 Hwf2 Hw Hh Hcells.
  rewrite (render_lines b1 _ Hwf1), (render_lines b2 _ Hwf2), Hw, Hh.
  do 3 f_equal. apply Forall_fmap_ext, Forall_forall.
  intros y Hy%elem_of_range. do 2 f_equal.
  apply Forall_fmap_ext, Forall_forall. intros x Hx%elem_of_range.
  rewrite (Hcells (x, y)); [done|]. apply in_bounds_spec. simpl. lia.
Qed.

(** X18. The normal view shows only what the player has uncovered: on
    well-formed boards [render()] returns a text, and two boards of the
    same dimensions whose cells have the same flags and the same revealed
    marks, and the same mine mark and count wherever they are revealed, are
    rendered to the same text, whatever the hidden cells hold. *)
Theorem render_hides_hidden_cells (b1 b2 : Board) :
  wf_board b1 = true → wf_board b2 = true → w b2 = w b1 → h b2 = h b1 →
  (∀ c, in_bounds b1 c.1 c.2 = true →
        flagged (cell_at b2 c) = flagged (cell_at b1 c)
        ∧ revealed (cell_at b2 c) = revealed (cell_at b1 c)
        ∧ (revealed (cell_at b1 c) = true →
           mine (cell_at b2 c) = mine (cell_at b1 c)
           ∧ adj (cell_at b2 c) = adj (cell_at b1 c))) →
  ∃ text, render b1 false = Ok text ∧ render b2 false = Ok text.
Proof.
  intros Hwf1 Hwf2 Hw Hh Hcells. eexists. split; [by apply render_lines|].
  rewrite <- (render_lines b1 false Hwf1).
  apply render_ext; try done. intros c Hc.
  destruct (Hcells c Hc) as (Hf & Hr & Hshown). unfold cell_text.
  rewrite Hf, Hr. destruct (revealed (cell_at b1 c)); [|done].
  destruct (Hshown eq_refl) as [-> ->]. done.
Qed.

Lemma render_hides_hidden_cells_witness :
  ∃ text, render ex_fresh false = Ok text
          ∧ render ex_mined false = Ok text.
Proof.
  apply (render_hides_hidden_cells ex_fresh); try reflexivity.
  intros c Hc%in_bounds_spec. destruct c as [x y]. simpl in Hc.
  assert (Hcases : (x = 0 ∨ x = 1 ∨ x = 2) ∧ (y = 0 ∨ y = 1 ∨ y = 2)) by lia.
  destruct Hcases as [ [ -> | [ -> | -> ] ] [ -> | [ -> | -> ] ] ];
    vm_compute; split_and!; congruence.
Defined.

(** X19. The full view shows only the mines and the counts: on well-formed
    boards of the same dimensions whose cells have the same mine marks and
    the same counts, [render(reveal_all=True)] returns the same text,
    whatever is revealed or flagged; so a reveal on a board whose mines are
    placed, or a flag toggle, does not change it. *)
Theorem render_reveal_all_ignores_play (b1 b2 : Board) :
  wf_board b1 = true → wf_board b2 = true → w b2 = w b1 → h b2 = h b1 →
  (∀ c, in_bounds b1 c.1 c.2 = true →
        mine (cell_at b2 c) = mine (cell_at b1 c)
        ∧ adj (cell_at b2 c) = adj (cell_at b1 c)) →
  ∃ text, render b1 true = Ok text ∧ render b2 true = Ok text.
Proof.
  intros Hwf1 Hwf2 Hw Hh Hcells. eexists. split; [by apply render_lines|].
  rewrite <- (render_lines b1 true Hwf1).
  apply render_ext; try done. intros c Hc.
  destruct (Hcells c Hc) as [Hm Ha]. unfold cell_text. by rewrite Hm, Ha.
Qed.

Lemma render_reveal_all_ignores_play_witness :
  ∃ text, render ex_small_1 true = Ok text ∧ render ex_small_2 true = Ok text.
Proof.
  apply (render_reveal_all_ignores_play ex_small_1 ex_small_2);
    try reflexivity.
  intros c Hc%in_bounds_spec. destruct c as [x y]. simpl in Hc.
  assert (Hcases : (x = 0 ∨ x = 1) ∧ (y = 0 ∨ y = 1)) by lia.
  destruct Hcases as [ [ -> | -> ] [ -> | -> ] ]; vm_compute; by split.
Defined.
